(** * Gemini co-speech gesture scripts: response triage, emphasis formatting
      and the request/retry loop

    A shallow embedding of the parts of the scripts that decide how a
    response of the analysis service is validated, split and written to
    the report, and of the loop that issues the requests:

    - [PyStr]: the Python string operations the scripts call;
    - [Re]: the fragment of [re] needed for the three patterns in use;
    - [Validator]: the validity check of gemini2.5_nocontext.py;
    - [Splitter]: the action/category split of gesture_analysis_doc.py;
    - [Formatter]: [format_text_with_bold] of gemini2.5_analysis_doc.py,
      with the refusal by the document library of the characters XML has
      no place for;
    - [Batch]: [create_analysis_document] of gemini2.5_analysis_doc.py;
    - [Gesture]: the formatter and the report of gesture_analysis_doc.py.

    A Python [str] is modelled as a list of characters whose code points
    lie below 256, so that the character classes of [str.isspace],
    [str.lower] and the regex class \d are the Latin-1 ones. *)

From Stdlib Require Import String.
From Stdlib Require Import Ascii List Arith Bool Lia.
Import ListNotations.

Open Scope list_scope.

(* ------------------------------------------------------------------ *)
(** ** Python strings *)

Module PyStr.

Definition str := list ascii.

(** A literal of the source. *)
Definition py (s : String.string) : str := String.list_ascii_of_string s.

(** [c.isspace()]: tab, LF, VT, FF, CR, FS, GS, RS, US, space, NEL, NBSP. *)
Definition isspace (c : ascii) : bool :=
  let n := nat_of_ascii c in
  ((9 <=? n) && (n <=? 13)) || ((28 <=? n) && (n <=? 32))
  || (n =? 133) || (n =? 160).

(** [c.isdigit()] restricted to decimal digits, which is what \d accepts. *)
Definition isdigit (c : ascii) : bool :=
  let n := nat_of_ascii c in (48 <=? n) && (n <=? 57).

(** [c.lower()]: A-Z and the accented capitals 0xC0-0xDE, the
    multiplication sign 0xD7 apart. *)
Definition lower_char (c : ascii) : ascii :=
  let n := nat_of_ascii c in
  if ((65 <=? n) && (n <=? 90))
     || ((192 <=? n) && (n <=? 222) && negb (n =? 215))
  then ascii_of_nat (n + 32) else c.

(** [s.lower()] *)
Definition lower (s : str) : str := map lower_char s.

(** [s.startswith(p)] *)
Fixpoint startswith (p s : str) : bool :=
  match p, s with
  | [], _ => true
  | _ :: _, [] => false
  | a :: p', b :: s' => Ascii.eqb a b && startswith p' s'
  end.

(** [s.endswith(p)] *)
Definition endswith (p s : str) : bool := startswith (rev p) (rev s).

(** [s.startswith((p1, ..., pn))] *)
Definition startswith_any (ps : list str) (s : str) : bool :=
  existsb (fun p => startswith p s) ps.

(** [sub in s] *)
Fixpoint contains (sub s : str) : bool :=
  startswith sub s
  || match s with
     | [] => false
     | _ :: s' => contains sub s'
     end.

(** [s.partition(sep)] when [sep] occurs: the text before the first
    occurrence and the text after it; [None] when it does not occur.
    The separator is never empty in the scripts. *)
Fixpoint partition (sep s : str) : option (str * str) :=
  if startswith sep s then Some ([], skipn (length sep) s)
  else match s with
       | [] => None
       | c :: s' =>
           match partition sep s' with
           | Some (pre, post) => Some (c :: pre, post)
           | None => None
           end
       end.

(** [s.split(sep)]: cut at every occurrence, scanning left to right and
    resuming after the separator.  The fuel is the length of the text,
    which bounds the number of cuts. *)
Fixpoint split_fuel (n : nat) (sep s : str) : list str :=
  match partition sep s with
  | None => [s]
  | Some (pre, post) =>
      match n with
      | 0 => [s]
      | S n' => pre :: split_fuel n' sep post
      end
  end.

Definition split (sep s : str) : list str := split_fuel (length s) sep s.

(** [s.replace(old, new)] *)
Fixpoint replace_fuel (n : nat) (old new s : str) : str :=
  match partition old s with
  | None => s
  | Some (pre, post) =>
      match n with
      | 0 => s
      | S n' => pre ++ new ++ replace_fuel n' old new post
      end
  end.

Definition replace (old new s : str) : str :=
  replace_fuel (length s) old new s.

(** [s.lstrip()], [s.rstrip()], [s.strip()] *)
Fixpoint lstrip (s : str) : str :=
  match s with
  | [] => []
  | c :: s' => if isspace c then lstrip s' else s
  end.

Definition rstrip (s : str) : str := rev (lstrip (rev s)).

Definition strip (s : str) : str := rstrip (lstrip s).

(** [s.split()]: the maximal runs of non-whitespace characters.  [cur]
    holds the run being read, last character first. *)
Fixpoint words_acc (cur s : str) : list str :=
  match s with
  | [] => match cur with [] => [] | _ :: _ => [rev cur] end
  | c :: s' =>
      if isspace c
      then match cur with
           | [] => words_acc [] s'
           | _ :: _ => rev cur :: words_acc [] s'
           end
      else words_acc (c :: cur) s'
  end.

Definition split_ws (s : str) : list str := words_acc [] s.

(** [s[a:-b]] for literal [a] and [b > 0]. *)
Definition slice_inner (a b : nat) (s : str) : str :=
  firstn (length s - b - a) (skipn a s).

(** [os.path.basename(p)] on POSIX: what follows the last slash. *)
Fixpoint basename_acc (cur p : str) : str :=
  match p with
  | [] => rev cur
  | c :: p' => if Ascii.eqb c "/"%char then basename_acc [] p' else basename_acc (c :: cur) p'
  end.

Definition basename (p : str) : str := basename_acc [] p.

(** [a == b] *)
Fixpoint str_eqb (a b : str) : bool :=
  match a, b with
  | [], [] => true
  | x :: a', y :: b' => Ascii.eqb x y && str_eqb a' b'
  | _, _ => false
  end.

End PyStr.
Import PyStr.

(* ------------------------------------------------------------------ *)
(** ** The fragment of [re] the scripts use

    The three patterns of the scripts are sequences of single-character
    classes, at most one of them under a lazy star: the timestamp pattern
    [\d{2}:\d{2}\.\d{3}] and the bold and italic patterns below. *)

Module Re.

Inductive cclass :=
| Lit (c : ascii)   (* an escaped or plain character *)
| Digit             (* \d *)
| Dot.              (* . without DOTALL: anything but a newline *)

Definition accepts (k : cclass) (c : ascii) : bool :=
  match k with
  | Lit a => Ascii.eqb a c
  | Digit => isdigit c
  | Dot => negb (Ascii.eqb c "010"%char)
  end.

Inductive atom :=
| One (k : cclass)       (* k *)
| LazyStar (k : cclass). (* k*? *)

Definition pattern := list atom.

Definition consume (c : ascii) (r : option (str * str)) : option (str * str) :=
  match r with
  | Some (m, rest) => Some (c :: m, rest)
  | None => None
  end.

(** The match of [p] anchored at the start of [s], as the backtracking
    matcher finds it: the matched text and what follows it.  A lazy star
    first tries the rest of the pattern and takes one more character only
    when that fails. *)
Fixpoint match_here (p : pattern) (s : str) : option (str * str) :=
  match p with
  | [] => Some ([], s)
  | One k :: p' =>
      match s with
      | c :: s' => if accepts k c then consume c (match_here p' s') else None
      | [] => None
      end
  | LazyStar k :: p' =>
      (fix star (s : str) : option (str * str) :=
         match match_here p' s with
         | Some r => Some r
         | None =>
             match s with
             | c :: s' => if accepts k c then consume c (star s') else None
             | [] => None
             end
         end) s
  end.

(** [re.search(p, s)]: the leftmost match, with the text before it. *)
Fixpoint search (p : pattern) (s : str) : option (str * str * str) :=
  match match_here p s with
  | Some (m, rest) => Some ([], m, rest)
  | None =>
      match s with
      | [] => None
      | c :: s' =>
          match search p s' with
          | Some (pre, m, rest) => Some (c :: pre, m, rest)
          | None => None
          end
      end
  end.

(** [re.split('(p)', s)] for a pattern that cannot match the empty string:
    the texts between the matches, with each match (the capture group)
    between them. *)
Fixpoint re_split_fuel (n : nat) (p : pattern) (s : str) : list str :=
  match search p s with
  | None => [s]
  | Some (pre, m, rest) =>
      match n with
      | 0 => [s]
      | S n' => pre :: m :: re_split_fuel n' p rest
      end
  end.

Definition re_split (p : pattern) (s : str) : list str :=
  re_split_fuel (length s) p s.

Definition lit (s : String.string) : pattern := map (fun c => One (Lit c)) (py s).

(** [r'\d{2}:\d{2}\.\d{3}'] *)
Definition TIMESTAMP : pattern :=
  [One Digit; One Digit] ++ lit ":" ++ [One Digit; One Digit] ++ lit "."
  ++ [One Digit; One Digit; One Digit].

(** The bold pattern: two literal asterisks, a lazy run of any characters
    but a newline, two literal asterisks, the whole in a capture group. *)
Definition BOLD : pattern := lit "**" ++ [LazyStar Dot] ++ lit "**".

(** The italic pattern: the same with single asterisks. *)
Definition ITALIC : pattern := lit "*" ++ [LazyStar Dot] ++ lit "*".

End Re.
Import Re.

(* ------------------------------------------------------------------ *)
(** ** The validity check (gemini2.5_nocontext.py, lines 383-399 and 457-471) *)

Module Validator.

(** The threshold written in the two checks. *)
Definition MIN_WORDS : nat := 50.

(** The tokens of [has_gesture_types], in the order of the source. *)
Definition GESTURE_TYPES : list str :=
  [py "beat"; py "metaphoric"; py "iconic"; py "deictic"].

(** [bool(re.search(r'\d{2}:\d{2}\.\d{3}', response_text))] *)
Definition has_timestamps (response_text : str) : bool :=
  match search TIMESTAMP response_text with
  | Some _ => true
  | None => false
  end.

(** [len(response_text.split()) >= 50], the threshold as a parameter. *)
Definition has_sufficient_length (min_words : nat) (response_text : str) : bool :=
  min_words <=? length (split_ws response_text).

(** [any(token.lower() in response_text.lower() for token in [...])] *)
Definition has_gesture_types (tokens : list str) (response_text : str) : bool :=
  existsb (fun token => contains (lower token) (lower response_text)) tokens.

(** The test of the initial attempt: the response goes to the error log. *)
Definition rejected (min_words : nat) (tokens : list str) (response_text : str) : bool :=
  negb (has_timestamps response_text)
  || negb (has_sufficient_length min_words response_text)
  || negb (has_gesture_types tokens response_text).

(** The test of a retry: the response is stored as valid. *)
Definition accepted (min_words : nat) (tokens : list str) (retry_response : str) : bool :=
  has_timestamps retry_response
  && has_sufficient_length min_words retry_response
  && has_gesture_types tokens retry_response.

(** The verdict on an initial response: it is stored when not rejected. *)
Definition usable (min_words : nat) (tokens : list str) (response_text : str) : bool :=
  negb (rejected min_words tokens response_text).

End Validator.

(* ------------------------------------------------------------------ *)
(** ** The action/category split (gesture_analysis_doc.py, lines 111-148) *)

Module Splitter.

Record SplitAnswer := { action : str; category : str }.

Definition SENTINEL : str := py "Category not clearly specified in response".

(** The prefixes that mark a category line. *)
Definition INTRODUCERS : list str :=
  [py "2."; py "2)"; py "Category:"; py "The gesture"].

(** [parts = text.split(marker2)], then
    [action = parts[0].replace(marker1, "").strip()] and
    [category = marker2 + parts[1].strip()].  [None] is the IndexError of
    [parts[1]]. *)
Definition split_on (marker1 marker2 : str) (response_text : str) : option (str * str) :=
  let parts := split marker2 response_text in
  match nth_error parts 0 with
  | None => None
  | Some p0 =>
      let action := strip (replace marker1 [] p0) in
      match nth_error parts 1 with
      | None => None
      | Some p1 => Some (action, marker2 ++ strip p1)
      end
  end.

(** [[line.strip() for line in text.split('\n') if line.strip()]] *)
Definition nonempty_lines (response_text : str) : list str :=
  map strip
    (filter (fun line => match strip line with [] => false | _ :: _ => true end)
       (split (py "
") response_text)).

(** The body of the [try]: the branch chosen by the markers found. *)
Definition pick (response_text : str) : option (str * str) :=
  if (contains (py "1)") response_text && contains (py "2)") response_text)
     || (contains (py "1.") response_text && contains (py "2.") response_text)
  then
    if contains (py "1)") response_text
    then split_on (py "1)") (py "2)") response_text
    else split_on (py "1.") (py "2.") response_text
  else if contains (py "Action:") response_text && contains (py "Category:") response_text
  then split_on (py "Action:") (py "Category:") response_text
  else
    let lines := nonempty_lines response_text in
    if 2 <=? length lines
    then
      match nth_error lines 1 with
      | None => None
      | Some line1 =>
          if startswith_any INTRODUCERS line1
          then match nth_error lines 0 with
               | None => None
               | Some line0 => Some (line0, line1)
               end
          else Some (response_text, SENTINEL)
      end
    else Some (response_text, SENTINEL).

(** [action.replace("1)", "").replace("1.", "").strip()], line 148. *)
Definition clean_action (a : str) : str :=
  strip (replace (py "1.") [] (replace (py "1)") [] a)).

(** The split of a response.  [None]: the [try] raised and the [except]
    clause wrote the raw response under "Error parsing response". *)
Definition split_response (response_text : str) : option SplitAnswer :=
  match pick response_text with
  | Some (a, c) => Some {| action := clean_action a; category := c |}
  | None => None
  end.

End Splitter.

(* ------------------------------------------------------------------ *)
(** ** The emphasis formatter (gemini2.5_analysis_doc.py, lines 41-70)

    The document library writes the text of a run as XML and raises
    ValueError on a character XML has no place for: a control character
    other than tab, line feed and carriage return. *)

Module Formatter.

(** A run of a paragraph, with its text as [run.text] gives it back;
    [bold] and [italic] are false until set. *)
Record run := { text : str; bold : bool; italic : bool }.

Definition paragraph := list run.

(** The characters the library accepts in a text. *)
Definition xml_char (c : ascii) : bool :=
  (32 <=? nat_of_ascii c)
  || Ascii.eqb c "009"%char || Ascii.eqb c "010"%char || Ascii.eqb c "013"%char.

Definition xml_compatible (t : str) : bool := forallb xml_char t.

(** How writing to a paragraph ends: with the paragraph written, or with
    the ValueError of the library, raised for the text [t] after the runs
    [p] were added. *)
Inductive written :=
| Done (p : paragraph)
| Refused (p : paragraph) (t : str).

(** The text of a run as the library gives it back: a carriage return
    is written as a line break, like a line feed, and comes back as a
    line feed. *)
Definition stored (t : str) : str :=
  map (fun c => if Ascii.eqb c "013"%char then "010"%char else c) t.

(** [paragraph.add_run(t)] followed by the settings of the source. *)
Definition add_run (p : paragraph) (t : str) (b i : bool) : written :=
  if xml_compatible t
  then Done (p ++ [{| text := stored t; bold := b; italic := i |}])
  else Refused p t.

(** A [for] loop over the parts of a text, left by the first write that
    raises. *)
Fixpoint for_parts (body : paragraph -> str -> written) (parts : list str) (p : paragraph) : written :=
  match parts with
  | [] => Done p
  | part :: rest =>
      match body p part with
      | Done p' => for_parts body rest p'
      | Refused p' t => Refused p' t
      end
  end.

(** The inner loop over [re.split] of the italic pattern. *)
Definition format_italic (p : paragraph) (part : str) : written :=
  for_parts
    (fun p italic_part =>
       if startswith (py "*") italic_part && endswith (py "*") italic_part
       then add_run p (slice_inner 1 1 italic_part) false true
       else add_run p italic_part false false)
    (re_split ITALIC part) p.

Definition format_text_with_bold (p : paragraph) (t : str) : written :=
  for_parts
    (fun p part =>
       if startswith (py "**") part && endswith (py "**") part
       then add_run p (slice_inner 2 2 part) true false
       else format_italic p part)
    (re_split BOLD t) p.

End Formatter.

(* ------------------------------------------------------------------ *)
(** ** The request loop (gemini2.5_analysis_doc.py, create_analysis_document)

    The service, the file system and the operator are the environment of
    a run.  The report document is written to but never read before the
    final save, so the state keeps the tracking variables of the function
    and the calls made to the service; of a write to the document only
    whether the library refuses it is modelled.  File names and the
    messages of exceptions are taken to be texts the library accepts. *)

Module Batch.

(** A Python [dict] with [str] keys: insertion-ordered, one entry per key. *)
Definition dict (V : Type) := list (str * V).

Definition dict_mem {V : Type} (k : str) (d : dict V) : bool :=
  existsb (fun kv => str_eqb (fst kv) k) d.

(** [d[k] = v]: an existing key keeps its place. *)
Fixpoint dict_set {V : Type} (k : str) (v : V) (d : dict V) : dict V :=
  match d with
  | [] => [(k, v)]
  | (k', v') :: d' =>
      if str_eqb k' k then (k', v) :: d' else (k', v') :: dict_set k v d'
  end.

(** [d[k].append(x)]; [None] is the KeyError of [d[k]]. *)
Fixpoint dict_append {V : Type} (k : str) (x : V) (d : dict (list V)) : option (dict (list V)) :=
  match d with
  | [] => None
  | (k', l) :: d' =>
      if str_eqb k' k then Some ((k', l ++ [x]) :: d')
      else match dict_append k x d' with
           | Some d'' => Some ((k', l) :: d'')
           | None => None
           end
  end.

(** [list(d.keys())] *)
Definition keys {V : Type} (d : dict V) : list str := map fst d.

(** The entries written to [error_log], one constructor per format string. *)
Inductive log_entry :=
| FileNotFound                      (* "File not found" *)
| InitialAttempt (t : str)          (* "Initial attempt: {response_text}" *)
| NoResponseReceived                (* "No response received from Gemini" *)
| ErrorAnalyzing                    (* "Error analyzing video: {e}" *)
| RetryAttempt (n : nat) (t : str)  (* "Retry attempt {n}: {retry_response}" *)
| RetryNoResponse (n : nat).        (* "Retry attempt {n}: No response" *)

(** The calls made to the analysis service, tagged with the video path. *)
Inductive call :=
| Upload (video_path : str)    (* genai.upload_file *)
| Generate (video_path : str)  (* model.generate_content *)
| Delete (video_path : str).   (* genai.delete_file *)

(** What the service does during one attempt.  [delete_raises] tells
    whether [genai.delete_file] raises in the cleanup. *)
Inductive outcome :=
| UploadRaises
| GenerateRaises (delete_raises : bool)
| NoText (delete_raises : bool)           (* falsy response, or no text attribute *)
| TextRaises (delete_raises : bool)       (* reading the text raises *)
| Text (t : str) (delete_raises : bool).

Record world := {
  file_exists : str -> bool;   (* os.path.exists, unchanged during the run *)
  service : nat -> outcome;    (* the outcome of the k-th attempt of the run *)
  auto_retry : bool;           (* "automate retries?" was answered yes or y *)
  operator : nat -> bool       (* round n: "retry these files?" answered yes or y *)
}.

(** The tracking variables.  A local that may be unbound is an option.
    The clock is not modelled: a time or duration is represented by the
    number of the attempt during which it was taken. *)
Record state := {
  request_count : nat;
  video_responses : dict (str * nat);   (* response, processing_time *)
  video_retry_counts : dict nat;
  error_log : dict (list log_entry);
  processing_times : list (str * nat);
  start_time : option nat;
  end_time : option nat;
  processing_time : option nat;
  calls : list call
}.

Definition initial_state : state :=
  {| request_count := 0; video_responses := []; video_retry_counts := [];
     error_log := []; processing_times := []; start_time := None;
     end_time := None; processing_time := None; calls := [] |}.

Definition set_request_count (v : nat) (st : state) : state :=
  {| request_count := v;
     video_responses := video_responses st;
     video_retry_counts := video_retry_counts st;
     error_log := error_log st;
     processing_times := processing_times st;
     start_time := start_time st;
     end_time := end_time st;
     processing_time := processing_time st;
     calls := calls st |}.

Definition set_video_responses (v : dict (str * nat)) (st : state) : state :=
  {| request_count := request_count st;
     video_responses := v;
     video_retry_counts := video_retry_counts st;
     error_log := error_log st;
     processing_times := processing_times st;
     start_time := start_time st;
     end_time := end_time st;
     processing_time := processing_time st;
     calls := calls st |}.

Definition set_video_retry_counts (v : dict nat) (st : state) : state :=
  {| request_count := request_count st;
     video_responses := video_responses st;
     video_retry_counts := v;
     error_log := error_log st;
     processing_times := processing_times st;
     start_time := start_time st;
     end_time := end_time st;
     processing_time := processing_time st;
     calls := calls st |}.

Definition set_error_log (v : dict (list log_entry)) (st : state) : state :=
  {| request_count := request_count st;
     video_responses := video_responses st;
     video_retry_counts := video_retry_counts st;
     error_log := v;
     processing_times := processing_times st;
     start_time := start_time st;
     end_time := end_time st;
     processing_time := processing_time st;
     calls := calls st |}.

Definition set_processing_times (v : list (str * nat)) (st : state) : state :=
  {| request_count := request_count st;
     video_responses := video_responses st;
     video_retry_counts := video_retry_counts st;
     error_log := error_log st;
     processing_times := v;
     start_time := start_time st;
     end_time := end_time st;
     processing_time := processing_time st;
     calls := calls st |}.

Definition set_start_time (v : option nat) (st : state) : state :=
  {| request_count := request_count st;
     video_responses := video_responses st;
     video_retry_counts := video_retry_counts st;
     error_log := error_log st;
     processing_times := processing_times st;
     start_time := v;
     end_time := end_time st;
     processing_time := processing_time st;
     calls := calls st |}.

Definition set_end_time (v : option nat) (st : state) : state :=
  {| request_count := request_count st;
     video_responses := video_responses st;
     video_retry_counts := video_retry_counts st;
     error_log := error_log st;
     processing_times := processing_times st;
     start_time := start_time st;
     end_time := v;
     processing_time := processing_time st;
     calls := calls st |}.

Definition set_processing_time (v : option nat) (st : state) : state :=
  {| request_count := request_count st;
     video_responses := video_responses st;
     video_retry_counts := video_retry_counts st;
     error_log := error_log st;
     processing_times := processing_times st;
     start_time := start_time st;
     end_time := end_time st;
     processing_time := v;
     calls := calls st |}.

Definition set_calls (v : list call) (st : state) : state :=
  {| request_count := request_count st;
     video_responses := video_responses st;
     video_retry_counts := video_retry_counts st;
     error_log := error_log st;
     processing_times := processing_times st;
     start_time := start_time st;
     end_time := end_time st;
     processing_time := processing_time st;
     calls := v |}.

Definition is_upload (c : call) : bool :=
  match c with Upload _ => true | _ => false end.

Definition is_generate (c : call) : bool :=
  match c with Generate _ => true | _ => false end.

(** The number of attempts started so far: every attempt begins with an upload. *)
Definition attempts (st : state) : nat := length (filter is_upload (calls st)).

Definition do_call (c : call) (st : state) : state := set_calls (calls st ++ [c]) st.

Inductive exn :=
| UnboundLocalError (name : String.string)
| KeyError (key : str)
| ValueError.   (* the document library refused a text *)

(** A step either continues with a state or raises out of the function. *)
Inductive step :=
| Continue (st : state)
| Raise (e : exn) (st : state).

(** Line 301: the initial response goes to the error log. *)
Definition invalid_response (response_text : str) : bool :=
  negb (Validator.has_timestamps response_text)
  || (length (split_ws response_text) <? 50).

(** Line 366: the retry response is stored. *)
Definition valid_retry (retry_response : str) : bool :=
  Validator.has_timestamps retry_response
  && (50 <=? length (split_ws retry_response)).

(** The cleanup of the [finally] clauses: the file is deleted when the
    upload returned; an error of the deletion is printed and dropped. *)
Definition cleanup (video_path : str) (o : outcome) (st : state) : state :=
  match o with
  | UploadRaises => st
  | _ => do_call (Delete video_path) st
  end.

(** The [try] and [except] clauses of one iteration of the first loop
    (lines 271-316), for the attempt numbered [k]. *)
Definition first_attempt (video_path video_filename : str) (k : nat) (o : outcome) (st : state) : state :=
  let st := do_call (Upload video_path) st in
  let failed st := set_error_log (dict_set video_filename [ErrorAnalyzing] (error_log st)) st in
  match o with
  | UploadRaises => failed st
  | GenerateRaises _ => failed (do_call (Generate video_path) st)
  | _ =>
      let st := do_call (Generate video_path) st in
      let st := set_request_count (request_count st + 1) st in
      let st := set_end_time (Some k) st in
      let st := set_processing_time (Some k) st in
      match o with
      | Text response_text _ =>
          if invalid_response response_text
          then set_error_log (dict_set video_filename [InitialAttempt response_text] (error_log st)) st
          else
            let st := set_video_responses (dict_set video_filename (response_text, k) (video_responses st)) st in
            set_video_retry_counts (dict_set video_filename 0 (video_retry_counts st)) st
      | NoText _ =>
          set_error_log (dict_set video_filename [NoResponseReceived] (error_log st)) st
      | _ => failed st
      end
  end.

(** The [finally] clause of the first loop (lines 318-331): its reads of
    [processing_time] and [end_time] raise when the local is unbound. *)
Definition first_finally (video_path video_filename : str) (o : outcome) (st : state) : step :=
  let st := cleanup video_path o st in
  match processing_time st with
  | None => Raise (UnboundLocalError "processing_time") st
  | Some t =>
      let st := set_processing_times (processing_times st ++ [(video_filename, t)]) st in
      match end_time st with
      | None => Raise (UnboundLocalError "end_time") st
      | Some _ => Continue st
      end
  end.

(** The first loop, lines 246-331. *)
Fixpoint first_pass (w : world) (MAX_REQUESTS : nat) (video_paths : list str) (st : state) : step :=
  match video_paths with
  | [] => Continue st
  | video_path :: rest =>
      if MAX_REQUESTS <=? request_count st then Continue st
      else
        let video_filename := basename video_path in
        if negb (file_exists w video_path)
        then first_pass w MAX_REQUESTS rest
               (set_error_log (dict_set video_filename [FileNotFound] (error_log st)) st)
        else
          let k := attempts st in
          let st := set_start_time (Some k) st in
          let o := service w k in
          match first_finally video_path video_filename o
                  (first_attempt video_path video_filename k o st) with
          | Continue st => first_pass w MAX_REQUESTS rest st
          | Raise e st => Raise e st
          end
  end.

(** [raw_para = doc.add_paragraph()] followed by
    [format_text_with_bold(raw_para, response_text)] (lines 164-165 and
    404-405): whether the library refuses the response. *)
Definition response_refused (response_text : str) : bool :=
  match Formatter.format_text_with_bold [] response_text with
  | Formatter.Done _ => false
  | Formatter.Refused _ _ => true
  end.

(** [retry_failed_analysis] (lines 122-189): the calls it makes and the
    text it returns, [None] for Python's None.  The response is written to
    the document inside the [try] (lines 163-166): when the library
    refuses it, the [except] of line 178 returns None. *)
Definition retry_failed_analysis (video_path : str) (o : outcome) (st : state) : option str * state :=
  let st := do_call (Upload video_path) st in
  match o with
  | UploadRaises => (None, st)
  | Text response_text _ =>
      (if response_refused response_text then None else Some response_text,
       cleanup video_path o (do_call (Generate video_path) st))
  | _ => (None, cleanup video_path o (do_call (Generate video_path) st))
  end.

(** One iteration of the loop over [error_files], lines 361-383, once
    the request limit has been tested. *)
Definition retry_file (w : world) (video_paths : list str) (retry_count : nat) (error_file : str) (st : state) : step :=
  match find (fun path => str_eqb (basename path) error_file) video_paths with
  | None => Continue st
  | Some video_path =>
      if match video_path with [] => false | _ :: _ => true end && file_exists w video_path
      then
        let '(retry_response, st) :=
          retry_failed_analysis video_path (service w (attempts st)) st in
        let st := set_request_count (request_count st + 1) st in
        let append entry :=
          match dict_append error_file entry (error_log st) with
          | Some log => Continue (set_error_log log st)
          | None => Raise (KeyError error_file) st
          end in
        match retry_response with
        | Some (c :: t) =>
            let retry_response := c :: t in
            if valid_retry retry_response
            then
              match start_time st with
              | None => Raise (UnboundLocalError "start_time") st
              | Some t0 =>
                  let st := set_video_responses
                              (dict_set error_file (retry_response, t0) (video_responses st)) st in
                  Continue (set_video_retry_counts
                              (dict_set error_file (retry_count + 1) (video_retry_counts st)) st)
              end
            else append (RetryAttempt (retry_count + 1) retry_response)
        | _ => append (RetryNoResponse (retry_count + 1))
        end
      else Continue st
  end.

(** The loop over [error_files] of one round, lines 356-383. *)
Fixpoint retry_round (w : world) (MAX_REQUESTS : nat) (video_paths : list str) (retry_count : nat) (error_files : list str) (st : state) : step :=
  match error_files with
  | [] => Continue st
  | error_file :: rest =>
      if MAX_REQUESTS <=? request_count st then Continue st
      else
        match retry_file w video_paths retry_count error_file st with
        | Continue st => retry_round w MAX_REQUESTS video_paths retry_count rest st
        | Raise e st => Raise e st
        end
  end.

(** How a run ends. *)
Inductive run_result :=
| Saved (st : state)              (* the report was assembled and saved *)
| Aborted (e : exn) (st : state)  (* an exception left the function *)
| OutOfFuel (st : state).         (* the retry loop was still running *)

(** Line 419 writes an entry of the error log as a paragraph: the
    library refuses it when the response it quotes holds a character it
    does not accept. *)
Definition entry_refused (entry : log_entry) : bool :=
  match entry with
  | InitialAttempt t | RetryAttempt _ t => negb (Formatter.xml_compatible t)
  | _ => false
  end.

(** The assembly of the report, lines 393-452, outside any [try]: every
    stored response is formatted (line 405) and every entry of a file
    that never succeeded is written (line 419), in the order of the file
    names; the first write the library refuses raises and the report is
    not saved.  The other writes are headings, counts and times. *)
Definition report (st : state) : run_result :=
  if existsb (fun r => response_refused (fst (snd r))) (video_responses st)
     || existsb (fun l => negb (dict_mem (fst l) (video_responses st))
                          && existsb entry_refused (snd l))
          (error_log st)
  then Aborted ValueError st
  else Saved st.

(** The [while] loop of the retries, lines 334-391, one unit of fuel per
    round, and the assembly of the report that follows it. *)
Fixpoint retry_loop (fuel : nat) (w : world) (MAX_REQUESTS : nat) (video_paths : list str) (retry_count : nat) (error_files : list str) (st : state) : run_result :=
  if match error_files with [] => false | _ :: _ => true end
     && (request_count st <? MAX_REQUESTS)
  then
    match fuel with
    | 0 => OutOfFuel st
    | S fuel' =>
        if negb (auto_retry w) && negb (operator w retry_count)
        then report st
        else
          match retry_round w MAX_REQUESTS video_paths retry_count error_files st with
          | Raise e st => Aborted e st
          | Continue st =>
              let error_files :=
                filter (fun f => negb (dict_mem f (video_responses st))) error_files in
              match error_files with
              | [] => report st
              | _ :: _ =>
                  retry_loop fuel' w MAX_REQUESTS video_paths (retry_count + 1) error_files st
              end
          end
    end
  else report st.

(** [create_analysis_document(video_paths)] once the client is set up,
    with the request limit as a parameter (450 in the source). *)
Definition create_analysis_document (fuel : nat) (w : world) (MAX_REQUESTS : nat) (video_paths : list str) : run_result :=
  match first_pass w MAX_REQUESTS video_paths initial_state with
  | Raise e st => Aborted e st
  | Continue st =>
      retry_loop fuel w MAX_REQUESTS video_paths 0 (keys (error_log st)) st
  end.

Definition final_state (r : run_result) : state :=
  match r with
  | Saved st | Aborted _ st | OutOfFuel st => st
  end.

End Batch.

Import Validator Splitter Formatter Batch.

Arguments Ascii.eqb : simpl never.
Arguments response_refused : simpl never.

(* ------------------------------------------------------------------ *)
(** ** The report of gesture_analysis_doc.py (format_text_with_bold and
       create_analysis_document)

    The document is the list of the paragraphs added to it, in order.  A
    heading is a paragraph with the style of its level, as the document
    library adds it.  The alignment of the title is not modelled.  The
    file names, the date and the messages of exceptions are taken to be
    texts the library accepts and gives back unchanged, so that only the
    write of a response, or of a part of it, can be refused. *)

Module Gesture.

(** [format_text_with_bold], lines 15-34: bold spans only. *)
Definition format_text_with_bold (p : paragraph) (t : str) : written :=
  for_parts
    (fun p part =>
       if startswith (py "**") part && endswith (py "**") part
       then add_run p (slice_inner 2 2 part) true false
       else add_run p part false false)
    (re_split BOLD t) p.

(** A paragraph of the document.  When the library raised while the
    paragraph was written, [refused] is the text it raised for and
    [content] the runs added before. *)
Record block := { style : option str; content : paragraph; refused : option str }.

(** [doc.add_paragraph(t, style=s)] for a text the library accepts: a
    run is added for a non-empty text. *)
Definition add_paragraph (t : str) (s : option str) : block :=
  {| style := s;
     content := match t with
                | [] => []
                | _ :: _ => [{| text := t; bold := false; italic := false |}]
                end;
     refused := None |}.

(** [doc.add_heading(t, level)] for a level from 0 to 9. *)
Definition add_heading (t : str) (level : nat) : block :=
  add_paragraph t
    (Some match level with
          | 0 => py "Title"
          | _ => py "Heading " ++ [ascii_of_nat (48 + level)]
          end).

(** [para = doc.add_paragraph()] then [format_text_with_bold(para, t)]. *)
Definition formatted (t : str) : block :=
  match format_text_with_bold [] t with
  | Done p => {| style := None; content := p; refused := None |}
  | Refused p x => {| style := None; content := p; refused := Some x |}
  end.

(** Paragraphs written one after the other until the library refuses
    one: the paragraphs the document gains, the refused one last, and
    whether the ValueError was raised. *)
Fixpoint write_all (bs : list block) : list block * bool :=
  match bs with
  | [] => ([], false)
  | b :: rest =>
      match refused b with
      | Some _ => ([b], true)
      | None => let (done, raised) := write_all rest in (b :: done, raised)
      end
  end.

(** What the service does for one video.  [e] is the message of the
    exception; [delete_raises] tells whether the deletion raises in the
    cleanup. *)
Inductive reply :=
| UploadFails (e : str)
| GenerateFails (e : str) (delete_raises : bool)
| NoParts (delete_raises : bool)            (* response.parts is empty *)
| TextFails (e : str) (delete_raises : bool) (* response.text raises *)
| Answer (response_text : str) (delete_raises : bool).

Record world := {
  file_exists : str -> bool;   (* os.path.exists *)
  service : nat -> reply;      (* the reply to the k-th upload of the run *)
  generated_on : str;          (* the date and time written under the title *)
  refusal : str                (* the message of the ValueError of the library *)
}.

Record state := { doc : list block; calls : list Batch.call }.

Definition add (b : block) (st : state) : state :=
  {| doc := doc st ++ [b]; calls := calls st |}.

Definition do_call (c : Batch.call) (st : state) : state :=
  {| doc := doc st; calls := calls st ++ [c] |}.

Definition attempts (st : state) : nat := length (filter Batch.is_upload (calls st)).

(** Lines 62-71: the title, the date and a spacing paragraph. *)
Definition initial_state (w : world) : state :=
  {| doc := [add_heading (py "Co-Speech Gesture Analysis Report") 0;
             add_paragraph (py "Generated on: " ++ generated_on w) None;
             add_paragraph [] None];
     calls := [] |}.

(** The inner [try], lines 111-162: the paragraphs written, and the
    message of the exception that left it, if any: the IndexError of
    [parts[1]], before anything is written, or the ValueError of a
    refused write. *)
Definition parsed_blocks (w : world) (response_text : str) : list block * option str :=
  match Splitter.split_response response_text with
  | None => ([], Some (py "list index out of range"))
  | Some a =>
      let (done, raised) :=
        write_all
          [add_paragraph (py "Action Performed:") (Some (py "Heading 3"));
           formatted (Splitter.action a);
           add_paragraph (py "Co-Speech Gesture Category:") (Some (py "Heading 3"));
           formatted (Splitter.category a);
           add_paragraph (py "Raw Response for Reference:") (Some (py "Heading 3"));
           formatted response_text] in
      (done, if raised then Some (refusal w) else None)
  end.

(** Lines 108-170: the paragraphs written for a response with parts, the
    inner [except] included, and whether a ValueError left that
    [except]. *)
Definition analysis_blocks (w : world) (response_text : str) : list block * bool :=
  let (done, e) := parsed_blocks w response_text in
  match e with
  | None => (add_paragraph (py "Analysis:") (Some (py "Heading 2")) :: done, false)
  | Some message =>
      let (more, raised) :=
        write_all
          [add_paragraph (py "Error parsing response:") (Some (py "Heading 3"));
           add_paragraph (py "Error details: " ++ message) None;
           add_paragraph (py "Raw Response:") (Some (py "Heading 3"));
           formatted response_text] in
      (add_paragraph (py "Analysis:") (Some (py "Heading 2")) :: done ++ more, raised)
  end.

(** The [try] and [except] of one video, lines 85-176. *)
Definition attempt (w : world) (video_path : str) (r : reply) (st : state) : state :=
  let failed e st := add (add_paragraph (py "Error analyzing video: " ++ e) None) st in
  let st := do_call (Batch.Upload video_path) st in
  match r with
  | UploadFails e => failed e st
  | GenerateFails e _ => failed e (do_call (Batch.Generate video_path) st)
  | NoParts _ =>
      add (add_paragraph (py "No analysis received from Gemini.") None)
        (do_call (Batch.Generate video_path) st)
  | TextFails e _ => failed e (do_call (Batch.Generate video_path) st)
  | Answer response_text _ =>
      let (written, raised) := analysis_blocks w response_text in
      let st := fold_left (fun st b => add b st) written
                  (do_call (Batch.Generate video_path) st) in
      if raised then failed (refusal w) st else st
  end.

(** The [finally], lines 178-188: the uploaded file is deleted, an error
    of the deletion is printed and dropped, and a spacing paragraph is
    added. *)
Definition finish (video_path : str) (r : reply) (st : state) : state :=
  add (add_paragraph [] None)
    match r with
    | UploadFails _ => st
    | _ => do_call (Batch.Delete video_path) st
    end.

(** One iteration of the loop, lines 73-188. *)
Definition analyze (w : world) (st : state) (video_path : str) : state :=
  let video_filename := basename video_path in
  if negb (file_exists w video_path) then st
  else
    let r := service w (attempts st) in
    let st := add (add_heading (py "Video: " ++ video_filename) 1) st in
    finish video_path r (attempt w video_path r st).

(** [create_analysis_document(video_paths)] once the client is set up:
    the document saved and the calls made. *)
Definition create_analysis_document (w : world) (video_paths : list str) : state :=
  fold_left (analyze w) video_paths (initial_state w).

End Gesture.

(* ================================================================== *)
(** * Vocabulary of the statements *)

(** ** Words *)

(** A non-empty run of characters none of which is whitespace. *)
Definition is_word (u : str) : Prop :=
  u <> [] /\ forallb (fun c => negb (isspace c)) u = true.

(** ** Texts that fit a pattern *)

(** What the text must look like for a pattern of plain classes. *)
Definition fits (ks : list cclass) (u : str) : Prop :=
  Forall2 (fun k c => accepts k c = true) ks u.

(** ** The checks of the validator, as properties of the text *)

(** Two digits, a colon, two digits, a dot, three digits. *)
Definition timestamp_shaped (u : str) : Prop :=
  exists m1 m2 s1 s2 f1 f2 f3,
    u = [m1; m2; ":"; s1; s2; "."; f1; f2; f3]%char
    /\ isdigit m1 = true /\ isdigit m2 = true
    /\ isdigit s1 = true /\ isdigit s2 = true
    /\ isdigit f1 = true /\ isdigit f2 = true /\ isdigit f3 = true.

(** Some substring of [t] satisfies [P]. *)
Definition has_substring (P : str -> Prop) (t : str) : Prop :=
  exists pre u post, t = pre ++ u ++ post /\ P u.

(** [token] occurs in [t] up to the case of the letters. *)
Definition mentions (token t : str) : Prop :=
  has_substring (fun u => lower u = lower token) t.

(** The number of words of a text, as [split()] counts them. *)
Definition word_count (t : str) : nat := length (split_ws t).

(** ** Responses and their delimiter patterns *)

(** The piece of [s] before the first [sep], all of [s] without one. *)
Definition first_piece (sep s : str) : str :=
  match partition sep s with
  | Some (x, _) => x
  | None => s
  end.

(** The response of the end-to-end scenario of the specification. *)
Definition scenario : str :=
  py "1) The speaker raises both hands. 2) This is a beat gesture at 00:05.120.".

(** Both markers of a pair occur in the response. *)
Definition has_pair (m1 m2 t : str) : bool := contains m1 t && contains m2 t.

(** The second non-empty line starts with a category introducer. *)
Definition second_line_introduces (t : str) : bool :=
  match nonempty_lines t with
  | _ :: line1 :: _ => startswith_any INTRODUCERS line1
  | _ => false
  end.

(** None of the delimiter patterns is present. *)
Definition unstructured (t : str) : Prop :=
  has_pair (py "1)") (py "2)") t = false
  /\ has_pair (py "1.") (py "2.") t = false
  /\ has_pair (py "Action:") (py "Category:") t = false
  /\ second_line_introduces t = false.

(** A response that ends with a line break, as the service returns them. *)
Definition one_line : str := py "The speaker waves.
".

(** A numbered response whose first section mentions "1.5" and whose
    second section gives a timestamp. *)
Definition numbered : str := py "1. In 1.5 s the hand rises 2. Beat at 00:02.120".

(** ** Runs, their environments and their traces *)

(** A service whose uploads fail, with every file present. *)
Definition failing_uploads : world :=
  {| file_exists := fun _ => true;
     service := fun _ => UploadRaises;
     auto_retry := false;
     operator := fun _ => false |}.

(** A world in which no file exists and retries are automatic. *)
Definition nothing_exists : world :=
  {| file_exists := fun _ => false;
     service := fun _ => NoText false;
     auto_retry := true;
     operator := fun _ => false |}.

(** The list of videos written in the script, whose paths are placeholders. *)
Definition videos_to_analyze : list str :=
  [py "/path/to/input/video1.mp4"; py "/path/to/input/video2.mp4";
   py "/path/to/input/video3.mp4"].

(** The state after the first loop has found every file missing. *)
Definition after_missing_files : state :=
  set_error_log
    [(py "video1.mp4", [FileNotFound]); (py "video2.mp4", [FileNotFound]);
     (py "video3.mp4", [FileNotFound])]
    initial_state.

(** The uploads of a trace: the attempts made. *)
Definition ups (cs : list call) : nat := length (filter is_upload cs).

(** The analysis requests of a trace. *)
Definition gens (cs : list call) : nat := length (filter is_generate cs).

(** At every point of the trace, no more analysis requests than uploads. *)
Definition balanced (cs : list call) : Prop :=
  forall pre post, cs = pre ++ post -> gens pre <= ups pre.

(** The attempt got a response object: neither the upload nor the
    generation raised. *)
Definition returns (o : outcome) : bool :=
  match o with
  | UploadRaises | GenerateRaises _ => false
  | _ => true
  end.

(** The state a step ends in, normally or not. *)
Definition state_of_step (s : step) : state :=
  match s with
  | Continue st | Raise _ st => st
  end.

(** Every attempt the first loop makes gets a response object: none of
    its uploads and generations raises. *)
Definition first_loop_answered (w : world) (MAX_REQUESTS : nat) (video_paths : list str) : Prop :=
  forall k,
    k < attempts (state_of_step (first_pass w MAX_REQUESTS video_paths initial_state)) ->
    returns (service w k) = true.

(** The counter equals the number of attempts, which is within the limit. *)
Definition counted (MAX_REQUESTS : nat) (st : state) : Prop :=
  request_count st = attempts st
  /\ attempts st <= MAX_REQUESTS
  /\ balanced (calls st).

(** Three queued videos of which the first has no file; the service
    answers every request with a short text. *)
Definition first_file_missing : world :=
  {| file_exists := fun p => negb (str_eqb p (py "a.mp4"));
     service := fun _ => Text (py "ok") false;
     auto_retry := true;
     operator := fun _ => true |}.

(** Every file present, every request answered with a short text. *)
Definition short_answers : world :=
  {| file_exists := fun _ => true;
     service := fun _ => Text (py "ok") false;
     auto_retry := true;
     operator := fun _ => true |}.

(** Every file present; the second attempt of the run fails in
    [generate_content], the others are answered with a short text. *)
Definition second_generate_raises : world :=
  {| file_exists := fun _ => true;
     service := fun k => match k with 1 => GenerateRaises false | _ => Text (py "ok") false end;
     auto_retry := true;
     operator := fun _ => true |}.

(** An exception left the function. *)
Definition aborted (r : run_result) : bool :=
  match r with Aborted _ _ => true | _ => false end.

(** The rounds allowed ran out inside the retry loop. *)
Definition still_running (r : run_result) : bool :=
  match r with OutOfFuel _ => true | _ => false end.

(** The three locals read by the later code are bound. *)
Definition times_bound (st : state) : Prop :=
  start_time st <> None /\ end_time st <> None /\ processing_time st <> None.

(** Every file present; the first request is answered, every later
    upload fails. *)
Definition uploads_fail_later : world :=
  {| file_exists := fun _ => true;
     service := fun k => match k with 0 => NoText false | _ => UploadRaises end;
     auto_retry := true;
     operator := fun _ => true |}.

(** Every queued path is non-empty and its file exists. *)
Definition all_present (w : world) (video_paths : list str) : Prop :=
  forall p, In p video_paths -> p <> [] /\ file_exists w p = true.

(** ** Paragraphs and their text *)

(** A text with its asterisks left out. *)
Definition unstarred (s : str) : str :=
  filter (fun c => negb (Ascii.eqb c "*"%char)) s.

(** The runs a write has added to the paragraph, raised or not. *)
Definition runs_of (r : written) : paragraph :=
  match r with
  | Done p | Refused p _ => p
  end.

(** A text without an asterisk that holds a form feed. *)
Definition form_feed_text : str := ["a"; "012"; "b"]%char.

(** A text without an asterisk that holds a carriage return. *)
Definition carriage_return_text : str := ["a"; "013"; "b"]%char.

(** The text of a paragraph: the texts of its runs, one after the other. *)
Definition rendered (p : paragraph) : str := concat (map text p).

(** What a write of the text [t] to the paragraph [p] may do: add runs
    that hold [t] as the library stores it, but for asterisks, when the
    library accepts [t]; or raise for a part [x] the library refuses,
    after runs that hold, with [x], the beginning of [t] but for
    asterisks. *)
Definition faithful (p : paragraph) (t : str) (r : written) : Prop :=
  match r with
  | Done q =>
      xml_compatible t = true
      /\ unstarred (rendered q) = unstarred (rendered p) ++ unstarred (stored t)
  | Refused q x =>
      xml_compatible t = false
      /\ xml_compatible x = false
      /\ exists rest,
           unstarred (rendered p) ++ unstarred (stored t)
           = unstarred (rendered q) ++ unstarred (stored x) ++ rest
  end.

Definition plain_run (t : str) : run := {| text := t; bold := false; italic := false |}.

Definition bold_run (t : str) : run := {| text := t; bold := true; italic := false |}.

Definition italic_run (t : str) : run := {| text := t; bold := false; italic := true |}.

(** No line break in the text. *)
Definition one_lined (t : str) : Prop := ~ In "010"%char t.

(** ** Blank and stripped texts *)

(** Nothing but whitespace, or nothing at all. *)
Definition blank (t : str) : Prop := forallb isspace t = true.

(** Empty, or beginning with a character that is not whitespace. *)
Definition starts_clean (t : str) : Prop :=
  match t with
  | [] => True
  | c :: _ => isspace c = false
  end.

(** Neither leading nor trailing whitespace. *)
Definition stripped (t : str) : Prop := starts_clean t /\ starts_clean (rev t).

(** The markers are where the parse of a response raises: the dotted
    pair and a "1)" are there, the "2)" is not. *)
Definition stray_paren (t : str) : Prop :=
  contains (py "1.") t = true /\ contains (py "2.") t = true
  /\ contains (py "1)") t = true /\ contains (py "2)") t = false.

(** ** What a run keeps *)

Definition is_delete (c : call) : bool :=
  match c with Delete _ => true | _ => false end.

(** The deletions of a trace. *)
Definition dels (cs : list call) : nat := length (filter is_delete cs).

(** A trace made of attempts: an upload alone when the upload raised,
    otherwise the upload, the analysis request and the deletion of the
    same video, one after the other. *)
Inductive attempts_trace : list call -> Prop :=
| trace_empty : attempts_trace []
| trace_upload_raised (cs : list call) (p : str) :
    attempts_trace cs -> attempts_trace (cs ++ [Upload p])
| trace_attempt (cs : list call) (p : str) :
    attempts_trace cs -> attempts_trace (cs ++ [Upload p; Generate p; Delete p]).

(** Every response stored as valid has a timestamp and fifty words. *)
Definition responses_valid (st : state) : Prop :=
  forall f t k, In (f, (t, k)) (video_responses st) -> valid_retry t = true.

(** The counter and the two dictionaries of [st'] extend those of [st]. *)
Definition grows (st st' : state) : Prop :=
  request_count st <= request_count st'
  /\ incl (keys (error_log st)) (keys (error_log st'))
  /\ incl (keys (video_responses st)) (keys (video_responses st')).

(** The video has a stored response or an entry in the error log. *)
Definition accounted (st : state) (video_path : str) : Prop :=
  In (basename video_path) (keys (video_responses st))
  \/ In (basename video_path) (keys (error_log st)).

(** A response with a timestamp and fifty words. *)
Definition long_answer : str :=
  concat (repeat (py "beat ") 50) ++ py "at 00:05.120".

(** Every file present, every request answered with [long_answer]. *)
Definition long_answers : world :=
  {| file_exists := fun _ => true;
     service := fun _ => Text long_answer false;
     auto_retry := false;
     operator := fun _ => false |}.

(** ** A video retried until its response is valid *)

(** The [k]-th attempt of the run is answered with a text that fails
    the validity test. *)
Definition answers_invalid (w : world) (k : nat) : Prop :=
  exists t d, service w k = Text t d /\ invalid_response t = true.

(** Round [j] of the retries goes ahead: retries are automatic or the
    operator approves the round. *)
Definition consents (w : world) (j : nat) : Prop :=
  auto_retry w = true \/ operator w j = true.

(** The state of a run on the single video [f] after [j] attempts, all
    of them answered with an invalid text. *)
Definition failed_so_far (f : str) (j : nat) (st : state) : Prop :=
  request_count st = j
  /\ attempts st = j
  /\ video_responses st = []
  /\ video_retry_counts st = []
  /\ (exists l, error_log st = [(f, l)] /\ length l = j)
  /\ start_time st = Some 0.

(** The first attempt gets a short text, the second a valid response. *)
Definition second_try_valid : world :=
  {| file_exists := fun _ => true;
     service := fun k => match k with 0 => Text (py "ok") false | _ => Text long_answer false end;
     auto_retry := true;
     operator := fun _ => false |}.

(** ** The report of gesture_analysis_doc.py *)

(** The paragraphs with the style of a heading of level 1. *)
Definition heading1 (b : Gesture.block) : bool :=
  match Gesture.style b with
  | Some s => str_eqb s (py "Heading 1")
  | None => false
  end.

(** The runs of the headings of level 1 of a document, in order. *)
Definition video_headings (d : list Gesture.block) : list paragraph :=
  map Gesture.content (filter heading1 d).

(** The queued paths whose file exists, in order. *)
Definition existing (w : Gesture.world) (video_paths : list str) : list str :=
  filter (Gesture.file_exists w) video_paths.

(** The paths uploaded by a trace, in order. *)
Definition uploaded (cs : list call) : list str :=
  flat_map (fun c => match c with Upload p => [p] | _ => [] end) cs.

(** What is written between the heading of a video and the spacing
    paragraph that ends its section. *)
Definition section_body (w : Gesture.world) (r : Gesture.reply) : list Gesture.block :=
  match r with
  | Gesture.UploadFails e | Gesture.GenerateFails e _ | Gesture.TextFails e _ =>
      [Gesture.add_paragraph (py "Error analyzing video: " ++ e) None]
  | Gesture.NoParts _ =>
      [Gesture.add_paragraph (py "No analysis received from Gemini.") None]
  | Gesture.Answer response_text _ =>
      fst (Gesture.analysis_blocks w response_text)
      ++ (if snd (Gesture.analysis_blocks w response_text)
          then [Gesture.add_paragraph (py "Error analyzing video: " ++ Gesture.refusal w) None]
          else [])
  end.

(** The calls made for a video whose file exists. *)
Definition section_calls (p : str) (r : Gesture.reply) : list call :=
  match r with
  | Gesture.UploadFails _ => [Upload p]
  | _ => [Upload p; Generate p; Delete p]
  end.

(** Every file exists and every analysis is answered with the same text. *)
Definition always_answers (t : str) : Gesture.world :=
  {| Gesture.file_exists := fun _ => true;
     Gesture.service := fun _ => Gesture.Answer t false;
     Gesture.generated_on := py "2025-01-01 00:00:00";
     Gesture.refusal := py "All strings must be XML compatible" |}.

(** ** Requests and files, answers and the document library *)

(** The video a call is made for. *)
Definition call_path (c : call) : str :=
  match c with
  | Upload p | Generate p | Delete p => p
  end.

(** Every call made so far is for a video whose file exists. *)
Definition contacted (w : world) (st : state) : Prop :=
  forall c, In c (calls st) -> file_exists w (call_path c) = true.

(** Every text the service answers is made of characters the document
    library accepts. *)
Definition texts_accepted (w : world) : Prop :=
  forall k t d, service w k = Text t d -> xml_compatible t = true.

(** The library accepts every stored response and every response quoted
    in the error log. *)
Definition writable (st : state) : Prop :=
  (forall f t k, In (f, (t, k)) (video_responses st) -> xml_compatible t = true)
  /\ (forall f l e, In (f, l) (error_log st) -> In e l -> entry_refused e = false).

(* ================================================================== *)
(** * The operations on sample texts *)

Section Samples.

Example split_sample :
  split (py "2)") (py "a2)b2)c") = [py "a"; py "b"; py "c"]
  /\ split (py "aa") (py "aaa") = [[]; py "a"].
Proof. split; reflexivity. Qed.

Example replace_sample :
  replace (py "1.") [] (py "1. see 1.5") = py " see 5"
  /\ replace (py "aa") (py "b") (py "aaaa") = py "bb".
Proof. split; reflexivity. Qed.

Example split_ws_sample :
  split_ws (py "  one two
 three ") = [py "one"; py "two"; py "three"].
Proof. reflexivity. Qed.

Example strip_sample : strip (py "  a b  ") = py "a b".
Proof. reflexivity. Qed.

Example basename_sample :
  basename (py "/path/to/input/video1.mp4") = py "video1.mp4".
Proof. reflexivity. Qed.

Example search_sample :
  search TIMESTAMP (py "at 00:05.120.") = Some (py "at ", py "00:05.120", py ".").
Proof. reflexivity. Qed.

Example re_split_sample :
  re_split BOLD (py "a **b** c *d* **e") = [py "a "; py "**b**"; py " c *d* **e"]
  /\ re_split ITALIC (py "x *a
b* *c* *") = [py "x *a
b"; py "* *"; py "c"; py "* *"; []].
Proof. split; reflexivity. Qed.

Example format_sample :
  format_text_with_bold [] (py "a **b** c *d* e")
  = Done
    [ {| text := py "a "; bold := false; italic := false |};
      {| text := py "b"; bold := true; italic := false |};
      {| text := py " c "; bold := false; italic := false |};
      {| text := py "d"; bold := false; italic := true |};
      {| text := py " e"; bold := false; italic := false |} ].
Proof. reflexivity. Qed.

Example format_refused_sample :
  format_text_with_bold [] (py "a **b** c" ++ ["012"%char] ++ py "*d* e")
  = Refused [ {| text := py "a "; bold := false; italic := false |};
              {| text := py "b"; bold := true; italic := false |} ]
      (py " c" ++ ["012"%char]).
Proof. reflexivity. Qed.

Example split_lines_sample :
  split_response (py "The speaker waves.
The gesture is a beat.")
  = Some {| action := py "The speaker waves."; category := py "The gesture is a beat." |}.
Proof. reflexivity. Qed.

End Samples.

(* ================================================================== *)
(** * Facts about the string operations *)

Section StringFacts.

Lemma startswith_iff (p s : str) :
  startswith p s = true <-> exists t, s = p ++ t.
Proof.
  revert s; induction p as [|a p IH]; intros s; simpl.
  - split; [intros _; now exists s | reflexivity].
  - destruct s as [|b s].
    + split; [discriminate | intros [t Ht]; discriminate].
    + rewrite andb_true_iff, Ascii.eqb_eq, IH. split.
      * intros [-> [t ->]]. now exists t.
      * intros [t Ht]. injection Ht as -> ->. split; [reflexivity | now exists t].
Qed.

Lemma startswith_app (p t : str) : startswith p (p ++ t) = true.
Proof. apply startswith_iff. now exists t. Qed.

Lemma skipn_app_exact (p t : str) : skipn (length p) (p ++ t) = t.
Proof. induction p; simpl; auto. Qed.

Lemma contains_iff (sub s : str) :
  contains sub s = true <-> exists pre post, s = pre ++ sub ++ post.
Proof.
  induction s as [|c s IH].
  - simpl. rewrite orb_false_r, startswith_iff. split.
    + intros [t Ht]. now exists [], t.
    + intros [pre [post H]]. destruct pre; simpl in H.
      * now exists post.
      * discriminate.
  - simpl. rewrite orb_true_iff, startswith_iff, IH. split.
    + intros [[t Ht] | [pre [post Ht]]].
      * now exists [], t.
      * exists (c :: pre), post. now rewrite Ht.
    + intros [pre [post H]]. destruct pre as [|d pre]; simpl in H.
      * left. now exists post.
      * right. injection H as _ H. now exists pre, post.
Qed.

Lemma contains_app_r (sub pre s : str) :
  contains sub s = true -> contains sub (pre ++ s) = true.
Proof.
  rewrite !contains_iff. intros [a [b ->]].
  exists (pre ++ a), b. now rewrite <- app_assoc.
Qed.

(** [partition] finds the separator exactly when [in] does. *)
Lemma partition_spec (sep s : str) :
  match partition sep s with
  | Some (pre, post) => s = pre ++ sep ++ post /\ contains sep s = true
  | None => contains sep s = false
  end.
Proof.
  induction s as [|c s IH]; simpl.
  - destruct (startswith sep []) eqn:E; simpl.
    + apply startswith_iff in E as [t Ht]. split; [|reflexivity].
      rewrite Ht at 2. rewrite skipn_app_exact. exact Ht.
    + reflexivity.
  - destruct (startswith sep (c :: s)) eqn:E; simpl.
    + apply startswith_iff in E as [t Ht]. split; [|reflexivity].
      rewrite Ht at 2. rewrite skipn_app_exact. exact Ht.
    + destruct (partition sep s) as [[pre post]|].
      * destruct IH as [-> ->]. split; reflexivity.
      * exact IH.
Qed.

Lemma partition_none (sep s : str) :
  contains sep s = false -> partition sep s = None.
Proof.
  intros H. pose proof (partition_spec sep s) as P.
  destruct (partition sep s) as [[pre post]|]; [|reflexivity].
  destruct P as [_ P]. congruence.
Qed.

Lemma partition_some (sep s : str) :
  contains sep s = true ->
  exists pre post, partition sep s = Some (pre, post) /\ s = pre ++ sep ++ post.
Proof.
  intros H. pose proof (partition_spec sep s) as P.
  destruct (partition sep s) as [[pre post]|]; [|congruence].
  exists pre, post. now destruct P.
Qed.

(** The text before the first occurrence does not contain the separator
    when the separator is a single character; in general it may not
    contain it ending inside the prefix.  What the proofs below need is
    only that the first cut exists. *)
Lemma split_cons (sep s : str) :
  sep <> [] -> contains sep s = true ->
  exists pre post,
    partition sep s = Some (pre, post) /\
    split sep s = pre :: split_fuel (length s - 1) sep post.
Proof.
  intros Hsep H. destruct (partition_some sep s H) as [pre [post [P E]]].
  exists pre, post. split; [exact P|].
  unfold split. destruct s as [|c s].
  - destruct pre, sep; simpl in E; try discriminate. congruence.
  - replace (length (c :: s) - 1) with (length s) by (simpl; lia).
    change (length (c :: s)) with (S (length s)).
    cbn [split_fuel]. now rewrite P.
Qed.

Lemma split_fuel_head (n : nat) (sep s : str) :
  exists x l, split_fuel n sep s = x :: l.
Proof.
  destruct n; simpl; destruct (partition sep s) as [[pre post]|]; eauto.
Qed.

(** A text that contains the separator is cut in at least two parts. *)
Lemma split_second (sep s : str) :
  sep <> [] -> contains sep s = true ->
  exists p0 p1, nth_error (split sep s) 0 = Some p0 /\ nth_error (split sep s) 1 = Some p1.
Proof.
  intros Hsep H. destruct (split_cons sep s Hsep H) as [pre [post [_ ->]]].
  destruct (split_fuel_head (length s - 1) sep post) as [x [l ->]].
  now exists pre, x.
Qed.

(** A text without the separator is left whole. *)
Lemma split_absent (sep s : str) :
  contains sep s = false -> split sep s = [s].
Proof.
  intros H. unfold split. destruct (length s); simpl; now rewrite partition_none.
Qed.

Lemma replace_absent (old new s : str) :
  contains old s = false -> replace old new s = s.
Proof.
  intros H. unfold replace. destruct (length s); simpl; now rewrite partition_none.
Qed.

Lemma lower_app (a b : str) : lower (a ++ b) = lower a ++ lower b.
Proof. apply map_app. Qed.

(** A substring of the lowered text is the lowering of a substring. *)
Lemma contains_lower_iff (token t : str) :
  contains (lower token) (lower t) = true <->
  exists pre u post, t = pre ++ u ++ post /\ lower u = lower token.
Proof.
  rewrite contains_iff. split.
  - intros [pre' [post' H]]. unfold lower in H.
    apply map_eq_app in H as [pre [r [-> [Hpre H]]]].
    apply map_eq_app in H as [u [post [-> [Hu Hpost]]]].
    exists pre, u, post. split; [reflexivity | exact Hu].
  - intros [pre [u [post [-> Hu]]]].
    exists (lower pre), (lower post). now rewrite !lower_app, Hu.
Qed.

(** *** The fuel of [split] and [replace] is never used up *)

Lemma partition_shorter (sep s pre post : str) :
  sep <> [] -> partition sep s = Some (pre, post) -> length post < length s.
Proof.
  intros Hsep P. pose proof (partition_spec sep s) as Q. rewrite P in Q.
  destruct Q as [-> _]. rewrite !length_app.
  destruct sep; [congruence|]. simpl. lia.
Qed.

Lemma split_fuel_enough (sep : str) (n m : nat) (s : str) :
  sep <> [] -> length s <= n -> length s <= m ->
  split_fuel n sep s = split_fuel m sep s.
Proof.
  intros Hsep. revert m s. induction n as [|n IH]; intros m s Ln Lm.
  - destruct m; simpl; destruct (partition sep s) as [[pre post]|] eqn:P; try reflexivity.
    apply partition_shorter in P; [lia | exact Hsep].
  - simpl. destruct (partition sep s) as [[pre post]|] eqn:P.
    + pose proof (partition_shorter sep s pre post Hsep P) as L.
      destruct m; [lia|]. simpl. rewrite P. f_equal. apply IH; lia.
    + destruct m; simpl; now rewrite P.
Qed.

(** [split] cuts at the first occurrence and goes on after it. *)
Lemma split_unfold (sep s : str) :
  sep <> [] ->
  split sep s = match partition sep s with
                | None => [s]
                | Some (pre, post) => pre :: split sep post
                end.
Proof.
  intros Hsep. unfold split.
  destruct (partition sep s) as [[pre post]|] eqn:P.
  - pose proof (partition_shorter sep s pre post Hsep P) as L.
    destruct (length s) as [|n] eqn:E; [lia|]. simpl. rewrite P. f_equal.
    apply split_fuel_enough; [exact Hsep | lia | lia].
  - destruct (length s); simpl; now rewrite P.
Qed.

Lemma replace_fuel_enough (old new : str) (n m : nat) (s : str) :
  old <> [] -> length s <= n -> length s <= m ->
  replace_fuel n old new s = replace_fuel m old new s.
Proof.
  intros Hold. revert m s. induction n as [|n IH]; intros m s Ln Lm.
  - destruct m; simpl; destruct (partition old s) as [[pre post]|] eqn:P; try reflexivity.
    apply partition_shorter in P; [lia | exact Hold].
  - simpl. destruct (partition old s) as [[pre post]|] eqn:P.
    + pose proof (partition_shorter old s pre post Hold P) as L.
      destruct m; [lia|]. simpl. rewrite P. do 2 f_equal. apply IH; lia.
    + destruct m; simpl; now rewrite P.
Qed.

(** [replace] rewrites the first occurrence and goes on after it. *)
Lemma replace_unfold (old new s : str) :
  old <> [] ->
  replace old new s = match partition old s with
                      | None => s
                      | Some (pre, post) => pre ++ new ++ replace old new post
                      end.
Proof.
  intros Hold. unfold replace.
  destruct (partition old s) as [[pre post]|] eqn:P.
  - pose proof (partition_shorter old s pre post Hold P) as L.
    destruct (length s) as [|n] eqn:E; [lia|]. simpl. rewrite P. do 2 f_equal.
    apply replace_fuel_enough; [exact Hold | lia | lia].
  - destruct (length s); simpl; now rewrite P.
Qed.

(** *** The words of [split()] *)

Lemma words_acc_words (cur s : str) :
  forallb (fun c => negb (isspace c)) cur = true ->
  Forall is_word (words_acc cur s).
Proof.
  revert cur. induction s as [|c s IH]; intros cur H; simpl.
  - destruct cur as [|x cur]; constructor; [|constructor].
    split.
    + intros E. apply (f_equal (@length ascii)) in E.
      rewrite length_rev in E. discriminate.
    + rewrite forallb_forall in *. intros y Hy. apply H. now apply in_rev.
  - destruct (isspace c) eqn:W.
    + destruct cur as [|x cur]; [now apply IH|]. constructor; [|now apply IH].
      split.
      * intros E. apply (f_equal (@length ascii)) in E.
        rewrite length_rev in E. discriminate.
      * rewrite forallb_forall in *. intros y Hy. apply H. now apply in_rev.
    + apply IH. simpl. now rewrite W, H.
Qed.

(** Every element of [s.split()] is a non-empty run without whitespace. *)
Lemma split_ws_words (s : str) : Forall is_word (split_ws s).
Proof. now apply words_acc_words. Qed.

End StringFacts.

(* ================================================================== *)
(** * Facts about the matcher *)

Section MatcherFacts.

Lemma consume_some (c : ascii) (r : option (str * str)) (m rest : str) :
  consume c r = Some (m, rest) ->
  exists m', m = c :: m' /\ r = Some (m', rest).
Proof.
  destruct r as [[m' rest']|]; simpl; [|discriminate].
  intros H. injection H as <- <-. now exists m'.
Qed.

Lemma match_here_ones (ks : list cclass) (s m rest : str) :
  match_here (map One ks) s = Some (m, rest) <-> s = m ++ rest /\ fits ks m.
Proof.
  revert s m. induction ks as [|k ks IH]; intros s m; simpl.
  - split.
    + intros H. injection H as <- <-. split; [reflexivity | constructor].
    + intros [-> F]. inversion F. reflexivity.
  - destruct s as [|c s].
    + split; [discriminate|]. intros [E F]. inversion F; subst. discriminate.
    + destruct (accepts k c) eqn:A.
      * split.
        -- intros H. apply consume_some in H as [m' [-> H]].
           apply IH in H as [-> F]. split; [reflexivity | now constructor].
        -- intros [E F]. inversion F as [|k' c' ks' m' A' F']; subst.
           injection E as <- ->.
           assert (H : match_here (map One ks) (m' ++ rest) = Some (m', rest))
             by (apply IH; now split).
           now rewrite H.
      * split; [discriminate|]. intros [E F].
        inversion F as [|k' c' ks' m' A' F']; subst. injection E as <- _. congruence.
Qed.

Lemma search_sound (p : pattern) (s pre m rest : str) :
  search p s = Some (pre, m, rest) ->
  exists x, s = pre ++ x /\ match_here p x = Some (m, rest).
Proof.
  revert pre. induction s as [|c s IH]; intros pre; simpl.
  - destruct (match_here p []) as [[m' rest']|] eqn:E; [|discriminate].
    intros H. injection H as <- <- <-. now exists [].
  - destruct (match_here p (c :: s)) as [[m' rest']|] eqn:E.
    + intros H. injection H as <- <- <-. now exists (c :: s).
    + destruct (search p s) as [[[pre' m'] rest']|]; [|discriminate].
      intros H. injection H as <- <- <-.
      destruct (IH pre' eq_refl) as [x [-> Hx]]. now exists x.
Qed.

Lemma search_complete (p : pattern) (pre x : str) (r : str * str) :
  match_here p x = Some r -> exists r', search p (pre ++ x) = Some r'.
Proof.
  intros H. induction pre as [|c pre [r' IH]]; simpl.
  - destruct x; simpl; rewrite H; destruct r; eauto.
  - destruct (match_here p (c :: pre ++ x)) as [[m rest]|]; [eauto|].
    rewrite IH. destruct r' as [[a b] d]. eauto.
Qed.

(** A pattern that begins with a literal character finds nothing in a
    text without that character. *)
Lemma search_literal_absent (c : ascii) (p : pattern) (s : str) :
  existsb (Ascii.eqb c) s = false -> search (One (Lit c) :: p) s = None.
Proof.
  induction s as [|d s IH]; simpl; [reflexivity|].
  intros H. apply orb_false_iff in H as [H1 H2].
  rewrite H1. now rewrite (IH H2).
Qed.

Lemma re_split_no_match (p : pattern) (s : str) :
  search p s = None -> re_split p s = [s].
Proof.
  intros H. unfold re_split. destruct (length s); simpl; now rewrite H.
Qed.

(** A match is a prefix of the text. *)
Lemma match_here_sound (p : pattern) (s m rest : str) :
  match_here p s = Some (m, rest) -> s = m ++ rest.
Proof.
  revert s m rest. induction p as [|a p IH]; intros s m rest.
  - simpl. intros H. now injection H as <- <-.
  - destruct a as [k|k].
    + simpl. destruct s as [|c s]; [discriminate|].
      destruct (accepts k c); [|discriminate].
      intros H. apply consume_some in H as [m' [-> H]].
      apply IH in H. now subst.
    + revert m. induction s as [|c s IHs]; intros m.
      * simpl. destruct (match_here p []) as [[m' r']|] eqn:E; [|discriminate].
        intros H. injection H as <- <-. now apply IH in E.
      * simpl. destruct (match_here p (c :: s)) as [[m' r']|] eqn:E.
        -- intros H. injection H as <- <-. now apply IH in E.
        -- destruct (accepts k c); [|discriminate].
           intros H. apply consume_some in H as [m' [-> H]].
           simpl in IHs. apply IHs in H. now subst.
Qed.

(** A pattern that begins with a plain class matches at least one
    character. *)
Lemma match_here_nonempty (k : cclass) (p : pattern) (s m rest : str) :
  match_here (One k :: p) s = Some (m, rest) -> m <> [].
Proof.
  simpl. destruct s as [|c s]; [discriminate|].
  destruct (accepts k c); [|discriminate].
  intros H. apply consume_some in H as [m' [-> _]]. discriminate.
Qed.

Lemma search_shorter (k : cclass) (p : pattern) (s pre m rest : str) :
  search (One k :: p) s = Some (pre, m, rest) ->
  s = pre ++ m ++ rest /\ length rest < length s.
Proof.
  intros H. apply search_sound in H as [x [-> H]].
  pose proof (match_here_nonempty _ _ _ _ _ H) as N.
  apply match_here_sound in H. subst x. split; [reflexivity|].
  rewrite !length_app. destruct m; [congruence|]. simpl. lia.
Qed.

Lemma re_split_fuel_enough (k : cclass) (p : pattern) (n n' : nat) (s : str) :
  length s <= n -> length s <= n' ->
  re_split_fuel n (One k :: p) s = re_split_fuel n' (One k :: p) s.
Proof.
  revert n' s. induction n as [|n IH]; intros n' s Ln Ln'.
  - destruct n'; cbn [re_split_fuel];
      destruct (search (One k :: p) s) as [[[pre m] rest]|] eqn:E; try reflexivity.
    apply search_shorter in E as [_ E]. lia.
  - cbn [re_split_fuel]. destruct (search (One k :: p) s) as [[[pre m] rest]|] eqn:E.
    + pose proof (search_shorter _ _ _ _ _ _ E) as [_ L].
      destruct n'; [lia|]. cbn [re_split_fuel]. rewrite E. do 2 f_equal. apply IH; lia.
    + destruct n'; cbn [re_split_fuel]; now rewrite E.
Qed.

(** [re.split] cuts at the leftmost match and goes on after it. *)
Lemma re_split_unfold (k : cclass) (p : pattern) (s : str) :
  re_split (One k :: p) s
  = match search (One k :: p) s with
    | None => [s]
    | Some (pre, m, rest) => pre :: m :: re_split (One k :: p) rest
    end.
Proof.
  unfold re_split.
  destruct (search (One k :: p) s) as [[[pre m] rest]|] eqn:E.
  - pose proof (search_shorter _ _ _ _ _ _ E) as [_ L].
    destruct (length s) as [|n] eqn:Ls; [lia|]. cbn [re_split_fuel]. rewrite E.
    do 2 f_equal. apply re_split_fuel_enough; lia.
  - destruct (length s); cbn [re_split_fuel]; now rewrite E.
Qed.

End MatcherFacts.

(* ================================================================== *)
(** * The validity check *)

Section ValidatorFacts.

Lemma timestamp_fits (u : str) :
  fits [Digit; Digit; Lit ":"; Digit; Digit; Lit "."; Digit; Digit; Digit]%char u
  <-> timestamp_shaped u.
Proof.
  unfold fits, timestamp_shaped. split.
  - intros F.
    repeat match goal with
           | H : Forall2 _ (_ :: _) _ |- _ => inversion H; clear H; subst
           | H : Forall2 _ [] _ |- _ => inversion H; clear H; subst
           end.
    cbn [accepts] in *.
    repeat match goal with
           | H : Ascii.eqb _ _ = true |- _ => apply Ascii.eqb_eq in H; subst
           end.
    do 7 eexists. split; [reflexivity|]. repeat split; assumption.
  - intros (m1 & m2 & s1 & s2 & f1 & f2 & f3 & -> & H).
    decompose [and] H. repeat constructor; cbn [accepts]; auto using Ascii.eqb_refl.
Qed.

Lemma has_timestamps_iff (t : str) :
  has_timestamps t = true <-> has_substring timestamp_shaped t.
Proof.
  unfold has_timestamps, has_substring.
  change TIMESTAMP
    with (map One [Digit; Digit; Lit ":"; Digit; Digit; Lit "."; Digit; Digit; Digit]%char).
  split.
  - destruct (search _ t) as [[[pre m] rest]|] eqn:E; [intros _|discriminate].
    apply search_sound in E as [x [-> Hx]].
    apply match_here_ones in Hx as [-> F].
    exists pre, m, rest. split; [reflexivity | now apply timestamp_fits].
  - intros [pre [u [post [-> S]]]].
    apply timestamp_fits in S.
    assert (H : match_here
                  (map One [Digit; Digit; Lit ":"; Digit; Digit; Lit "."; Digit; Digit; Digit]%char)
                  (u ++ post) = Some (u, post))
      by (apply match_here_ones; now split).
    destruct (search_complete _ pre _ _ H) as [r' ->]. reflexivity.
Qed.

Lemma has_gesture_types_iff (tokens : list str) (t : str) :
  has_gesture_types tokens t = true <->
  exists token, In token tokens /\ mentions token t.
Proof.
  unfold has_gesture_types, mentions, has_substring.
  rewrite existsb_exists. split.
  - intros [token [I H]]. exists token. split; [exact I|]. now apply contains_lower_iff.
  - intros [token [I H]]. exists token. split; [exact I|]. now apply contains_lower_iff.
Qed.

Lemma usable_accepted (min_words : nat) (tokens : list str) (t : str) :
  usable min_words tokens t = accepted min_words tokens t.
Proof.
  unfold usable, rejected, accepted.
  destruct (has_timestamps t), (has_sufficient_length min_words t),
    (has_gesture_types tokens t); reflexivity.
Qed.

(** C1. A response is usable exactly when the three checks pass: it has
    a substring of two digits, a colon, two digits, a dot and three
    digits; it has at least [min_words] words (50 in the source); and it
    mentions one of the tokens ("beat", "metaphoric", "iconic", "deictic"
    in the source) up to case.  The test of a retry gives the same
    verdict.  In particular a response with fewer than [min_words] words
    is not usable, whatever the other two checks say. *)
Theorem usable_iff_all_checks (min_words : nat) (tokens : list str) (t : str) :
  (usable min_words tokens t = true <->
     has_substring timestamp_shaped t
     /\ min_words <= word_count t
     /\ exists token, In token tokens /\ mentions token t)
  /\ accepted min_words tokens t = usable min_words tokens t
  /\ (word_count t < min_words -> usable min_words tokens t = false)
  /\ MIN_WORDS = 50
  /\ GESTURE_TYPES = [py "beat"; py "metaphoric"; py "iconic"; py "deictic"].
Proof.
  assert (E : usable min_words tokens t = true <->
              has_timestamps t = true
              /\ has_sufficient_length min_words t = true
              /\ has_gesture_types tokens t = true).
  { rewrite usable_accepted. unfold accepted. rewrite !andb_true_iff. tauto. }
  split; [|split; [|split; [|split]]].
  - rewrite E, has_timestamps_iff, has_gesture_types_iff.
    unfold has_sufficient_length, word_count. rewrite Nat.leb_le. tauto.
  - symmetry. apply usable_accepted.
  - intros L. destruct (usable min_words tokens t) eqn:U; [|reflexivity].
    destruct (proj1 E eq_refl) as [_ [W _]]. unfold has_sufficient_length in W.
    apply Nat.leb_le in W. unfold word_count in L. lia.
  - reflexivity.
  - reflexivity.
Qed.

End ValidatorFacts.

(* ================================================================== *)
(** * The emphasis formatter *)

Section FormatterFacts.

Lemma no_star_existsb (t : str) :
  ~ In "*"%char t -> existsb (Ascii.eqb "*"%char) t = false.
Proof.
  intros H. destruct (existsb (Ascii.eqb "*"%char) t) eqn:E; [|reflexivity].
  apply existsb_exists in E as [c [I E]]. apply Ascii.eqb_eq in E. now subst.
Qed.

Lemma no_star_startswith (t rest : str) :
  ~ In "*"%char t -> startswith ("*"%char :: rest) t = false.
Proof.
  destruct t as [|c t]; simpl; [reflexivity|]. intros H.
  destruct (Ascii.eqb "*"%char c) eqn:E; [|reflexivity].
  apply Ascii.eqb_eq in E. subst. exfalso. apply H. now left.
Qed.

Lemma format_italic_plain (p : paragraph) (part : str) :
  ~ In "*"%char part ->
  format_italic p part = add_run p part false false.
Proof.
  intros H. unfold format_italic.
  rewrite re_split_no_match
    by (apply (search_literal_absent "*"%char), no_star_existsb, H).
  cbn [for_parts].
  change (py "*") with ["*"%char].
  rewrite (no_star_startswith part [] H). cbn [andb].
  now destruct (add_run p part false false).
Qed.

Lemma format_plain (p : paragraph) (t : str) :
  ~ In "*"%char t ->
  format_text_with_bold p t = add_run p t false false.
Proof.
  intros H. unfold format_text_with_bold.
  rewrite re_split_no_match
    by (apply (search_literal_absent "*"%char), no_star_existsb, H).
  cbn [for_parts].
  change (py "**") with ["*"%char; "*"%char].
  rewrite (no_star_startswith t ["*"%char] H). cbn [andb].
  rewrite format_italic_plain by exact H.
  now destruct (add_run p t false false).
Qed.

Lemma stored_unchanged (t : str) : ~ In "013"%char t -> stored t = t.
Proof.
  induction t as [|c t IH]; intros N; [reflexivity|]. cbn [stored map].
  destruct (Ascii.eqb c "013"%char) eqn:E.
  - apply Ascii.eqb_eq in E. subst. exfalso. apply N. now left.
  - f_equal. apply IH. intros I. apply N. now right.
Qed.

(** C10, as stated, fails: a text without an asterisk that holds a form
    feed is refused by the document library, the ValueError leaves the
    formatter and no run is added; and a carriage return is written as a
    line break, so that the run gives back a line feed in its place. *)
Lemma format_refuses_form_feed :
  (~ In "*"%char form_feed_text
   /\ format_text_with_bold [] form_feed_text = Refused [] form_feed_text
   /\ runs_of (format_text_with_bold [] form_feed_text) = [])
  /\ (~ In "*"%char carriage_return_text
      /\ concat (map text (runs_of (format_text_with_bold [] carriage_return_text)))
         = ["a"; "010"; "b"]%char
      /\ ["a"; "010"; "b"]%char <> carriage_return_text).
Proof.
  split; (split; [|split; (reflexivity || discriminate)]);
    intros H; repeat (destruct H as [H|H]; [discriminate H|]); exact H.
Qed.

(** C10, amended. A text without an asterisk, made of characters the
    document library accepts and without a carriage return, is added to
    the paragraph as one run holding the text unchanged, with neither bold
    nor italic set; so the texts of the runs written to an empty paragraph
    concatenate to the input.  A text without an asterisk that holds a
    character the library refuses raises, and the paragraph is left as it
    was. *)
Theorem format_text_without_asterisk (p : paragraph) (t : str) :
  ~ In "*"%char t ->
  (xml_compatible t = true -> ~ In "013"%char t ->
   format_text_with_bold p t
   = Done (p ++ [{| text := t; bold := false; italic := false |}])
   /\ concat (map text (runs_of (format_text_with_bold [] t))) = t)
  /\ (xml_compatible t = false -> format_text_with_bold p t = Refused p t).
Proof.
  intros H. split.
  - intros C N. rewrite !format_plain by exact H. unfold add_run. rewrite C.
    rewrite (stored_unchanged t N).
    split; [reflexivity|]. simpl. apply app_nil_r.
  - intros C. rewrite format_plain by exact H. unfold add_run. now rewrite C.
Qed.

Lemma format_text_without_asterisk_witness :
  format_text_with_bold [] (py "Beat gesture at 00:05.120")
  = Done [{| text := py "Beat gesture at 00:05.120"; bold := false; italic := false |}]
  /\ concat (map text (runs_of (format_text_with_bold [] (py "Beat gesture at 00:05.120"))))
     = py "Beat gesture at 00:05.120".
Proof.
  apply (format_text_without_asterisk [] (py "Beat gesture at 00:05.120")).
  - vm_compute. intros H. repeat (destruct H as [H|H]; [discriminate H|]). exact H.
  - reflexivity.
  - vm_compute. intros H. repeat (destruct H as [H|H]; [discriminate H|]). exact H.
Defined.

End FormatterFacts.

(* ================================================================== *)
(** * The action/category split *)

Section SplitterFacts.

Lemma split_fuel_first (n : nat) (sep s : str) :
  (contains sep s = true -> 0 < n) ->
  exists l, split_fuel n sep s = first_piece sep s :: l.
Proof.
  intros H. unfold first_piece. pose proof (partition_spec sep s) as P.
  destruct n; simpl; destruct (partition sep s) as [[x y]|]; eauto.
  destruct P as [_ P]. specialize (H P). lia.
Qed.

(** With the second marker present, [split_on] returns: the action comes
    from the text before the first occurrence, the category from the text
    between the first occurrence and the next one. *)
Lemma split_on_some (m1 m2 t : str) :
  m2 <> [] -> contains m2 t = true ->
  exists pre post,
    partition m2 t = Some (pre, post)
    /\ split_on m1 m2 t
       = Some (strip (replace m1 [] pre), m2 ++ strip (first_piece m2 post)).
Proof.
  intros Hm H. destruct (split_cons m2 t Hm H) as [pre [post [P E]]].
  exists pre, post. split; [exact P|].
  destruct (split_fuel_first (length t - 1) m2 post) as [l L].
  { intros C. pose proof (partition_spec m2 t) as Q. rewrite P in Q.
    destruct Q as [Q _]. apply (f_equal (@length ascii)) in Q.
    rewrite !length_app in Q.
    apply contains_iff in C as [a [b C]]. apply (f_equal (@length ascii)) in C.
    rewrite !length_app in C. destruct m2; [congruence|]. simpl in *. lia. }
  unfold split_on. rewrite E, L. reflexivity.
Qed.

(** Without the second marker, [parts[1]] raises. *)
Lemma split_on_none (m1 m2 t : str) :
  contains m2 t = false -> split_on m1 m2 t = None.
Proof. intros H. unfold split_on. now rewrite split_absent. Qed.

Lemma nonempty_lines_nonempty (t line : str) :
  In line (nonempty_lines t) -> line <> [].
Proof.
  unfold nonempty_lines. rewrite in_map_iff. intros [l [<- I]].
  apply filter_In in I as [_ I]. destruct (strip l); [discriminate | discriminate].
Qed.

Lemma py_nonempty_app (m s : str) : m <> [] -> m ++ s <> [].
Proof. destruct m; [congruence | discriminate]. Qed.

(** C6. When the response contains both "1)" and "2)", the split returns
    and its category starts with "2)". *)
Theorem category_starts_with_marker (t : str) :
  contains (py "1)") t = true ->
  contains (py "2)") t = true ->
  exists a, split_response t = Some a /\ startswith (py "2)") (category a) = true.
Proof.
  intros H1 H2. unfold split_response, pick. rewrite H1, H2. cbn [andb orb].
  destruct (split_on_some (py "1)") (py "2)") t) as [pre [post [_ ->]]];
    [discriminate | exact H2 |].
  eexists. split; [reflexivity|]. cbn [category]. apply startswith_app.
Qed.

Lemma category_starts_with_marker_witness :
  exists a,
    split_response (py "1) The speaker raises both hands. 2) This is a beat gesture at 00:05.120.")
    = Some a
    /\ startswith (py "2)") (category a) = true.
Proof.
  apply (category_starts_with_marker
           (py "1) The speaker raises both hands. 2) This is a beat gesture at 00:05.120."));
    reflexivity.
Defined.

(** C2, as stated, fails: on the scenario the split succeeds, but the
    category it returns is not the text "2) This is a beat gesture at
    00:05.120." with a space after the marker. *)
Lemma scenario_category_not_spaced :
  exists a,
    split_response scenario = Some a
    /\ action a = py "The speaker raises both hands."
    /\ category a <> py "2) This is a beat gesture at 00:05.120.".
Proof.
  eexists. split; [vm_compute; reflexivity|]. split; [reflexivity|]. discriminate.
Qed.

(** C2, amended. On the scenario the split returns the action "The
    speaker raises both hands." and the category "2)This is a beat gesture
    at 00:05.120.": the text after the marker is stripped before the marker
    is put back, so no space follows "2)".  With the tokens and the
    timestamp pattern of the source and a threshold of 5 words the response
    is usable (it has 14 words). *)
Theorem scenario_split_and_usable :
  split_response scenario
  = Some {| action := py "The speaker raises both hands.";
            category := py "2)This is a beat gesture at 00:05.120." |}
  /\ usable 5 GESTURE_TYPES scenario = true
  /\ word_count scenario = 14.
Proof. vm_compute. repeat split. Qed.

Lemma pick_unstructured (t : str) :
  unstructured t -> pick t = Some (t, SENTINEL).
Proof.
  unfold unstructured, has_pair, second_line_introduces, pick.
  intros (-> & -> & -> & H). cbn [orb].
  destruct (nonempty_lines t) as [|l0 [|l1 ls]]; try reflexivity.
  cbn [length Nat.leb nth_error]. now rewrite H.
Qed.

(** C3, as stated, fails: a response with no delimiter pattern that ends
    with a line break is not returned whole as the action. *)
Lemma unstructured_action_not_raw :
  unstructured one_line
  /\ split_response one_line
     = Some {| action := py "The speaker waves."; category := SENTINEL |}
  /\ py "The speaker waves." <> one_line.
Proof.
  split; [repeat split; reflexivity|]. split; [reflexivity | discriminate].
Qed.

(** C3, amended. When the response contains none of the delimiter
    patterns, the category is the sentinel "Category not clearly specified
    in response" and the action is the response with every "1)" and then
    every "1." removed and the surrounding whitespace stripped; it is the
    response itself when the response contains neither "1)" nor "1." and
    neither starts nor ends with whitespace. *)
Theorem unstructured_fallback (t : str) :
  unstructured t ->
  split_response t
  = Some {| action := strip (replace (py "1.") [] (replace (py "1)") [] t));
            category := SENTINEL |}
  /\ SENTINEL = py "Category not clearly specified in response"
  /\ (contains (py "1)") t = false -> contains (py "1.") t = false -> strip t = t ->
      split_response t = Some {| action := t; category := SENTINEL |}).
Proof.
  intros U. unfold split_response. rewrite (pick_unstructured t U).
  split; [reflexivity|]. split; [reflexivity|].
  intros H1 H2 H3. unfold clean_action.
  now rewrite (replace_absent _ _ _ H1), (replace_absent _ _ _ H2), H3.
Qed.

Lemma unstructured_fallback_witness :
  unstructured (py "The speaker waves his hand.")
  /\ split_response (py "The speaker waves his hand.")
     = Some {| action := py "The speaker waves his hand."; category := SENTINEL |}.
Proof.
  assert (U : unstructured (py "The speaker waves his hand."))
    by (repeat split; reflexivity).
  split; [exact U|].
  destruct (unstructured_fallback (py "The speaker waves his hand.") U) as [_ [_ H]].
  apply H; reflexivity.
Defined.

(** C4, as stated, fails: a non-empty response whose first section is
    empty yields an empty action. *)
Lemma empty_action_example :
  py "1) 2) Beat gesture" <> []
  /\ split_response (py "1) 2) Beat gesture")
     = Some {| action := []; category := py "2)Beat gesture" |}.
Proof. split; [discriminate | reflexivity]. Qed.

Lemma split_on_category_nonempty (m1 m2 t a c : str) :
  m2 <> [] -> split_on m1 m2 t = Some (a, c) -> c <> [].
Proof.
  intros Hm. unfold split_on.
  destruct (nth_error (split m2 t) 0); [|discriminate].
  destruct (nth_error (split m2 t) 1); [|discriminate].
  intros H. injection H as _ <-. now apply py_nonempty_app.
Qed.

(** C4, amended. Whenever the split of a non-empty response returns, its
    category is non-empty: it starts with the marker put back, or is a
    stripped non-empty line, or is the sentinel.  (The action can be
    empty.) *)
Theorem category_nonempty (t : str) (a : SplitAnswer) :
  t <> [] -> split_response t = Some a -> category a <> [].
Proof.
  intros _. unfold split_response.
  destruct (pick t) as [[x c]|] eqn:P; [|discriminate].
  intros H. injection H as <-. cbn [category].
  unfold pick in P.
  destruct (_ || _).
  - destruct (contains (py "1)") t);
      eapply split_on_category_nonempty in P; auto; discriminate.
  - destruct (_ && _).
    + eapply split_on_category_nonempty in P; auto; discriminate.
    + destruct (2 <=? _).
      * destruct (nth_error (nonempty_lines t) 1) as [line1|] eqn:N; [|discriminate].
        destruct (startswith_any INTRODUCERS line1).
        -- destruct (nth_error (nonempty_lines t) 0); [|discriminate].
           injection P as _ <-. apply nth_error_In in N.
           now apply nonempty_lines_nonempty in N.
        -- injection P as _ <-. discriminate.
      * injection P as _ <-. discriminate.
Qed.

Lemma category_nonempty_witness :
  scenario <> []
  /\ category {| action := py "The speaker raises both hands.";
                 category := py "2)This is a beat gesture at 00:05.120." |} <> [].
Proof.
  split; [discriminate|].
  apply (category_nonempty scenario); [discriminate | reflexivity].
Defined.

(** C5, as stated, fails: the response contains "1." and "2." and no
    "1)"; the text before the first "2." is "1. In 1.5 s the hand rises "
    and the text after it is " Beat at 00:02.120".  The action returned is
    not that prefix without its leading "1." (the "1." of "1.5" is removed
    as well) and the category returned is not "2." followed by that suffix,
    stripped or not (it stops at the "2." of the timestamp). *)
Lemma numbered_split_example :
  contains (py "1.") numbered = true
  /\ contains (py "2.") numbered = true
  /\ contains (py "1)") numbered = false
  /\ partition (py "2.") numbered
     = Some (py "1. In 1.5 s the hand rises ", py " Beat at 00:02.120")
  /\ exists a,
      split_response numbered = Some a
      /\ action a = py "In 5 s the hand rises"
      /\ category a = py "2.Beat at 00:0"
      /\ action a <> py "In 1.5 s the hand rises"
      /\ category a <> py "2. Beat at 00:02.120"
      /\ category a <> py "2.Beat at 00:02.120".
Proof.
  repeat (split; [reflexivity|]).
  eexists. split; [vm_compute; reflexivity|].
  repeat (split; [reflexivity|]).
  repeat split; discriminate.
Qed.

(** C5, amended. When the response contains "1." and "2." and does not
    contain "1)", the split cuts at "2.": the action is the text before the
    first "2." with every "1." removed and stripped (then cleaned once more
    of "1)" and "1." and stripped); the category is "2." followed by the
    stripped text between the first "2." and the next one, or the end; so
    the category starts with "2.". *)
Theorem numbered_dot_split (t : str) :
  contains (py "1.") t = true ->
  contains (py "2.") t = true ->
  contains (py "1)") t = false ->
  exists pre post,
    partition (py "2.") t = Some (pre, post)
    /\ split_response t
       = Some {| action := clean_action (strip (replace (py "1.") [] pre));
                 category := py "2." ++ strip (first_piece (py "2.") post) |}
    /\ startswith (py "2.") (py "2." ++ strip (first_piece (py "2.") post)) = true.
Proof.
  intros H1 H2 H3.
  destruct (split_on_some (py "1.") (py "2.") t) as [pre [post [P E]]];
    [discriminate | exact H2 |].
  exists pre, post. split; [exact P|]. split; [|apply startswith_app].
  unfold split_response, pick. rewrite H1, H2, H3. cbn [andb orb].
  now rewrite E.
Qed.

Lemma numbered_dot_split_witness :
  exists pre post,
    partition (py "2.") (py "1. The hand rises. 2. Beat gesture") = Some (pre, post)
    /\ split_response (py "1. The hand rises. 2. Beat gesture")
       = Some {| action := clean_action (strip (replace (py "1.") [] pre));
                 category := py "2." ++ strip (first_piece (py "2.") post) |}
    /\ startswith (py "2.") (py "2." ++ strip (first_piece (py "2.") post)) = true.
Proof.
  apply (numbered_dot_split (py "1. The hand rises. 2. Beat gesture")); reflexivity.
Defined.



End SplitterFacts.

(* ================================================================== *)
(** * The request loop *)

Section BatchFacts.

(** One case per outcome of the attempt of an iteration of the first
    loop, the validity test of a text decided. *)
Ltac first_iteration o :=
  let t := fresh "t" in
  destruct o as [| ? | ? | ? | t ?];
  unfold first_finally, first_attempt; simpl;
  try destruct (invalid_response t); simpl.

(** Whether the report is saved or a write of it is refused, the
    tracking variables are those the loops have left. *)
Lemma final_state_report (st : state) : final_state (report st) = st.
Proof. unfold report. now destruct (_ || _). Qed.

(** ** Two runs that do not reach the save *)

(** C8, on the code. The first video's upload raises: the [except]
    clause records the error, then the [finally] clause reads
    [processing_time], which no attempt has bound yet, and the
    UnboundLocalError leaves the function.  The second video is never
    processed and the report is not saved. *)
Lemma upload_error_aborts_run (fuel : nat) :
  create_analysis_document fuel failing_uploads 450 [py "clip1.mp4"; py "clip2.mp4"]
  = Aborted (UnboundLocalError "processing_time")
      (set_calls [Upload (py "clip1.mp4")]
         (set_error_log [(py "clip1.mp4", [ErrorAnalyzing])]
            (set_start_time (Some 0) initial_state))).
Proof. reflexivity. Qed.

Lemma retry_loop_missing_files (fuel retry_count : nat) :
  retry_loop fuel nothing_exists 450 videos_to_analyze retry_count
    [py "video1.mp4"; py "video2.mp4"; py "video3.mp4"] after_missing_files
  = OutOfFuel after_missing_files.
Proof.
  revert retry_count. induction fuel as [|fuel IH]; intros retry_count.
  - reflexivity.
  - change (retry_loop (S fuel) nothing_exists 450 videos_to_analyze retry_count
              [py "video1.mp4"; py "video2.mp4"; py "video3.mp4"] after_missing_files)
      with (retry_loop fuel nothing_exists 450 videos_to_analyze (retry_count + 1)
              [py "video1.mp4"; py "video2.mp4"; py "video3.mp4"] after_missing_files).
    apply IH.
Qed.

(** C9, on the code. The videos listed in the script, none of whose
    files exists, retries automatic: the first loop logs "File not found"
    for each; every round of the retry loop then skips each file without a
    request, the list of failing files and the request count stay as they
    are, and the loop never exits.  Whatever the number of rounds allowed,
    the run is still in the loop, with no call made and no report saved. *)
Lemma missing_file_retry_never_ends (fuel : nat) :
  create_analysis_document fuel nothing_exists 450 videos_to_analyze
  = OutOfFuel after_missing_files
  /\ calls after_missing_files = []
  /\ request_count after_missing_files = 0.
Proof.
  split; [|split; reflexivity].
  change (create_analysis_document fuel nothing_exists 450 videos_to_analyze)
    with (retry_loop fuel nothing_exists 450 videos_to_analyze 0
            [py "video1.mp4"; py "video2.mp4"; py "video3.mp4"] after_missing_files).
  apply retry_loop_missing_files.
Qed.

(** ** The request counter and the calls made *)

Lemma ups_app (a b : list call) : ups (a ++ b) = ups a + ups b.
Proof. unfold ups. now rewrite filter_app, length_app. Qed.

Lemma gens_app (a b : list call) : gens (a ++ b) = gens a + gens b.
Proof. unfold gens. now rewrite filter_app, length_app. Qed.

Lemma balanced_nil : balanced [].
Proof.
  intros pre post E. symmetry in E. apply app_eq_nil in E as [-> _]. reflexivity.
Qed.

Lemma balanced_snoc (cs : list call) (c : call) :
  balanced cs -> gens (cs ++ [c]) <= ups (cs ++ [c]) -> balanced (cs ++ [c]).
Proof.
  intros B H pre post E. destruct post as [|x post] using rev_ind.
  - rewrite app_nil_r in E. now subst.
  - clear IHpost. rewrite app_assoc in E. apply app_inj_tail in E as [E _].
    exact (B pre post E).
Qed.

Lemma balanced_whole (cs : list call) : balanced cs -> gens cs <= ups cs.
Proof. intros B. apply (B cs []). now rewrite app_nil_r. Qed.

Lemma balanced_upload (cs : list call) (p : str) :
  balanced cs -> balanced (cs ++ [Upload p]).
Proof.
  intros B. apply balanced_snoc; [exact B|].
  rewrite gens_app, ups_app. pose proof (balanced_whole cs B).
  unfold gens, ups in *. simpl. lia.
Qed.

Lemma balanced_attempt (cs : list call) (p : str) :
  balanced cs -> balanced (cs ++ [Upload p; Generate p; Delete p]).
Proof.
  intros B. pose proof (balanced_whole cs B) as W.
  change [Upload p; Generate p; Delete p]
    with ([Upload p] ++ [Generate p] ++ [Delete p]).
  rewrite !app_assoc.
  repeat (apply balanced_snoc;
          [|rewrite !gens_app, !ups_app; unfold gens, ups in *; simpl; lia]).
  exact B.
Qed.

Lemma balanced_upload_generate (cs : list call) (p : str) :
  balanced cs -> balanced (cs ++ [Upload p; Generate p]).
Proof.
  intros B. pose proof (balanced_whole cs B) as W.
  change [Upload p; Generate p] with ([Upload p] ++ [Generate p]).
  rewrite !app_assoc.
  repeat (apply balanced_snoc;
          [|rewrite !gens_app, !ups_app; unfold gens, ups in *; simpl; lia]).
  exact B.
Qed.

(** One iteration of the first loop whose attempt got a response object:
    the iteration ends normally, the request is counted, and the calls
    are the upload, the generation and the deletion. *)
Lemma first_iteration_returns (p fn : str) (k : nat) (o : outcome) (st : state) :
  returns o = true ->
  exists st',
    first_finally p fn o (first_attempt p fn k o (set_start_time (Some k) st))
    = Continue st'
    /\ request_count st' = request_count st + 1
    /\ calls st' = calls st ++ [Upload p; Generate p; Delete p].
Proof.
  intros R.
  first_iteration o; try discriminate R;
    eexists; (split; [reflexivity|]); simpl; rewrite <- !app_assoc; auto.
Qed.

Lemma counted_after_attempt (MAX_REQUESTS : nat) (st st' : state) (tail : list call) :
  counted MAX_REQUESTS st ->
  request_count st < MAX_REQUESTS ->
  request_count st' = request_count st + 1 ->
  calls st' = calls st ++ tail ->
  ups tail = 1 ->
  balanced (calls st ++ tail) ->
  counted MAX_REQUESTS st'.
Proof.
  unfold counted, attempts. fold (ups (calls st)) (ups (calls st')).
  intros (C & A & B) L C' E U B'. rewrite E, ups_app, U. repeat split; try lia.
  exact B'.
Qed.

(** Whatever the service does, one iteration of the first loop that
    reaches the upload makes one attempt. *)
Lemma first_iteration_attempts (p fn : str) (k : nat) (o : outcome) (st : state) :
  attempts (state_of_step
              (first_finally p fn o (first_attempt p fn k o (set_start_time (Some k) st))))
  = attempts st + 1.
Proof.
  first_iteration o;
    try destruct (processing_time st); simpl;
    try destruct (end_time st); simpl;
    unfold attempts; simpl; rewrite !filter_app, !length_app; simpl; lia.
Qed.

Lemma first_pass_attempts_mono (w : world) (MAX_REQUESTS : nat) (video_paths : list str)
      (st : state) :
  attempts st <= attempts (state_of_step (first_pass w MAX_REQUESTS video_paths st)).
Proof.
  revert st. induction video_paths as [|p rest IH]; intros st; cbn [first_pass];
    [apply Nat.le_refl|].
  destruct (MAX_REQUESTS <=? request_count st); [apply Nat.le_refl|].
  destruct (file_exists w p); cbn [negb].
  - pose proof (first_iteration_attempts p (basename p) (attempts st)
                  (service w (attempts st)) st) as E.
    destruct (first_finally _ _ _ _) as [st1|e st1]; simpl in E.
    + specialize (IH st1). lia.
    + simpl. lia.
  - apply (IH (set_error_log _ st)).
Qed.

(** Under the ceiling, a first video whose file exists is attempted. *)
Lemma first_pass_attempts_head (w : world) (MAX_REQUESTS : nat) (p : str)
      (rest : list str) (st : state) :
  request_count st < MAX_REQUESTS ->
  file_exists w p = true ->
  attempts st < attempts (state_of_step (first_pass w MAX_REQUESTS (p :: rest) st)).
Proof.
  intros L F. cbn [first_pass]. apply Nat.leb_gt in L. rewrite L, F. cbn [negb].
  pose proof (first_iteration_attempts p (basename p) (attempts st)
                (service w (attempts st)) st) as E.
  destruct (first_finally _ _ _ _) as [st1|e st1]; simpl in E.
  - pose proof (first_pass_attempts_mono w MAX_REQUESTS rest st1). lia.
  - simpl. lia.
Qed.

(** An answered attempt of the first loop, then the rest of the loop. *)
Lemma first_pass_answered_step (w : world) (MAX_REQUESTS : nat) (p : str)
      (rest : list str) (st : state) :
  request_count st < MAX_REQUESTS ->
  file_exists w p = true ->
  returns (service w (attempts st)) = true ->
  exists st1,
    first_pass w MAX_REQUESTS (p :: rest) st = first_pass w MAX_REQUESTS rest st1
    /\ request_count st1 = request_count st + 1
    /\ calls st1 = calls st ++ [Upload p; Generate p; Delete p].
Proof.
  intros L F R. cbn [first_pass]. apply Nat.leb_gt in L. rewrite L, F. cbn [negb].
  destruct (first_iteration_returns p (basename p) (attempts st)
              (service w (attempts st)) st R) as (st1 & -> & C1 & K1).
  now exists st1.
Qed.

(** The first loop, when every attempt it makes gets a response object,
    ends normally with every attempt counted. *)
Lemma first_pass_counted (w : world) (MAX_REQUESTS : nat) (video_paths : list str)
      (st : state) :
  (forall k, attempts st <= k ->
             k < attempts (state_of_step (first_pass w MAX_REQUESTS video_paths st)) ->
             returns (service w k) = true) ->
  counted MAX_REQUESTS st ->
  exists st', first_pass w MAX_REQUESTS video_paths st = Continue st'
              /\ counted MAX_REQUESTS st'.
Proof.
  revert st. induction video_paths as [|p rest IH]; intros st H C.
  - now exists st.
  - destruct (MAX_REQUESTS <=? request_count st) eqn:G.
    + cbn [first_pass]. rewrite G. now exists st.
    + destruct (file_exists w p) eqn:F.
      * assert (R : returns (service w (attempts st)) = true).
        { apply H; [apply Nat.le_refl|].
          apply first_pass_attempts_head; [now apply Nat.leb_gt | exact F]. }
        cbn [first_pass] in *. rewrite G, F in *. cbn [negb] in *.
        destruct (first_iteration_returns p (basename p) (attempts st)
                    (service w (attempts st)) st R) as (st' & E & C' & K).
        rewrite E in *.
        assert (S' : counted MAX_REQUESTS st').
        { apply Nat.leb_gt in G. eapply counted_after_attempt; eauto.
          destruct C as (_ & _ & B). now apply balanced_attempt. }
        apply IH; [|exact S'].
        intros k L1 L2. apply H; [|exact L2].
        unfold attempts in *. rewrite K, filter_app, length_app in L1. lia.
      * cbn [first_pass] in *. rewrite G, F in *. cbn [negb] in *.
        apply IH; [|exact C]. intros k L1 L2. apply H; [exact L1 | exact L2].
Qed.

(** What one retry does to the counter and to the calls. *)
Lemma retry_file_effect (w : world) (video_paths : list str) (retry_count : nat)
      (error_file : str) (st : state) :
  let st' := state_of_step (retry_file w video_paths retry_count error_file st) in
  (request_count st' = request_count st /\ calls st' = calls st)
  \/ (request_count st' = request_count st + 1
      /\ exists p, calls st' = calls st ++ [Upload p]
                   \/ calls st' = calls st ++ [Upload p; Generate p; Delete p]).
Proof.
  unfold retry_file.
  destruct (find _ video_paths) as [p|]; [|now left].
  destruct (_ && _); [|now left].
  right. unfold retry_failed_analysis.
  assert (A : forall cs : list call,
             (cs ++ [Upload p]) ++ [Generate p] ++ [Delete p]
             = cs ++ [Upload p; Generate p; Delete p])
    by (intros; now rewrite <- app_assoc).
  destruct (service w (attempts st)) as [| d | d | d | t d]; simpl;
    try (destruct (dict_append _ _ _); simpl;
         (split; [reflexivity|]); exists p; rewrite <- ?app_assoc; auto).
  destruct (response_refused t);
    [|destruct t as [|c t]; [|destruct (valid_retry (c :: t)); [destruct (start_time _)|]]];
    simpl; try destruct (dict_append _ _ _); simpl;
    (split; [reflexivity|]); exists p; rewrite <- ?app_assoc; auto.
Qed.

Lemma retry_file_counted (w : world) (MAX_REQUESTS : nat) (video_paths : list str)
      (retry_count : nat) (error_file : str) (st : state) :
  counted MAX_REQUESTS st ->
  request_count st < MAX_REQUESTS ->
  counted MAX_REQUESTS
    (state_of_step (retry_file w video_paths retry_count error_file st)).
Proof.
  intros C L.
  destruct (retry_file_effect w video_paths retry_count error_file st)
    as [[E1 E2] | [E1 [p [E2 | E2]]]].
  - unfold counted, attempts in *. now rewrite E1, E2.
  - eapply counted_after_attempt; eauto. destruct C as (_ & _ & B).
    now apply balanced_upload.
  - eapply counted_after_attempt; eauto. destruct C as (_ & _ & B).
    now apply balanced_attempt.
Qed.

Lemma retry_round_counted (w : world) (MAX_REQUESTS : nat) (video_paths : list str)
      (retry_count : nat) (error_files : list str) (st : state) :
  counted MAX_REQUESTS st ->
  counted MAX_REQUESTS
    (state_of_step (retry_round w MAX_REQUESTS video_paths retry_count error_files st)).
Proof.
  revert st. induction error_files as [|f rest IH]; intros st C; [exact C|].
  cbn [retry_round]. destruct (MAX_REQUESTS <=? request_count st) eqn:G; [exact C|].
  apply Nat.leb_gt in G.
  pose proof (retry_file_counted w MAX_REQUESTS video_paths retry_count f st C G) as C'.
  destruct (retry_file w video_paths retry_count f st) as [st'|e st'].
  - apply IH. exact C'.
  - exact C'.
Qed.

Lemma retry_loop_counted (fuel : nat) (w : world) (MAX_REQUESTS : nat)
      (video_paths : list str) (retry_count : nat) (error_files : list str) (st : state) :
  counted MAX_REQUESTS st ->
  counted MAX_REQUESTS
    (final_state (retry_loop fuel w MAX_REQUESTS video_paths retry_count error_files st)).
Proof.
  revert retry_count error_files st.
  induction fuel as [|fuel IH]; intros retry_count error_files st C;
    cbn [retry_loop]; destruct (_ && (request_count st <? MAX_REQUESTS));
    rewrite ?final_state_report; try exact C.
  destruct (negb (auto_retry w) && negb (operator w retry_count));
    [now rewrite final_state_report|].
  pose proof (retry_round_counted w MAX_REQUESTS video_paths retry_count error_files st C)
    as C'.
  destruct (retry_round _ _ _ _ _ _) as [st'|e st']; [|exact C'].
  destruct (filter _ error_files); [now rewrite final_state_report|]. apply IH. exact C'.
Qed.

Lemma retry_loop_at_ceiling (fuel : nat) (w : world) (MAX_REQUESTS : nat)
      (video_paths : list str) (retry_count : nat) (error_files : list str) (st : state) :
  MAX_REQUESTS <= request_count st ->
  retry_loop fuel w MAX_REQUESTS video_paths retry_count error_files st = report st.
Proof.
  intros L. apply Nat.ltb_ge in L.
  destruct fuel; cbn [retry_loop]; rewrite L, andb_false_r; reflexivity.
Qed.

(** ** The request ceiling *)

(** C7, as stated, fails: with ceiling 2 and three videos queued, the
    first of which has no file, the first video gets no attempt and the
    third one is uploaded and analysed; a missing file uses no request. *)
Lemma third_subject_contacted :
  exists st,
    create_analysis_document 5 first_file_missing 2
      [py "a.mp4"; py "b.mp4"; py "c.mp4"] = Saved st
    /\ calls st = [Upload (py "b.mp4"); Generate (py "b.mp4"); Delete (py "b.mp4");
                   Upload (py "c.mp4"); Generate (py "c.mp4"); Delete (py "c.mp4")]
    /\ request_count st = 2.
Proof. eexists. split; [vm_compute; reflexivity|]. split; reflexivity. Qed.

Lemma budget_scenario (fuel : nat) (w : world) (p1 p2 p3 : str) :
  returns (service w 0) = true ->
  returns (service w 1) = true ->
  file_exists w p1 = true ->
  file_exists w p2 = true ->
  exists st,
    create_analysis_document fuel w 2 [p1; p2; p3] = report st
    /\ calls st = [Upload p1; Generate p1; Delete p1; Upload p2; Generate p2; Delete p2].
Proof.
  intros R0 R1 F1 F2. unfold create_analysis_document. cbn [first_pass].
  change (2 <=? request_count initial_state) with false. cbv iota.
  rewrite F1. cbn [negb].
  destruct (first_iteration_returns p1 (basename p1) 0 (service w 0) initial_state R0)
    as (st1 & E1 & C1 & K1).
  change (attempts initial_state) with 0. rewrite E1.
  change (request_count initial_state + 1) with 1 in C1.
  change (calls initial_state ++ [Upload p1; Generate p1; Delete p1])
    with [Upload p1; Generate p1; Delete p1] in K1.
  rewrite C1. change (2 <=? 1) with false. cbv iota.
  rewrite F2. cbn [negb].
  assert (A1 : attempts st1 = 1) by (unfold attempts; now rewrite K1).
  rewrite A1.
  destruct (first_iteration_returns p2 (basename p2) 1 (service w 1) st1 R1)
    as (st2 & E2 & C2 & K2).
  rewrite E2. rewrite C1 in C2. rewrite K1 in K2.
  rewrite C2. change (2 <=? 1 + 1) with true. cbv iota.
  rewrite retry_loop_at_ceiling by (rewrite C2; apply Nat.le_refl).
  exists st2. split; [reflexivity | exact K2].
Qed.

(** A request of the first loop that raises is not counted, unlike a
    retry: with ceiling 2 three analysis requests are issued and the third
    video is contacted. *)
Lemma uncounted_request_example :
  exists st,
    create_analysis_document 5 second_generate_raises 2
      [py "a.mp4"; py "b.mp4"; py "c.mp4"] = Saved st
    /\ request_count st = 2
    /\ gens (calls st) = 3
    /\ In (Upload (py "c.mp4")) (calls st).
Proof.
  eexists. split; [vm_compute; reflexivity|].
  split; [reflexivity|]. split; [reflexivity|]. simpl. tauto.
Qed.

(** ** Runs that do reach the save *)

Lemma str_eqb_eq (a b : str) : str_eqb a b = true <-> a = b.
Proof.
  revert b. induction a as [|x a IH]; intros [|y b]; simpl;
    try (split; [discriminate | discriminate]); [tauto|].
  rewrite andb_true_iff, Ascii.eqb_eq, IH. split.
  - now intros [-> ->].
  - intros H. injection H as -> ->. tauto.
Qed.

Lemma dict_set_keys {V : Type} (k : str) (v : V) (d : dict V) (f : str) :
  In f (keys (dict_set k v d)) <-> In f (keys d) \/ f = k.
Proof.
  induction d as [|[k' v'] d IH]; simpl.
  - intuition congruence.
  - destruct (str_eqb k' k) eqn:E; simpl.
    + apply str_eqb_eq in E. subst. intuition congruence.
    + unfold keys in IH. rewrite IH. tauto.
Qed.

Lemma dict_append_present {V : Type} (k : str) (x : V) (d : dict (list V)) :
  In k (keys d) ->
  exists d', dict_append k x d = Some d' /\ keys d' = keys d.
Proof.
  induction d as [|[k' l] d IH]; simpl; [tauto|].
  intros H. destruct (str_eqb k' k) eqn:E.
  - eexists. split; reflexivity.
  - destruct IH as [d' [-> K]].
    + destruct H as [H|H]; [|exact H]. subst.
      assert (T : str_eqb k k = true) by now apply str_eqb_eq. congruence.
    + eexists. split; [reflexivity|]. unfold keys in *. simpl. now rewrite K.
Qed.

(** Once the locals are bound, an iteration of the first loop ends
    normally whatever the service does, and its failure is logged. *)
Lemma first_iteration_bound (p fn : str) (k : nat) (o : outcome) (st : state) :
  end_time st <> None -> processing_time st <> None ->
  exists st',
    first_finally p fn o (first_attempt p fn k o (set_start_time (Some k) st))
    = Continue st'
    /\ times_bound st'
    /\ (forall f, In f (keys (error_log st')) <-> In f (keys (error_log st)) \/
                   (f = fn /\ match o with
                              | Text t _ => invalid_response t = true
                              | _ => True
                              end)).
Proof.
  intros E P. unfold times_bound.
  destruct (end_time st) as [e|] eqn:Ee; [|congruence].
  destruct (processing_time st) as [q|] eqn:Pe; [|congruence].
  first_iteration o;
    rewrite ?Ee, ?Pe; simpl; rewrite ?Ee; simpl;
    eexists; (split; [reflexivity|]); simpl;
    (split; [repeat split; congruence|]);
    intros f; rewrite ?dict_set_keys; intuition congruence.
Qed.

(** The same for an iteration whose attempt got a response object,
    with nothing bound before. *)
Lemma first_iteration_binds (p fn : str) (k : nat) (o : outcome) (st : state) :
  returns o = true ->
  exists st',
    first_finally p fn o (first_attempt p fn k o (set_start_time (Some k) st))
    = Continue st'
    /\ times_bound st'.
Proof.
  intros R. unfold times_bound.
  first_iteration o; try discriminate R;
    eexists; (split; [reflexivity|]); simpl; repeat split; congruence.
Qed.

Lemma first_pass_bound (w : world) (MAX_REQUESTS : nat) (video_paths : list str) (st : state) :
  times_bound st ->
  exists st', first_pass w MAX_REQUESTS video_paths st = Continue st' /\ times_bound st'.
Proof.
  revert st. induction video_paths as [|p rest IH]; intros st B; [now exists st|].
  cbn [first_pass]. destruct (MAX_REQUESTS <=? request_count st); [now exists st|].
  destruct (file_exists w p); cbn [negb].
  - destruct B as (_ & E & P).
    destruct (first_iteration_bound p (basename p) (attempts st)
                (service w (attempts st)) st E P) as (st' & -> & B' & _).
    now apply IH.
  - apply IH. exact B.
Qed.

(** With the locals bound and the file in the error log, a retry ends
    normally and removes no key of the error log. *)
Lemma retry_file_bound (w : world) (video_paths : list str) (retry_count : nat)
      (error_file : str) (st : state) :
  times_bound st ->
  In error_file (keys (error_log st)) ->
  exists st',
    retry_file w video_paths retry_count error_file st = Continue st'
    /\ times_bound st'
    /\ keys (error_log st') = keys (error_log st).
Proof.
  intros B K. unfold retry_file.
  destruct (find _ video_paths) as [p|]; [|now exists st].
  destruct (_ && _); [|now exists st].
  destruct B as (S & E & P).
  destruct (start_time st) as [t0|] eqn:Se; [|congruence].
  assert (A : forall entry st1,
             error_log st1 = error_log st -> start_time st1 = Some t0 ->
             end_time st1 = end_time st -> processing_time st1 = processing_time st ->
             exists st',
               match dict_append error_file entry (error_log st) with
               | Some log => Continue (set_error_log log st1)
               | None => Raise (KeyError error_file) st1
               end = Continue st'
               /\ times_bound st' /\ keys (error_log st') = keys (error_log st)).
  { intros entry st1 E1 E2 E3 E4.
    destruct (dict_append_present error_file entry (error_log st) K) as [d' [-> K']].
    eexists. split; [reflexivity|]. split; [|exact K'].
    unfold times_bound. simpl. rewrite E2, E3, E4. repeat split; congruence. }
  unfold retry_failed_analysis.
  destruct (service w (attempts st)) as [| d | d | d | t d]; simpl;
    try (apply A; (reflexivity || exact Se)).
  destruct (response_refused t); [apply A; (reflexivity || exact Se)|].
  destruct t as [|c t]; [apply A; (reflexivity || exact Se)|].
  destruct (valid_retry (c :: t)); [|apply A; (reflexivity || exact Se)].
  simpl. rewrite Se. eexists. split; [reflexivity|]. split; [|reflexivity].
  unfold times_bound. simpl. rewrite Se. repeat split; congruence.
Qed.

Lemma retry_round_bound (w : world) (MAX_REQUESTS : nat) (video_paths : list str)
      (retry_count : nat) (error_files : list str) (st : state) :
  times_bound st ->
  incl error_files (keys (error_log st)) ->
  exists st',
    retry_round w MAX_REQUESTS video_paths retry_count error_files st = Continue st'
    /\ times_bound st'
    /\ keys (error_log st') = keys (error_log st).
Proof.
  revert st. induction error_files as [|f rest IH]; intros st B I; [now exists st|].
  cbn [retry_round]. destruct (MAX_REQUESTS <=? request_count st); [now exists st|].
  destruct (retry_file_bound w video_paths retry_count f st B) as (st1 & -> & B1 & K1).
  { apply I. now left. }
  destruct (IH st1 B1) as (st2 & -> & B2 & K2).
  { rewrite K1. intros x Hx. apply I. now right. }
  exists st2. split; [reflexivity|]. split; [exact B2|]. congruence.
Qed.

Lemma retry_loop_bound (fuel : nat) (w : world) (MAX_REQUESTS : nat)
      (video_paths : list str) (retry_count : nat) (error_files : list str) (st : state) :
  times_bound st ->
  incl error_files (keys (error_log st)) ->
  exists st',
    retry_loop fuel w MAX_REQUESTS video_paths retry_count error_files st = report st'
    \/ retry_loop fuel w MAX_REQUESTS video_paths retry_count error_files st
       = OutOfFuel st'.
Proof.
  revert retry_count error_files st.
  induction fuel as [|fuel IH]; intros retry_count error_files st B I;
    cbn [retry_loop]; destruct (_ && (request_count st <? MAX_REQUESTS));
    try (exists st; auto; fail).
  destruct (negb (auto_retry w) && negb (operator w retry_count)); [exists st; auto|].
  destruct (retry_round_bound w MAX_REQUESTS video_paths retry_count error_files st B I)
    as (st' & -> & B' & K').
  destruct (filter _ error_files) as [|f l] eqn:F; [exists st'; auto|].
  apply IH; [exact B'|]. rewrite K', <- F. intros x Hx.
  apply filter_In in Hx as [Hx _]. now apply I.
Qed.

(** Once the first attempt of the run is answered, the loops do not
    raise: the run reaches the assembly of the report, or is still in the
    retry loop when the rounds allowed run out. *)
Lemma loops_do_not_raise (fuel : nat) (w : world) (MAX_REQUESTS : nat)
      (p : str) (video_paths : list str) :
  file_exists w p = true ->
  returns (service w 0) = true ->
  exists st,
    create_analysis_document fuel w MAX_REQUESTS (p :: video_paths) = report st
    \/ create_analysis_document fuel w MAX_REQUESTS (p :: video_paths) = OutOfFuel st.
Proof.
  intros F R. unfold create_analysis_document. cbn [first_pass].
  destruct (MAX_REQUESTS <=? request_count initial_state) eqn:G.
  - exists initial_state. left. apply retry_loop_at_ceiling. now apply Nat.leb_le.
  - rewrite F. cbn [negb]. change (attempts initial_state) with 0.
    destruct (first_iteration_binds p (basename p) 0 (service w 0)
                (set_start_time (Some 0) initial_state) R) as (st1 & E1 & B1).
    change (set_start_time (Some 0) (set_start_time (Some 0) initial_state))
      with (set_start_time (Some 0) initial_state) in E1.
    rewrite E1.
    destruct (first_pass_bound w MAX_REQUESTS video_paths st1 B1) as (st2 & -> & B2).
    apply retry_loop_bound; [exact B2 | apply incl_refl].
Qed.

(** ** Runs that leave the retry loop *)

Lemma first_iteration_keys (p fn : str) (k : nat) (o : outcome) (st st' : state) :
  first_finally p fn o (first_attempt p fn k o (set_start_time (Some k) st))
  = Continue st' ->
  forall f, In f (keys (error_log st')) -> In f (keys (error_log st)) \/ f = fn.
Proof.
  first_iteration o;
    destruct (processing_time st); simpl; try discriminate;
    destruct (end_time st); simpl; try discriminate;
    intros H; injection H as <-; simpl; intros f;
    rewrite ?dict_set_keys; tauto.
Qed.

(** The keys of the error log are file names of queued videos. *)
Lemma first_pass_log_keys (w : world) (MAX_REQUESTS : nat) (video_paths : list str)
      (st st' : state) :
  first_pass w MAX_REQUESTS video_paths st = Continue st' ->
  forall f, In f (keys (error_log st')) ->
            In f (keys (error_log st)) \/ In f (map basename video_paths).
Proof.
  revert st. induction video_paths as [|p rest IH]; intros st; cbn [first_pass].
  - intros H. injection H as <-. tauto.
  - destruct (MAX_REQUESTS <=? request_count st).
    + intros H. injection H as <-. tauto.
    + destruct (file_exists w p); cbn [negb].
      * destruct (first_finally _ _ _ _) as [st1|e st1] eqn:E; [|discriminate].
        intros H f I. destruct (IH st1 H f I) as [I1|I1].
        -- destruct (first_iteration_keys _ _ _ _ _ _ E f I1) as [I2| ->].
           ++ now left.
           ++ right. now left.
        -- right. now right.
      * intros H f I. destruct (IH _ H f I) as [I1|I1].
        -- simpl in I1. apply dict_set_keys in I1 as [I1| ->].
           ++ now left.
           ++ right. now left.
        -- right. now right.
Qed.

Lemma find_basename (video_paths : list str) (f : str) :
  In f (map basename video_paths) ->
  exists p, find (fun path => str_eqb (basename path) f) video_paths = Some p
            /\ In p video_paths.
Proof.
  intros I. destruct (find _ video_paths) as [p|] eqn:E.
  - exists p. split; [reflexivity|]. now apply find_some in E.
  - apply in_map_iff in I as [p [<- I]].
    pose proof (find_none _ _ E p I) as N. cbv beta in N.
    assert (T : str_eqb (basename p) (basename p) = true) by now apply str_eqb_eq.
    congruence.
Qed.

(** A retry of a file that is found and present uses one request. *)
Lemma retry_file_increments (w : world) (video_paths : list str) (retry_count : nat)
      (error_file p : str) (st : state) :
  find (fun path => str_eqb (basename path) error_file) video_paths = Some p ->
  p <> [] -> file_exists w p = true ->
  request_count (state_of_step (retry_file w video_paths retry_count error_file st))
  = request_count st + 1.
Proof.
  intros F N X. unfold retry_file. rewrite F, X.
  destruct p as [|c p]; [congruence|]. cbn [andb].
  unfold retry_failed_analysis.
  destruct (service w (attempts st)) as [| d | d | d | t d]; simpl;
    try (destruct (dict_append _ _ _); reflexivity).
  destruct (response_refused t);
    [|destruct t as [|c' t]; [|destruct (valid_retry (c' :: t)); [destruct (start_time _)|]]];
    simpl; try destruct (dict_append _ _ _); reflexivity.
Qed.

Lemma retry_file_mono (w : world) (video_paths : list str) (retry_count : nat)
      (error_file : str) (st : state) :
  request_count st
  <= request_count (state_of_step (retry_file w video_paths retry_count error_file st)).
Proof.
  destruct (retry_file_effect w video_paths retry_count error_file st)
    as [[E _] | [E _]]; rewrite E; lia.
Qed.

Lemma retry_round_mono (w : world) (MAX_REQUESTS : nat) (video_paths : list str)
      (retry_count : nat) (error_files : list str) (st : state) :
  request_count st
  <= request_count
       (state_of_step (retry_round w MAX_REQUESTS video_paths retry_count error_files st)).
Proof.
  revert st. induction error_files as [|f rest IH]; intros st; cbn [retry_round];
    [apply Nat.le_refl|].
  destruct (MAX_REQUESTS <=? request_count st); [apply Nat.le_refl|].
  pose proof (retry_file_mono w video_paths retry_count f st) as M.
  destruct (retry_file w video_paths retry_count f st) as [st1|e st1]; [|exact M].
  specialize (IH st1). simpl in M. lia.
Qed.

(** A round over a non-empty list of file names of present videos, begun
    under the ceiling, uses at least one request. *)
Lemma retry_round_progress (w : world) (MAX_REQUESTS : nat) (video_paths : list str)
      (retry_count : nat) (f : str) (rest : list str) (st : state) :
  all_present w video_paths ->
  In f (map basename video_paths) ->
  request_count st < MAX_REQUESTS ->
  request_count st + 1
  <= request_count
       (state_of_step (retry_round w MAX_REQUESTS video_paths retry_count (f :: rest) st)).
Proof.
  intros A I L. cbn [retry_round]. apply Nat.leb_gt in L. rewrite L.
  destruct (find_basename video_paths f I) as (p & F & Ip).
  destruct (A p Ip) as [N X].
  pose proof (retry_file_increments w video_paths retry_count f p st F N X) as E.
  destruct (retry_file w video_paths retry_count f st) as [st1|e st1]; simpl in E.
  - pose proof (retry_round_mono w MAX_REQUESTS video_paths retry_count rest st1). lia.
  - simpl. lia.
Qed.

Lemma still_running_report (st : state) : still_running (report st) = false.
Proof. unfold report. now destruct (_ || _). Qed.

Lemma retry_loop_ends (w : world) (MAX_REQUESTS : nat) (video_paths : list str) :
  all_present w video_paths ->
  forall (fuel retry_count : nat) (error_files : list str) (st : state),
    incl error_files (map basename video_paths) ->
    MAX_REQUESTS - request_count st <= fuel ->
    still_running
      (retry_loop fuel w MAX_REQUESTS video_paths retry_count error_files st) = false.
Proof.
  intros A fuel. induction fuel as [|fuel IH]; intros retry_count error_files st I L;
    cbn [retry_loop].
  - destruct error_files as [|f rest]; [apply still_running_report|]. cbn [andb].
    destruct (request_count st <? MAX_REQUESTS) eqn:G; [|apply still_running_report].
    apply Nat.ltb_lt in G. lia.
  - destruct error_files as [|f rest]; [apply still_running_report|]. cbn [andb].
    destruct (request_count st <? MAX_REQUESTS) eqn:G; [|apply still_running_report].
    apply Nat.ltb_lt in G.
    destruct (negb (auto_retry w) && negb (operator w retry_count));
      [apply still_running_report|].
    pose proof (retry_round_progress w MAX_REQUESTS video_paths retry_count f rest st A
                  (I f (or_introl eq_refl)) G) as P.
    destruct (retry_round _ _ _ _ _ _) as [st1|e st1]; [|reflexivity].
    simpl in P.
    destruct (filter _ (f :: rest)) as [|g l] eqn:F; [apply still_running_report|].
    apply IH; [|lia].
    rewrite <- F. intros x Hx. apply filter_In in Hx as [Hx _]. now apply I.
Qed.

(** X2. When every queued path is non-empty and its file exists, each
    round of the retry loop uses at least one request, so the loop is left
    after at most [MAX_REQUESTS] rounds, whatever the service answers and
    whatever the consent policy: the run ends, in the save or in an
    exception. *)
Theorem run_ends_when_files_exist (fuel : nat) (w : world) (MAX_REQUESTS : nat)
        (video_paths : list str) :
  all_present w video_paths ->
  MAX_REQUESTS <= fuel ->
  still_running (create_analysis_document fuel w MAX_REQUESTS video_paths) = false.
Proof.
  intros A L. unfold create_analysis_document.
  destruct (first_pass w MAX_REQUESTS video_paths initial_state) as [st|e st] eqn:E;
    [|reflexivity].
  apply retry_loop_ends; [exact A | | lia].
  intros f I. destruct (first_pass_log_keys _ _ _ _ _ E f I) as [I'|I']; [|exact I'].
  destruct I'.
Qed.

Lemma run_ends_when_files_exist_witness :
  still_running (create_analysis_document 2 short_answers 2
                   [py "a.mp4"; py "b.mp4"; py "c.mp4"]) = false.
Proof.
  apply (run_ends_when_files_exist 2 short_answers 2 [py "a.mp4"; py "b.mp4"; py "c.mp4"]).
  - intros p I. split; [|reflexivity].
    simpl in I. destruct I as [<-|[<-|[<-|[]]]]; discriminate.
  - apply Nat.le_refl.
Defined.

End BatchFacts.

(* ================================================================== *)
(** * The emphasis formatter on marked-up text *)

Section FormatterMarkup.

Lemma endswith_iff (p s : str) :
  endswith p s = true <-> exists q, s = q ++ p.
Proof.
  unfold endswith. rewrite startswith_iff. split.
  - intros [t H]. exists (rev t).
    rewrite <- (rev_involutive s), H, rev_app_distr, rev_involutive. reflexivity.
  - intros [q ->]. exists (rev q). apply rev_app_distr.
Qed.

(** [re.split] with the whole pattern captured loses no character. *)
Lemma re_split_concat (k : cclass) (p : pattern) (s : str) :
  concat (re_split (One k :: p) s) = s.
Proof.
  remember (length s) as n eqn:L. revert s L.
  induction n as [n IH] using lt_wf_ind. intros s L.
  rewrite re_split_unfold.
  destruct (search (One k :: p) s) as [[[pre m] rest]|] eqn:E.
  - apply search_shorter in E as [E S]. cbn [concat].
    rewrite (IH (length rest)); [symmetry; exact E | lia | reflexivity].
  - simpl. apply app_nil_r.
Qed.

Lemma unstarred_app (a b : str) : unstarred (a ++ b) = unstarred a ++ unstarred b.
Proof. apply filter_app. Qed.

Lemma xml_compatible_app (a b : str) :
  xml_compatible (a ++ b) = xml_compatible a && xml_compatible b.
Proof. apply forallb_app. Qed.

Lemma add_run_done (p : paragraph) (t : str) (b i : bool) :
  xml_compatible t = true ->
  add_run p t b i = Done (p ++ [{| text := stored t; bold := b; italic := i |}]).
Proof. intros C. unfold add_run. now rewrite C. Qed.

Lemma stored_app (a b : str) : stored (a ++ b) = stored a ++ stored b.
Proof. apply map_app. Qed.

Lemma kept_app (a b : str) :
  unstarred (stored (a ++ b)) = unstarred (stored a) ++ unstarred (stored b).
Proof. now rewrite stored_app, unstarred_app. Qed.

Lemma rendered_snoc (p : paragraph) (r : run) : rendered (p ++ [r]) = rendered p ++ text r.
Proof.
  unfold rendered. rewrite map_app, concat_app. simpl. now rewrite app_nil_r.
Qed.

(** A part that starts and ends with the bold marker holds nothing but
    asterisks outside of [part[2:-2]]. *)
Lemma bold_slice_parts (part : str) :
  startswith (py "**") part = true -> endswith (py "**") part = true ->
  exists l r,
    part = l ++ slice_inner 2 2 part ++ r
    /\ unstarred (stored l) = [] /\ unstarred (stored r) = []
    /\ xml_compatible l = true /\ xml_compatible r = true.
Proof.
  intros S E. apply startswith_iff in S as [r S]. apply endswith_iff in E as [q E].
  change (py "**") with ["*"; "*"]%char in *.
  rewrite S in E. rewrite S. clear S part.
  destruct q as [|x [|y q]]; cbn [app] in E.
  - injection E as ->. exists ["*"; "*"]%char, []. repeat split; reflexivity.
  - injection E as <- ->. exists ["*"; "*"]%char, ["*"]%char. repeat split; reflexivity.
  - injection E as <- <- ->.
    exists ["*"; "*"]%char, ["*"; "*"]%char.
    change (["*"; "*"]%char ++ q ++ ["*"; "*"]%char)
      with ("*"%char :: "*"%char :: q ++ ["*"; "*"]%char) at 2.
    unfold slice_inner. cbn [skipn length]. rewrite length_app. cbn [length].
    replace (S (S (length q + 2)) - 2 - 2) with (length q) by lia.
    rewrite firstn_app, firstn_all, Nat.sub_diag. cbn [firstn].
    rewrite app_nil_r. repeat split; reflexivity.
Qed.

Lemma italic_slice_parts (part : str) :
  startswith (py "*") part = true -> endswith (py "*") part = true ->
  exists l r,
    part = l ++ slice_inner 1 1 part ++ r
    /\ unstarred (stored l) = [] /\ unstarred (stored r) = []
    /\ xml_compatible l = true /\ xml_compatible r = true.
Proof.
  intros S E. apply startswith_iff in S as [r S]. apply endswith_iff in E as [q E].
  change (py "*") with ["*"]%char in *.
  rewrite S in E. rewrite S. clear S part.
  destruct q as [|x q]; cbn [app] in E.
  - injection E as ->. exists ["*"]%char, []. repeat split; reflexivity.
  - injection E as <- ->.
    exists ["*"]%char, ["*"]%char.
    change (["*"]%char ++ q ++ ["*"]%char) with ("*"%char :: q ++ ["*"]%char) at 2.
    unfold slice_inner. cbn [skipn length]. rewrite length_app. cbn [length].
    replace (S (length q + 1) - 1 - 1) with (length q) by lia.
    rewrite firstn_app, firstn_all, Nat.sub_diag. cbn [firstn].
    rewrite app_nil_r. repeat split; reflexivity.
Qed.

(** Writing [y] for the part [x], when the two differ by asterisks
    only. *)
Lemma add_run_faithful (q : paragraph) (x y : str) (b i : bool) :
  unstarred (stored y) = unstarred (stored x) ->
  xml_compatible y = xml_compatible x ->
  faithful q x (add_run q y b i).
Proof.
  intros U C. unfold add_run. destruct (xml_compatible y) eqn:Y; cbn [faithful].
  - split; [congruence|]. rewrite rendered_snoc, unstarred_app. cbn [text]. congruence.
  - split; [congruence|]. split; [exact Y|]. exists []. now rewrite app_nil_r, U.
Qed.

Lemma add_slice_faithful (q : paragraph) (part l r : str) (y : str) (b i : bool) :
  part = l ++ y ++ r ->
  unstarred (stored l) = [] -> unstarred (stored r) = [] ->
  xml_compatible l = true -> xml_compatible r = true ->
  faithful q part (add_run q y b i).
Proof.
  intros -> Ul Ur Cl Cr. apply add_run_faithful.
  - rewrite !kept_app, Ul, Ur. now rewrite app_nil_r.
  - rewrite !xml_compatible_app, Cl, Cr. now rewrite andb_true_r.
Qed.

(** A loop whose body is faithful on each part is faithful on the
    whole. *)
Lemma for_parts_faithful (body : paragraph -> str -> written) :
  (forall q part, faithful q part (body q part)) ->
  forall parts p, faithful p (concat parts) (for_parts body parts p).
Proof.
  intros H parts. induction parts as [|part parts IH]; intros p;
    cbn [for_parts concat].
  - cbn [faithful]. split; [reflexivity|]. cbn. now rewrite app_nil_r.
  - specialize (H p part). destruct (body p part) as [p'|p' x]; cbn [faithful] in H.
    + destruct H as [C U]. specialize (IH p').
      destruct (for_parts body parts p') as [q|q y]; cbn [faithful] in *.
      * destruct IH as [C' U']. split.
        -- now rewrite xml_compatible_app, C, C'.
        -- now rewrite U', U, kept_app, app_assoc.
      * destruct IH as (C' & X & rest & R). split.
        -- now rewrite xml_compatible_app, C, C'.
        -- split; [exact X|]. exists rest.
           now rewrite kept_app, app_assoc, <- U, R.
    + destruct H as (C & X & rest & R). split.
      * now rewrite xml_compatible_app, C.
      * split; [exact X|]. exists (rest ++ unstarred (stored (concat parts))).
        now rewrite kept_app, app_assoc, R, <- !app_assoc.
Qed.

Lemma format_italic_faithful (p : paragraph) (part : str) :
  faithful p part (format_italic p part).
Proof.
  unfold format_italic.
  rewrite <- (re_split_concat (Lit "*"%char) [LazyStar Dot; One (Lit "*"%char)] part) at 1.
  apply for_parts_faithful. intros q x.
  destruct (startswith (py "*") x) eqn:S;
    [destruct (endswith (py "*") x) eqn:E|]; cbn [andb];
    try (now apply add_run_faithful).
  destruct (italic_slice_parts x S E) as (l & r & P & Ul & Ur & Cl & Cr).
  now apply (add_slice_faithful q x l r).
Qed.

Lemma format_faithful (p : paragraph) (t : str) :
  faithful p t (format_text_with_bold p t).
Proof.
  unfold format_text_with_bold.
  rewrite <- (re_split_concat (Lit "*"%char)
                [One (Lit "*"%char); LazyStar Dot; One (Lit "*"%char); One (Lit "*"%char)]
                t) at 1.
  apply for_parts_faithful. intros q x.
  destruct (startswith (py "**") x) eqn:S;
    [destruct (endswith (py "**") x) eqn:E|]; cbn [andb];
    try apply format_italic_faithful.
  destruct (bold_slice_parts x S E) as (l & r & P & Ul & Ur & Cl & Cr).
  now apply (add_slice_faithful q x l r).
Qed.

(** X4. Whatever the text, the formatter raises exactly when the text
    holds a character the document library refuses, for a part that holds
    such a character, and otherwise drops nothing but asterisks: with the
    asterisks left out, the text of the runs it adds to the paragraph is
    the input as the library stores it (a carriage return comes back as a
    line feed), character for character and in order.  When it raises, the
    runs added before and the refused part are, asterisks left out, the
    beginning of the input. *)
Theorem format_drops_only_asterisks (p : paragraph) (t : str) :
  match format_text_with_bold p t with
  | Done q =>
      xml_compatible t = true
      /\ unstarred (rendered q) = unstarred (rendered p) ++ unstarred (stored t)
  | Refused q x =>
      xml_compatible t = false
      /\ xml_compatible x = false
      /\ exists rest,
           unstarred (rendered p) ++ unstarred (stored t)
           = unstarred (rendered q) ++ unstarred (stored x) ++ rest
  end.
Proof.
  pose proof (format_faithful p t) as F.
  destruct (format_text_with_bold p t) as [q|q x]; exact F.
Qed.

(** A response is refused exactly when it holds a character the library
    does not accept. *)
Lemma response_refused_iff (t : str) : response_refused t = negb (xml_compatible t).
Proof.
  unfold response_refused. pose proof (format_faithful [] t) as F.
  destruct (format_text_with_bold [] t) as [q|q x]; cbn [faithful] in F.
  - destruct F as [-> _]. reflexivity.
  - destruct F as [-> _]. reflexivity.
Qed.

(** *** A span between markers *)

Lemma match_here_lazy_eq (k : cclass) (q : pattern) (s : str) :
  match_here (LazyStar k :: q) s
  = match match_here q s with
    | Some r => Some r
    | None =>
        match s with
        | c :: s' => if accepts k c then consume c (match_here (LazyStar k :: q) s') else None
        | [] => None
        end
    end.
Proof. destruct s; reflexivity. Qed.

Lemma match_one_lit (c : ascii) (p : pattern) (s : str) :
  match_here (One (Lit c) :: p) (c :: s) = consume c (match_here p s).
Proof. cbn [match_here accepts]. now rewrite Ascii.eqb_refl. Qed.

Lemma match_one_lit_fail (c d : ascii) (p : pattern) (s : str) :
  d <> c -> match_here (One (Lit c) :: p) (d :: s) = None.
Proof.
  intros N. cbn [match_here accepts].
  destruct (Ascii.eqb c d) eqn:E; [|reflexivity].
  apply Ascii.eqb_eq in E. congruence.
Qed.

Lemma search_here (p : pattern) (s m rest : str) :
  match_here p s = Some (m, rest) -> search p s = Some ([], m, rest).
Proof. intros H. destruct s; simpl; now rewrite H. Qed.

Lemma search_next (p : pattern) (c : ascii) (s : str) :
  match_here p (c :: s) = None ->
  search p (c :: s) = match search p s with
                      | Some (pre, m, rest) => Some (c :: pre, m, rest)
                      | None => None
                      end.
Proof. intros H. simpl. now rewrite H. Qed.

(** The search passes over a stretch without the first character of the
    pattern. *)
Lemma search_literal_skip (c : ascii) (p : pattern) (a x : str) :
  ~ In c a ->
  search (One (Lit c) :: p) (a ++ x)
  = match search (One (Lit c) :: p) x with
    | Some (pre, m, rest) => Some (a ++ pre, m, rest)
    | None => None
    end.
Proof.
  induction a as [|d a IH]; intros N.
  - cbn [app]. now destruct (search _ x) as [[[pre m] rest]|].
  - cbn [app]. rewrite search_next.
    + rewrite IH by (intros I; apply N; now right).
      now destruct (search _ x) as [[[pre m] rest]|].
    + apply match_one_lit_fail. intros ->. apply N. now left.
Qed.

(** The lazy run of any characters: it takes a stretch on which the
    rest of the pattern cannot start, and stops where it can. *)
Lemma lazy_dot_run (q : pattern) (b tail m r : str) :
  one_lined b ->
  (forall x s, In x b -> match_here q (x :: s) = None) ->
  match_here q tail = Some (m, r) ->
  match_here (LazyStar Dot :: q) (b ++ tail) = Some (b ++ m, r).
Proof.
  intros L F T. induction b as [|x b IH]; cbn [app]; rewrite match_here_lazy_eq.
  - now rewrite T.
  - rewrite F by now left. cbn [accepts].
    destruct (Ascii.eqb x "010"%char) eqn:E.
    + apply Ascii.eqb_eq in E. subst. exfalso. apply L. now left.
    + cbn [negb]. rewrite IH; [reflexivity | |].
      * intros I. apply L. now right.
      * intros y s I. apply F. now right.
Qed.

Lemma no_star_neq (t : str) (x : ascii) : ~ In "*"%char t -> In x t -> x <> "*"%char.
Proof. intros N I ->. now apply N. Qed.

Lemma search_no_star (p : pattern) (t : str) :
  ~ In "*"%char t -> search (One (Lit "*"%char) :: p) t = None.
Proof. intros N. apply search_literal_absent. now apply no_star_existsb. Qed.

Lemma bold_span_search (a b c : str) :
  ~ In "*"%char a -> ~ In "*"%char b -> one_lined b ->
  search BOLD (a ++ py "**" ++ b ++ py "**" ++ c)
  = Some (a, py "**" ++ b ++ py "**", c).
Proof.
  intros Na Nb Lb.
  change BOLD
    with (One (Lit "*"%char)
            :: One (Lit "*"%char)
            :: LazyStar Dot :: [One (Lit "*"%char); One (Lit "*"%char)]).
  rewrite search_literal_skip by exact Na.
  change (py "**") with ["*"; "*"]%char. cbn [app].
  rewrite (search_here _ _ ("*"%char :: "*"%char :: b ++ ["*"; "*"]%char) c).
  - now rewrite app_nil_r.
  - rewrite !match_one_lit.
    rewrite (lazy_dot_run _ b ("*"%char :: "*"%char :: c) ["*"; "*"]%char c).
    + reflexivity.
    + exact Lb.
    + intros x s I. apply match_one_lit_fail. now apply (no_star_neq b).
    + rewrite !match_one_lit. reflexivity.
Qed.

Lemma italic_span_search (a b c : str) :
  ~ In "*"%char a -> ~ In "*"%char b -> one_lined b ->
  search ITALIC (a ++ py "*" ++ b ++ py "*" ++ c)
  = Some (a, py "*" ++ b ++ py "*", c).
Proof.
  intros Na Nb Lb.
  change ITALIC
    with (One (Lit "*"%char) :: LazyStar Dot :: [One (Lit "*"%char)]).
  rewrite search_literal_skip by exact Na.
  change (py "*") with ["*"]%char. cbn [app].
  rewrite (search_here _ _ ("*"%char :: b ++ ["*"]%char) c).
  - now rewrite app_nil_r.
  - rewrite !match_one_lit.
    rewrite (lazy_dot_run _ b ("*"%char :: c) ["*"]%char c).
    + reflexivity.
    + exact Lb.
    + intros x s I. apply match_one_lit_fail. now apply (no_star_neq b).
    + rewrite !match_one_lit. reflexivity.
Qed.

Lemma bold_slice_span (b : str) : slice_inner 2 2 (py "**" ++ b ++ py "**") = b.
Proof.
  change (py "**" ++ b ++ py "**") with ("*"%char :: "*"%char :: b ++ ["*"; "*"]%char).
  unfold slice_inner. cbn [skipn length]. rewrite length_app. cbn [length].
  replace (S (S (length b + 2)) - 2 - 2) with (length b) by lia.
  rewrite firstn_app, firstn_all, Nat.sub_diag. cbn [firstn]. apply app_nil_r.
Qed.

Lemma italic_slice_span (b : str) : slice_inner 1 1 (py "*" ++ b ++ py "*") = b.
Proof.
  change (py "*" ++ b ++ py "*") with ("*"%char :: b ++ ["*"]%char).
  unfold slice_inner. cbn [skipn length]. rewrite length_app. cbn [length].
  replace (S (length b + 1) - 1 - 1) with (length b) by lia.
  rewrite firstn_app, firstn_all, Nat.sub_diag. cbn [firstn]. apply app_nil_r.
Qed.

Lemma endswith_app (q p : str) : endswith p (q ++ p) = true.
Proof. apply endswith_iff. now exists q. Qed.

(** The italic pass on a part with one span between single asterisks. *)
Lemma format_italic_span (p : paragraph) (a b c : str) :
  ~ In "*"%char a -> ~ In "*"%char b -> ~ In "*"%char c -> one_lined b ->
  xml_compatible a = true -> xml_compatible b = true -> xml_compatible c = true ->
  format_italic p (a ++ py "*" ++ b ++ py "*" ++ c)
  = Done (p ++ [plain_run (stored a); italic_run (stored b); plain_run (stored c)]).
Proof.
  intros Na Nb Nc Lb Ca Cb Cc. unfold format_italic.
  change ITALIC with (One (Lit "*"%char) :: [LazyStar Dot; One (Lit "*"%char)]).
  rewrite re_split_unfold.
  change (One (Lit "*"%char) :: [LazyStar Dot; One (Lit "*"%char)]) with ITALIC.
  rewrite italic_span_search by assumption.
  change ITALIC with (One (Lit "*"%char) :: [LazyStar Dot; One (Lit "*"%char)]).
  rewrite (re_split_no_match _ c) by now apply search_no_star.
  assert (Sa : startswith (py "*") a = false) by apply (no_star_startswith a [] Na).
  assert (Sc : startswith (py "*") c = false) by apply (no_star_startswith c [] Nc).
  assert (Sm : startswith (py "*") (py "*" ++ b ++ py "*") = true)
    by apply startswith_app.
  assert (Em : endswith (py "*") (py "*" ++ b ++ py "*") = true)
    by (rewrite app_assoc; apply endswith_app).
  cbn [for_parts]. rewrite Sa, Sm, Em, Sc. cbn [andb].
  rewrite italic_slice_span.
  rewrite (add_run_done p a) by exact Ca.
  rewrite (add_run_done _ b) by exact Cb.
  rewrite (add_run_done _ c) by exact Cc.
  unfold plain_run, italic_run. now rewrite <- !app_assoc.
Qed.

(** X5. A span between double asterisks, on one line, in a text with no
    other asterisk and no character the document library refuses: the
    text before it, the span in bold without its markers, and the text
    after it, three runs in this order (the first and the last possibly
    empty), each text as the library stores it (a carriage return comes
    back as a line feed). *)
Theorem bold_span_rendering (p : paragraph) (a b c : str) :
  ~ In "*"%char a -> ~ In "*"%char b -> ~ In "*"%char c -> one_lined b ->
  xml_compatible a = true -> xml_compatible b = true -> xml_compatible c = true ->
  format_text_with_bold p (a ++ py "**" ++ b ++ py "**" ++ c)
  = Done (p ++ [plain_run (stored a); bold_run (stored b); plain_run (stored c)]).
Proof.
  intros Na Nb Nc Lb Ca Cb Cc. unfold format_text_with_bold.
  change BOLD
    with (One (Lit "*"%char)
            :: [One (Lit "*"%char); LazyStar Dot; One (Lit "*"%char); One (Lit "*"%char)]).
  rewrite re_split_unfold.
  change (One (Lit "*"%char)
            :: [One (Lit "*"%char); LazyStar Dot; One (Lit "*"%char); One (Lit "*"%char)])
    with BOLD.
  rewrite bold_span_search by assumption.
  change BOLD
    with (One (Lit "*"%char)
            :: [One (Lit "*"%char); LazyStar Dot; One (Lit "*"%char); One (Lit "*"%char)]).
  rewrite (re_split_no_match _ c) by now apply search_no_star.
  assert (Sa : startswith (py "**") a = false)
    by apply (no_star_startswith a ["*"%char] Na).
  assert (Sc : startswith (py "**") c = false)
    by apply (no_star_startswith c ["*"%char] Nc).
  assert (Sm : startswith (py "**") (py "**" ++ b ++ py "**") = true)
    by apply startswith_app.
  assert (Em : endswith (py "**") (py "**" ++ b ++ py "**") = true)
    by (rewrite app_assoc; apply endswith_app).
  cbn [for_parts]. rewrite Sa, Sm, Em, Sc. cbn [andb].
  rewrite bold_slice_span.
  rewrite (format_italic_plain p a) by exact Na.
  rewrite (add_run_done p a) by exact Ca.
  rewrite (add_run_done _ b) by exact Cb.
  rewrite format_italic_plain by exact Nc.
  rewrite (add_run_done _ c) by exact Cc.
  unfold plain_run, bold_run. now rewrite <- !app_assoc.
Qed.

Lemma bold_span_rendering_witness :
  format_text_with_bold [] (py "This is a **beat** gesture.")
  = Done [plain_run (py "This is a "); bold_run (py "beat"); plain_run (py " gesture.")].
Proof.
  apply (bold_span_rendering [] (py "This is a ") (py "beat") (py " gesture."));
    try reflexivity;
    vm_compute; intros H; repeat (destruct H as [H|H]; [discriminate H|]); exact H.
Defined.

Lemma bold_not_found_in_italic_span (a b c : str) :
  ~ In "*"%char a -> ~ In "*"%char b -> ~ In "*"%char c -> b <> [] ->
  search BOLD (a ++ py "*" ++ b ++ py "*" ++ c) = None
  /\ startswith (py "**") (a ++ py "*" ++ b ++ py "*" ++ c) = false.
Proof.
  intros Na Nb Nc B.
  destruct b as [|b0 b]; [congruence|].
  assert (N0 : b0 <> "*"%char) by (apply (no_star_neq (b0 :: b)); [exact Nb | now left]).
  change (py "*") with ["*"%char]. change (py "**") with ["*"%char; "*"%char].
  cbn [app]. split.
  - change BOLD
      with (One (Lit "*"%char)
              :: One (Lit "*"%char)
              :: LazyStar Dot :: [One (Lit "*"%char); One (Lit "*"%char)]).
    rewrite search_literal_skip by exact Na.
    rewrite search_next
      by (rewrite match_one_lit, (match_one_lit_fail _ _ _ _ N0); reflexivity).
    change (b0 :: b ++ "*"%char :: c) with ((b0 :: b) ++ "*"%char :: c).
    rewrite search_literal_skip by exact Nb.
    assert (F : match_here
                  (One (Lit "*"%char)
                     :: One (Lit "*"%char)
                     :: LazyStar Dot :: [One (Lit "*"%char); One (Lit "*"%char)])
                  ("*"%char :: c) = None).
    { rewrite match_one_lit. destruct c as [|c0 c]; [reflexivity|].
      rewrite match_one_lit_fail; [reflexivity|].
      apply (no_star_neq (c0 :: c)); [exact Nc | now left]. }
    rewrite search_next by exact F.
    now rewrite (search_no_star _ c Nc).
  - destruct a as [|a0 a]; cbn [app startswith].
    + rewrite Ascii.eqb_refl. cbn [andb].
      destruct (Ascii.eqb "*"%char b0) eqn:E; [|reflexivity].
      apply Ascii.eqb_eq in E. congruence.
    + destruct (Ascii.eqb "*"%char a0) eqn:E; [|reflexivity].
      apply Ascii.eqb_eq in E. subst. exfalso. apply Na. now left.
Qed.

(** X6. A non-empty span between single asterisks, on one line, in a
    text with no other asterisk and no character the document library
    refuses: the text before it, the span in italic without its markers,
    and the text after it, three runs in this order (the first and the
    last possibly empty), each text as the library stores it (a carriage
    return comes back as a line feed). *)
Theorem italic_span_rendering (p : paragraph) (a b c : str) :
  ~ In "*"%char a -> ~ In "*"%char b -> ~ In "*"%char c -> one_lined b -> b <> [] ->
  xml_compatible a = true -> xml_compatible b = true -> xml_compatible c = true ->
  format_text_with_bold p (a ++ py "*" ++ b ++ py "*" ++ c)
  = Done (p ++ [plain_run (stored a); italic_run (stored b); plain_run (stored c)]).
Proof.
  intros Na Nb Nc Lb B Ca Cb Cc.
  destruct (bold_not_found_in_italic_span a b c Na Nb Nc B) as [S1 S2].
  unfold format_text_with_bold.
  rewrite (re_split_no_match _ _ S1). cbn [for_parts]. rewrite S2. cbn [andb].
  rewrite format_italic_span by assumption. reflexivity.
Qed.

Lemma italic_span_rendering_witness :
  format_text_with_bold [] (py "an *iconic* gesture")
  = Done [plain_run (py "an "); italic_run (py "iconic"); plain_run (py " gesture")].
Proof.
  apply (italic_span_rendering [] (py "an ") (py "iconic") (py " gesture"));
    try discriminate; try reflexivity;
    vm_compute; intros H; repeat (destruct H as [H|H]; [discriminate H|]); exact H.
Defined.

End FormatterMarkup.

(* ================================================================== *)
(** * Blank responses *)

Section BlankResponses.

Lemma isspace_not_digit (c : ascii) : isspace c = true -> isdigit c = false.
Proof.
  destruct c as [[] [] [] [] [] [] [] []]; vm_compute; intros H;
    first [reflexivity | discriminate H].
Qed.

Lemma isspace_lower (c : ascii) : isspace c = true -> lower_char c = c.
Proof.
  destruct c as [[] [] [] [] [] [] [] []]; vm_compute; intros H;
    first [reflexivity | discriminate H].
Qed.

Lemma blank_lower (t : str) : blank t -> lower t = t.
Proof.
  unfold blank. induction t as [|c t IH]; simpl; [reflexivity|].
  intros H. apply andb_true_iff in H as [H1 H2].
  now rewrite (isspace_lower c H1), IH.
Qed.

Lemma blank_no_words (t : str) : blank t -> split_ws t = [].
Proof.
  unfold blank, split_ws. induction t as [|c t IH]; simpl; [reflexivity|].
  intros H. apply andb_true_iff in H as [H1 H2]. rewrite H1. now apply IH.
Qed.

Lemma blank_In (t : str) (c : ascii) : blank t -> In c t -> isspace c = true.
Proof. unfold blank. rewrite forallb_forall. auto. Qed.

Lemma blank_no_timestamp (t : str) : blank t -> has_timestamps t = false.
Proof.
  intros B. destruct (has_timestamps t) eqn:E; [|reflexivity].
  apply has_timestamps_iff in E as (pre & u & post & -> & S).
  destruct S as (m1 & m2 & s1 & s2 & f1 & f2 & f3 & -> & D & _).
  assert (I : In m1 (pre ++ [m1; m2; ":"; s1; s2; "."; f1; f2; f3]%char ++ post))
    by (apply in_or_app; right; now left).
  apply (blank_In _ _ B), isspace_not_digit in I. congruence.
Qed.

Lemma blank_no_token (t token : str) (c : ascii) (rest : str) :
  blank t -> lower token = c :: rest -> isspace c = false ->
  contains (lower token) (lower t) = false.
Proof.
  intros B L N. destruct (contains (lower token) (lower t)) eqn:E; [|reflexivity].
  rewrite (blank_lower t B), L in E.
  apply contains_iff in E as (pre & post & E).
  assert (I : In c t) by (rewrite E; apply in_or_app; right; now left).
  apply (blank_In _ _ B) in I. congruence.
Qed.

(** X7. An empty or whitespace-only response fails each of the three
    checks of the source (no timestamp, no word at all, none of the four
    gesture types), and is rejected whatever the word threshold and the
    tokens. *)
Theorem blank_response_rejected (t : str) :
  blank t ->
  has_timestamps t = false
  /\ word_count t = 0
  /\ has_sufficient_length MIN_WORDS t = false
  /\ has_gesture_types GESTURE_TYPES t = false
  /\ forall min_words tokens,
       usable min_words tokens t = false /\ accepted min_words tokens t = false.
Proof.
  intros B.
  assert (T : has_timestamps t = false) by now apply blank_no_timestamp.
  assert (W : word_count t = 0) by (unfold word_count; now rewrite blank_no_words).
  split; [exact T|]. split; [exact W|]. split; [|split].
  - unfold has_sufficient_length. fold (word_count t). now rewrite W.
  - unfold has_gesture_types, GESTURE_TYPES. cbn [existsb].
    rewrite (blank_no_token t (py "beat") "b"%char (py "eat") B eq_refl eq_refl).
    rewrite (blank_no_token t (py "metaphoric") "m"%char (py "etaphoric") B eq_refl eq_refl).
    rewrite (blank_no_token t (py "iconic") "i"%char (py "conic") B eq_refl eq_refl).
    rewrite (blank_no_token t (py "deictic") "d"%char (py "eictic") B eq_refl eq_refl).
    reflexivity.
  - intros min_words tokens. rewrite usable_accepted. unfold accepted.
    now rewrite T.
Qed.

Lemma blank_response_rejected_witness :
  usable 0 GESTURE_TYPES (py "
   ") = false.
Proof.
  apply (blank_response_rejected (py "
   ")); reflexivity.
Defined.

End BlankResponses.

(* ================================================================== *)
(** * The split: when it raises, and what its fields look like *)

Section SplitterMore.

Lemma split_on_present (m1 m2 t : str) :
  m2 <> [] -> contains m2 t = true -> split_on m1 m2 t <> None.
Proof.
  intros Hm H. destruct (split_on_some m1 m2 t Hm H) as (pre & post & _ & ->).
  discriminate.
Qed.

(** X8. The parse of a response raises in one case only: the response
    contains "1." and "2." and "1)" but no "2)".  In every other case the
    split returns an action and a category. *)
Theorem split_raises_iff (t : str) :
  split_response t = None <-> stray_paren t.
Proof.
  unfold split_response, stray_paren. split.
  - destruct (pick t) as [[a c]|] eqn:P; [discriminate|]. intros _.
    unfold pick in P.
    destruct (contains (py "1)") t && contains (py "2)") t
              || contains (py "1.") t && contains (py "2.") t) eqn:O.
    + destruct (contains (py "1)") t) eqn:C1.
      * destruct (contains (py "2)") t) eqn:C2.
        { exfalso. revert P. apply split_on_present; [discriminate | exact C2]. }
        cbn [andb orb] in O. apply andb_true_iff in O as [D1 D2]. auto.
      * exfalso. cbn [andb orb] in O. apply andb_true_iff in O as [_ D2].
        revert P. apply split_on_present; [discriminate | exact D2].
    + exfalso.
      destruct (contains (py "Action:") t && contains (py "Category:") t) eqn:AK.
      * apply andb_true_iff in AK as [_ K].
        revert P. apply split_on_present; [discriminate | exact K].
      * destruct (nonempty_lines t) as [|l0 [|l1 ls]];
          cbn [length Nat.leb nth_error] in P; try discriminate P.
        destruct (startswith_any INTRODUCERS l1); discriminate P.
  - intros (D1 & D2 & C1 & C2). unfold pick.
    rewrite D1, D2, C1, C2. cbn [andb orb]. now rewrite split_on_none.
Qed.

(** *** Stripped texts *)

Lemma lstrip_clean (s : str) : starts_clean (lstrip s).
Proof.
  induction s as [|c s IH]; simpl; [exact I|].
  destruct (isspace c) eqn:E; [exact IH | exact E].
Qed.

Lemma lstrip_fixed (s : str) : starts_clean s -> lstrip s = s.
Proof. destruct s as [|c s]; simpl; [reflexivity|]. now intros ->. Qed.

Lemma lstrip_suffix (s : str) : exists sp, s = sp ++ lstrip s.
Proof.
  induction s as [|c s [sp IH]]; simpl; [now exists []|].
  destruct (isspace c).
  - exists (c :: sp). simpl. now rewrite <- IH.
  - now exists [].
Qed.

Lemma starts_clean_app (x y : str) : x <> [] -> starts_clean x -> starts_clean (x ++ y).
Proof. destruct x; [congruence | auto]. Qed.

Lemma strip_stripped (s : str) : stripped (strip s).
Proof.
  unfold stripped, strip, rstrip. split.
  - destruct (lstrip_suffix (rev (lstrip s))) as [sp E].
    pose proof (lstrip_clean s) as C.
    apply (f_equal (@rev ascii)) in E. rewrite rev_involutive, rev_app_distr in E.
    destruct (rev (lstrip (rev (lstrip s)))) as [|c u]; [exact I|].
    rewrite E in C. exact C.
  - rewrite rev_involutive. apply lstrip_clean.
Qed.

Lemma stripped_fixed (s : str) : stripped s -> strip s = s.
Proof.
  intros [A B]. unfold strip, rstrip.
  now rewrite (lstrip_fixed s A), (lstrip_fixed (rev s) B), rev_involutive.
Qed.

(** A marker put in front of a stripped text gives a stripped text. *)
Lemma stripped_marker (m u : str) :
  m <> [] -> stripped m -> stripped u -> stripped (m ++ u).
Proof.
  intros N [A B] [C D]. split.
  - now apply starts_clean_app.
  - rewrite rev_app_distr. destruct u as [|c u].
    + exact B.
    + apply starts_clean_app; [|exact D].
      intros E. apply (f_equal (@length ascii)) in E.
      rewrite length_rev in E. discriminate.
Qed.

Lemma split_on_category (m1 m2 t a c : str) :
  split_on m1 m2 t = Some (a, c) -> exists p1, c = m2 ++ strip p1.
Proof.
  unfold split_on.
  destruct (nth_error (split m2 t) 0); [|discriminate].
  destruct (nth_error (split m2 t) 1) as [p1|]; [|discriminate].
  intros H. injection H as _ <-. now exists p1.
Qed.

Lemma nonempty_lines_stripped (t line : str) :
  In line (nonempty_lines t) -> stripped line.
Proof.
  unfold nonempty_lines. rewrite in_map_iff. intros [l [<- _]]. apply strip_stripped.
Qed.

(** X9. Whenever the split returns, neither the action nor the category
    begins or ends with whitespace, so stripping them again changes
    nothing. *)
Theorem split_fields_stripped (t : str) (a : SplitAnswer) :
  split_response t = Some a ->
  stripped (action a) /\ stripped (category a)
  /\ strip (action a) = action a /\ strip (category a) = category a.
Proof.
  intros H.
  assert (S : stripped (action a) /\ stripped (category a)).
  { unfold split_response in H.
    destruct (pick t) as [[x c]|] eqn:P; [|discriminate].
    injection H as <-. cbn [action category].
    split; [apply strip_stripped|].
    assert (M : forall m1 m2, m2 <> [] -> stripped m2 ->
                              split_on m1 m2 t = Some (x, c) -> stripped c).
    { intros m1 m2 N Sm E. apply split_on_category in E as [p1 ->].
      apply stripped_marker; [exact N | exact Sm | apply strip_stripped]. }
    unfold pick in P.
    destruct (_ || _).
    - destruct (contains (py "1)") t);
        eapply M in P; try exact P; try discriminate; split; reflexivity.
    - destruct (_ && _).
      + eapply M in P; try exact P; try discriminate; split; reflexivity.
      + destruct (2 <=? _).
        * destruct (nth_error (nonempty_lines t) 1) as [line1|] eqn:N; [|discriminate].
          destruct (startswith_any INTRODUCERS line1).
          -- destruct (nth_error (nonempty_lines t) 0); [|discriminate].
             injection P as _ <-. apply nth_error_In in N.
             now apply nonempty_lines_stripped in N.
          -- injection P as _ <-. split; reflexivity.
        * injection P as _ <-. split; reflexivity. }
  destruct S as [Sa Sc]. repeat split; try apply Sa; try apply Sc;
    now apply stripped_fixed.
Qed.

Lemma split_fields_stripped_witness :
  strip (py "The speaker raises both hands.") = py "The speaker raises both hands."
  /\ strip (py "2)This is a beat gesture at 00:05.120.")
     = py "2)This is a beat gesture at 00:05.120.".
Proof.
  pose proof (split_fields_stripped scenario
                {| action := py "The speaker raises both hands.";
                   category := py "2)This is a beat gesture at 00:05.120." |}
                eq_refl) as (_ & _ & A & C).
  split; [exact A | exact C].
Defined.

(** X10. When the response has neither the pair "1)", "2)" nor the pair
    "1.", "2." but contains both "Action:" and "Category:", the split cuts
    at "Category:": the action is the text before the first "Category:"
    with every "Action:" removed and stripped (then cleaned of "1)" and
    "1." and stripped), and the category is "Category:" followed by the
    stripped text up to the next "Category:" or the end. *)
Theorem labelled_split (t : str) :
  has_pair (py "1)") (py "2)") t = false ->
  has_pair (py "1.") (py "2.") t = false ->
  contains (py "Action:") t = true ->
  contains (py "Category:") t = true ->
  exists pre post,
    partition (py "Category:") t = Some (pre, post)
    /\ split_response t
       = Some {| action := clean_action (strip (replace (py "Action:") [] pre));
                 category := py "Category:" ++ strip (first_piece (py "Category:") post) |}.
Proof.
  unfold has_pair. intros H1 H2 A K.
  destruct (split_on_some (py "Action:") (py "Category:") t) as [pre [post [P E]]];
    [discriminate | exact K |].
  exists pre, post. split; [exact P|].
  unfold split_response, pick. rewrite H1, H2, A, K. cbn [andb orb].
  now rewrite E.
Qed.

Lemma labelled_split_witness :
  split_response (py "Action: The hand rises. Category: Beat gesture")
  = Some {| action := py "The hand rises."; category := py "Category:Beat gesture" |}.
Proof.
  pose proof (labelled_split (py "Action: The hand rises. Category: Beat gesture")
                eq_refl eq_refl eq_refl eq_refl) as (pre & post & P & E).
  rewrite E. vm_compute in P. injection P as <- <-. reflexivity.
Defined.

End SplitterMore.

(* ================================================================== *)
(** * What every run keeps *)

Section RunInvariants.

(** ** Induction over the loops *)

Variable w : world.
Variable MAX_REQUESTS : nat.
Variable video_paths : list str.
Variable P : state -> Prop.

Hypothesis missing_step :
  forall st p,
    P st -> file_exists w p = false ->
    P (set_error_log (dict_set (basename p) [FileNotFound] (error_log st)) st).

Hypothesis first_step :
  forall st p,
    P st -> file_exists w p = true ->
    P (state_of_step
         (first_finally p (basename p) (service w (attempts st))
            (first_attempt p (basename p) (attempts st) (service w (attempts st))
               (set_start_time (Some (attempts st)) st)))).

Hypothesis retry_step :
  forall st retry_count f,
    P st -> P (state_of_step (retry_file w video_paths retry_count f st)).

Lemma first_pass_keeps (paths : list str) (st : state) :
  P st -> P (state_of_step (first_pass w MAX_REQUESTS paths st)).
Proof.
  revert st. induction paths as [|p rest IH]; intros st H; cbn [first_pass]; [exact H|].
  destruct (MAX_REQUESTS <=? request_count st); [exact H|].
  destruct (file_exists w p) eqn:F; cbn [negb].
  - pose proof (first_step st p H F) as H1.
    destruct (first_finally _ _ _ _) as [st1|e st1]; [|exact H1].
    apply IH. exact H1.
  - apply IH. now apply missing_step.
Qed.

Lemma retry_round_keeps (retry_count : nat) (error_files : list str) (st : state) :
  P st ->
  P (state_of_step (retry_round w MAX_REQUESTS video_paths retry_count error_files st)).
Proof.
  revert st. induction error_files as [|f rest IH]; intros st H; cbn [retry_round];
    [exact H|].
  destruct (MAX_REQUESTS <=? request_count st); [exact H|].
  pose proof (retry_step st retry_count f H) as H1.
  destruct (retry_file w video_paths retry_count f st) as [st1|e st1]; [|exact H1].
  apply IH. exact H1.
Qed.

Lemma retry_loop_keeps (fuel retry_count : nat) (error_files : list str) (st : state) :
  P st ->
  P (final_state (retry_loop fuel w MAX_REQUESTS video_paths retry_count error_files st)).
Proof.
  revert retry_count error_files st.
  induction fuel as [|fuel IH]; intros retry_count error_files st H;
    cbn [retry_loop]; destruct (_ && (request_count st <? MAX_REQUESTS));
    rewrite ?final_state_report; try exact H.
  destruct (negb (auto_retry w) && negb (operator w retry_count));
    [now rewrite final_state_report|].
  pose proof (retry_round_keeps retry_count error_files st H) as H1.
  destruct (retry_round _ _ _ _ _ _) as [st1|e st1]; [|exact H1].
  destruct (filter _ error_files); [now rewrite final_state_report|]. apply IH. exact H1.
Qed.

End RunInvariants.

Section RunKeeps.

(** What holds at the start and is kept by the logging of a missing file,
    by an iteration of the first loop on a file that exists, with the
    outcome the service gives it, and by a retry holds when the run ends,
    and after any number of rounds. *)
Lemma run_keeps_served (P : state -> Prop) (fuel : nat) (w : world) (MAX_REQUESTS : nat)
      (video_paths : list str) :
  P initial_state ->
  (forall st p,
      P st -> file_exists w p = false ->
      P (set_error_log (dict_set (basename p) [FileNotFound] (error_log st)) st)) ->
  (forall st p,
      P st -> file_exists w p = true ->
      P (state_of_step
           (first_finally p (basename p) (service w (attempts st))
              (first_attempt p (basename p) (attempts st) (service w (attempts st))
                 (set_start_time (Some (attempts st)) st))))) ->
  (forall st retry_count f,
      P st -> P (state_of_step (retry_file w video_paths retry_count f st))) ->
  P (final_state (create_analysis_document fuel w MAX_REQUESTS video_paths)).
Proof.
  intros H0 Hm Hf Hr. unfold create_analysis_document.
  pose proof (first_pass_keeps w MAX_REQUESTS P Hm Hf video_paths initial_state H0) as H1.
  destruct (first_pass _ _ _ _) as [st1|e st1]; [|exact H1].
  now apply retry_loop_keeps.
Qed.

(** The same for what an iteration keeps whatever the file, the attempt
    number and the outcome. *)
Lemma run_keeps (P : state -> Prop) (fuel : nat) (w : world) (MAX_REQUESTS : nat)
      (video_paths : list str) :
  P initial_state ->
  (forall st fn, P st -> P (set_error_log (dict_set fn [FileNotFound] (error_log st)) st)) ->
  (forall st p fn k o,
      P st ->
      P (state_of_step
           (first_finally p fn o (first_attempt p fn k o (set_start_time (Some k) st))))) ->
  (forall st retry_count f,
      P st -> P (state_of_step (retry_file w video_paths retry_count f st))) ->
  P (final_state (create_analysis_document fuel w MAX_REQUESTS video_paths)).
Proof.
  intros H0 Hm Hf Hr. apply run_keeps_served; [exact H0 | | | exact Hr].
  - intros st p H _. now apply Hm.
  - intros st p H _. now apply Hf.
Qed.

(** ** Uploads and deletions *)

Lemma attempts_trace_counts (cs : list call) :
  attempts_trace cs -> dels cs = gens cs /\ gens cs <= ups cs.
Proof.
  induction 1 as [|cs p _ [IH1 IH2]|cs p _ [IH1 IH2]];
    unfold dels, gens, ups in *; rewrite ?filter_app, ?length_app; simpl; lia.
Qed.

Lemma first_iteration_trace (p fn : str) (k : nat) (o : outcome) (st : state) :
  attempts_trace (calls st) ->
  attempts_trace
    (calls (state_of_step
              (first_finally p fn o (first_attempt p fn k o (set_start_time (Some k) st))))).
Proof.
  intros T.
  assert (A : attempts_trace (((calls st ++ [Upload p]) ++ [Generate p]) ++ [Delete p])).
  { rewrite <- !app_assoc. now apply trace_attempt. }
  assert (B : attempts_trace (calls st ++ [Upload p])) by now apply trace_upload_raised.
  destruct o as [| d | d | d | t d]; unfold first_finally, first_attempt; simpl;
    try destruct (invalid_response t); simpl;
    destruct (processing_time st); simpl; try destruct (end_time st); simpl;
    assumption.
Qed.

Lemma retry_file_trace (w : world) (video_paths : list str) (retry_count : nat)
      (f : str) (st : state) :
  attempts_trace (calls st) ->
  attempts_trace (calls (state_of_step (retry_file w video_paths retry_count f st))).
Proof.
  intros T.
  destruct (retry_file_effect w video_paths retry_count f st)
    as [[_ E] | [_ [p [E | E]]]]; rewrite E.
  - exact T.
  - now apply trace_upload_raised.
  - now apply trace_attempt.
Qed.

(** X11. In every run, ended or not, the calls made to the service are a
    sequence of attempts: an upload alone when the upload raised,
    otherwise the upload of a video, the request for its analysis and the
    deletion of the same file.  So every file that was uploaded is deleted
    right after its analysis, also when the analysis fails or the function
    raises, and there are as many deletions as analysis requests. *)
Theorem uploads_are_deleted (fuel : nat) (w : world) (MAX_REQUESTS : nat)
        (video_paths : list str) :
  attempts_trace
    (calls (final_state (create_analysis_document fuel w MAX_REQUESTS video_paths)))
  /\ dels (calls (final_state (create_analysis_document fuel w MAX_REQUESTS video_paths)))
     = gens (calls (final_state (create_analysis_document fuel w MAX_REQUESTS video_paths))).
Proof.
  assert (T : attempts_trace
                (calls (final_state
                          (create_analysis_document fuel w MAX_REQUESTS video_paths)))).
  { apply (run_keeps (fun st => attempts_trace (calls st))).
    - apply trace_empty.
    - intros st fn H. exact H.
    - intros st p fn k o H. now apply first_iteration_trace.
    - intros st rc f H. now apply retry_file_trace. }
  split; [exact T|]. now apply attempts_trace_counts.
Qed.

(** ** Stored responses *)

Lemma valid_retry_not_invalid (t : str) : valid_retry t = negb (invalid_response t).
Proof.
  unfold valid_retry, invalid_response.
  rewrite negb_orb, negb_involutive, Nat.ltb_antisym, negb_involutive. reflexivity.
Qed.

Lemma dict_set_In {V : Type} (k : str) (v : V) (d : dict V) (kv : str * V) :
  In kv (dict_set k v d) -> In kv d \/ kv = (k, v).
Proof.
  induction d as [|[k' v'] d IH]; simpl.
  - intros [<-|[]]. now right.
  - destruct (str_eqb k' k) eqn:E; simpl.
    + apply str_eqb_eq in E. subst. intros [<-|H]; auto.
    + intros [<-|H]; auto. destruct (IH H); auto.
Qed.

Lemma first_iteration_valid (p fn : str) (k : nat) (o : outcome) (st : state) :
  responses_valid st ->
  responses_valid
    (state_of_step
       (first_finally p fn o (first_attempt p fn k o (set_start_time (Some k) st)))).
Proof.
  intros V.
  destruct o as [| d | d | d | t d]; unfold first_finally, first_attempt; simpl;
    try destruct (invalid_response t) eqn:I; simpl;
    destruct (processing_time st); simpl; try destruct (end_time st); simpl;
    try exact V;
    intros f' t' k' H; simpl in H;
    apply dict_set_In in H as [H|H]; try (now apply (V f' t' k'));
    injection H as _ -> _; rewrite valid_retry_not_invalid, I; reflexivity.
Qed.

Lemma retry_file_valid (w : world) (video_paths : list str) (retry_count : nat)
      (f : str) (st : state) :
  responses_valid st ->
  responses_valid (state_of_step (retry_file w video_paths retry_count f st)).
Proof.
  intros V. unfold retry_file.
  destruct (find _ video_paths) as [p|]; [|exact V].
  destruct (_ && _); [|exact V].
  unfold retry_failed_analysis.
  destruct (service w (attempts st)) as [| d | d | d | t d]; simpl;
    try (destruct (dict_append _ _ _); exact V).
  destruct (response_refused t); [destruct (dict_append _ _ _); exact V|].
  destruct t as [|c t]; [destruct (dict_append _ _ _); exact V|].
  destruct (valid_retry (c :: t)) eqn:I; [|destruct (dict_append _ _ _); exact V].
  simpl. destruct (start_time st); simpl; [|exact V].
  intros f' t' k' H. simpl in H.
  apply dict_set_In in H as [H|H]; [now apply (V f' t' k')|].
  injection H as _ -> _. exact I.
Qed.

(** X12. Whatever the service answers, a response is stored among the
    successful analyses only if it passed the validity test: it contains a
    timestamp and has at least fifty words. *)
Theorem stored_responses_are_valid (fuel : nat) (w : world) (MAX_REQUESTS : nat)
        (video_paths : list str) (f t : str) (k : nat) :
  In (f, (t, k))
     (video_responses (final_state (create_analysis_document fuel w MAX_REQUESTS video_paths))) ->
  has_timestamps t = true /\ 50 <= word_count t.
Proof.
  intros H.
  assert (V : responses_valid
                (final_state (create_analysis_document fuel w MAX_REQUESTS video_paths))).
  { apply (run_keeps responses_valid).
    - intros f' t' k' [].
    - intros st fn V. exact V.
    - intros st p fn k0 o V. now apply first_iteration_valid.
    - intros st rc f0 V. now apply retry_file_valid. }
  apply V in H. unfold valid_retry in H. apply andb_true_iff in H as [H1 H2].
  split; [exact H1|]. now apply Nat.leb_le.
Qed.

Lemma stored_responses_are_valid_witness :
  has_timestamps long_answer = true /\ 50 <= word_count long_answer.
Proof.
  apply (stored_responses_are_valid 0 long_answers 450 [py "/in/clip1.mp4"]
           (py "clip1.mp4") long_answer 0).
  vm_compute. left. reflexivity.
Defined.

(** ** Videos accounted for *)

Lemma grows_refl (st : state) : grows st st.
Proof. repeat split; [apply Nat.le_refl | apply incl_refl | apply incl_refl]. Qed.

Lemma grows_trans (a b c : state) : grows a b -> grows b c -> grows a c.
Proof.
  intros (A1 & A2 & A3) (B1 & B2 & B3). repeat split.
  - lia.
  - eapply incl_tran; eassumption.
  - eapply incl_tran; eassumption.
Qed.

Lemma dict_set_keys_incl {V : Type} (k : str) (v : V) (d : dict V) :
  incl (keys d) (keys (dict_set k v d)).
Proof. intros f I. apply dict_set_keys. now left. Qed.

Lemma dict_append_keys {V : Type} (k : str) (x : V) (d d' : dict (list V)) :
  dict_append k x d = Some d' -> keys d' = keys d.
Proof.
  revert d'. induction d as [|[k' l] d IH]; intros d'; simpl; [discriminate|].
  destruct (str_eqb k' k).
  - intros H. injection H as <-. reflexivity.
  - destruct (dict_append k x d) as [d''|]; [|discriminate].
    intros H. injection H as <-. unfold keys in *. simpl. now rewrite (IH d'' eq_refl).
Qed.

Lemma grows_missing (st : state) (fn : str) :
  grows st (set_error_log (dict_set fn [FileNotFound] (error_log st)) st).
Proof.
  repeat split; simpl; [apply Nat.le_refl | apply dict_set_keys_incl | apply incl_refl].
Qed.

Lemma grows_first_iteration (p fn : str) (k : nat) (o : outcome) (st : state) :
  grows st
    (state_of_step
       (first_finally p fn o (first_attempt p fn k o (set_start_time (Some k) st)))).
Proof.
  destruct o as [| d | d | d | t d]; unfold first_finally, first_attempt; simpl;
    try destruct (invalid_response t); simpl;
    destruct (processing_time st); simpl; try destruct (end_time st); simpl;
    repeat split; simpl;
    first [lia | apply incl_refl | apply dict_set_keys_incl].
Qed.

Lemma grows_retry_file (w : world) (video_paths : list str) (retry_count : nat)
      (f : str) (st : state) :
  grows st (state_of_step (retry_file w video_paths retry_count f st)).
Proof.
  unfold retry_file.
  destruct (find _ video_paths) as [p|]; [|apply grows_refl].
  destruct (_ && _); [|apply grows_refl].
  unfold retry_failed_analysis.
  assert (A : forall entry st1,
             request_count st <= request_count st1 ->
             error_log st1 = error_log st -> video_responses st1 = video_responses st ->
             grows st
               (state_of_step
                  match dict_append f entry (error_log st) with
                  | Some log => Continue (set_error_log log st1)
                  | None => Raise (KeyError f) st1
                  end)).
  { intros entry st1 C E V.
    destruct (dict_append f entry (error_log st)) as [log|] eqn:D; simpl.
    - apply dict_append_keys in D. repeat split; simpl.
      + exact C.
      + rewrite D. apply incl_refl.
      + rewrite V. apply incl_refl.
    - repeat split; [exact C | rewrite E | rewrite V]; apply incl_refl. }
  destruct (service w (attempts st)) as [| d | d | d | t d]; simpl;
    try (apply A; simpl; first [lia | reflexivity]).
  destruct (response_refused t); [apply A; simpl; first [lia | reflexivity]|].
  destruct t as [|c t]; [apply A; simpl; first [lia | reflexivity]|].
  destruct (valid_retry (c :: t)); [|apply A; simpl; first [lia | reflexivity]].
  simpl. destruct (start_time st); simpl;
    repeat split; simpl; first [lia | apply incl_refl | apply dict_set_keys_incl].
Qed.

Lemma accounted_grows (st st' : state) (p : str) :
  grows st st' -> accounted st p -> accounted st' p.
Proof. intros (_ & E & V) [H|H]; [left; now apply V | right; now apply E]. Qed.

Lemma first_pass_grows (w : world) (MAX_REQUESTS : nat) (paths : list str) (st : state) :
  grows st (state_of_step (first_pass w MAX_REQUESTS paths st)).
Proof.
  apply (first_pass_keeps w MAX_REQUESTS (grows st)).
  - intros st1 p G _. eapply grows_trans; [exact G | apply grows_missing].
  - intros st1 p G _. eapply grows_trans; [exact G | apply grows_first_iteration].
  - apply grows_refl.
Qed.

Lemma retry_loop_grows (fuel : nat) (w : world) (MAX_REQUESTS : nat)
      (video_paths : list str) (retry_count : nat) (error_files : list str) (st : state) :
  grows st
    (final_state (retry_loop fuel w MAX_REQUESTS video_paths retry_count error_files st)).
Proof.
  apply (retry_loop_keeps w MAX_REQUESTS video_paths (grows st)).
  - intros st1 rc f G. eapply grows_trans; [exact G | apply grows_retry_file].
  - apply grows_refl.
Qed.

(** An iteration of the first loop that ends normally leaves the video
    with a stored response or an entry in the error log. *)
Lemma first_iteration_accounts (p : str) (k : nat) (o : outcome) (st st' : state) :
  first_finally p (basename p) o
    (first_attempt p (basename p) k o (set_start_time (Some k) st)) = Continue st' ->
  accounted st' p.
Proof.
  unfold accounted.
  destruct o as [| d | d | d | t d]; unfold first_finally, first_attempt; simpl;
    try destruct (invalid_response t); simpl;
    destruct (processing_time st); simpl; try discriminate;
    destruct (end_time st); simpl; try discriminate;
    intros H; injection H as <-; simpl;
    first [right; apply dict_set_keys; now right | left; apply dict_set_keys; now right].
Qed.

Lemma first_pass_accounts (w : world) (MAX_REQUESTS : nat) (paths : list str)
      (st st1 : state) :
  first_pass w MAX_REQUESTS paths st = Continue st1 ->
  request_count st1 < MAX_REQUESTS ->
  forall p, In p paths -> accounted st1 p.
Proof.
  revert st. induction paths as [|q rest IH]; intros st E L p I; [destruct I|].
  cbn [first_pass] in E.
  destruct (MAX_REQUESTS <=? request_count st) eqn:G.
  - injection E as <-. apply Nat.leb_le in G. lia.
  - destruct (negb (file_exists w q)).
    + destruct I as [<-|I]; [|now apply (IH _ E L)].
      pose proof (first_pass_grows w MAX_REQUESTS rest
                    (set_error_log (dict_set (basename q) [FileNotFound] (error_log st)) st))
        as W.
      rewrite E in W. apply (accounted_grows _ _ _ W).
      right. simpl. apply dict_set_keys. now right.
    + destruct (first_finally _ _ _ _) as [st'|e st'] eqn:F; [|discriminate].
      destruct I as [<-|I]; [|now apply (IH _ E L)].
      pose proof (first_pass_grows w MAX_REQUESTS rest st') as W.
      rewrite E in W. apply (accounted_grows _ _ _ W).
      now apply (first_iteration_accounts q _ _ _ _ F).
Qed.

(** X13. When a run saves its report without having used up the request
    limit, no queued video is dropped: each one has a stored response or
    an entry in the error log under its file name. *)
Theorem every_video_accounted (fuel : nat) (w : world) (MAX_REQUESTS : nat)
        (video_paths : list str) (st : state) :
  create_analysis_document fuel w MAX_REQUESTS video_paths = Saved st ->
  request_count st < MAX_REQUESTS ->
  forall p, In p video_paths -> accounted st p.
Proof.
  unfold create_analysis_document. intros E L p I.
  destruct (first_pass w MAX_REQUESTS video_paths initial_state) as [st1|e st1] eqn:F.
  - pose proof (retry_loop_grows fuel w MAX_REQUESTS video_paths 0
                  (keys (error_log st1)) st1) as W.
    rewrite E in W. cbn [final_state] in W.
    apply (accounted_grows _ _ _ W).
    apply (first_pass_accounts _ _ _ _ _ F); [|exact I].
    destruct W as (W & _). lia.
  - discriminate.
Qed.

Lemma every_video_accounted_witness :
  accounted
    (final_state (create_analysis_document 5 long_answers 450
                    [py "/in/a.mp4"; py "/in/b.mp4"]))
    (py "/in/b.mp4").
Proof.
  apply (every_video_accounted 5 long_answers 450 [py "/in/a.mp4"; py "/in/b.mp4"]).
  - vm_compute. reflexivity.
  - vm_compute. lia.
  - right. now left.
Defined.

End RunKeeps.

(* ================================================================== *)
(** * Requests go to files that exist *)

Section RequestCeiling.

Lemma first_iteration_contacts (p fn : str) (k : nat) (o : outcome) (st : state) (c : call) :
  In c (calls (state_of_step
                 (first_finally p fn o (first_attempt p fn k o (set_start_time (Some k) st))))) ->
  In c (calls st) \/ call_path c = p.
Proof.
  destruct o as [| d | d | d | t d]; unfold first_finally, first_attempt; simpl;
    try destruct (invalid_response t); simpl;
    destruct (processing_time st); simpl; try destruct (end_time st); simpl;
    rewrite ?in_app_iff; simpl; intuition (subst; auto).
Qed.

Lemma retry_file_contacts (w : world) (video_paths : list str) (retry_count : nat)
      (f : str) (st : state) (c : call) :
  In c (calls (state_of_step (retry_file w video_paths retry_count f st))) ->
  In c (calls st) \/ file_exists w (call_path c) = true.
Proof.
  unfold retry_file.
  destruct (find _ video_paths) as [p|]; [|now left].
  destruct (match p with [] => false | _ :: _ => true end && file_exists w p) eqn:X;
    [|now left].
  apply andb_true_iff in X as [_ X].
  unfold retry_failed_analysis.
  destruct (service w (attempts st)) as [| d | d | d | t d]; simpl;
    try solve [destruct (dict_append _ _ _); simpl;
               rewrite ?in_app_iff; simpl; intuition (subst; cbn [call_path]; auto)].
  destruct (response_refused t);
    [|destruct t as [|c' t]; [|destruct (valid_retry (c' :: t)); [destruct (start_time _)|]]];
    simpl; try destruct (dict_append _ _ _); simpl;
    rewrite ?in_app_iff; simpl; intuition (subst; cbn [call_path]; auto).
Qed.

(** In every run, ended or not, every call is for a video whose file
    exists. *)
Lemma run_contacted (fuel : nat) (w : world) (MAX_REQUESTS : nat) (video_paths : list str) :
  contacted w (final_state (create_analysis_document fuel w MAX_REQUESTS video_paths)).
Proof.
  apply (run_keeps_served (contacted w)).
  - intros c [].
  - intros st p H _ c I. now apply H.
  - intros st p H F c I. apply first_iteration_contacts in I as [I| ->];
      [now apply H | exact F].
  - intros st rc f H c I. apply retry_file_contacts in I as [I|I];
      [now apply H | exact I].
Qed.

(** C7, amended. Take a run in which every attempt the first loop makes
    gets a response object from the service (no upload and no generation
    of the first loop raises).  Then, after any number of retry rounds and
    when the run ends, the request counter equals the number of attempts
    made, initial attempts and retries of all videos together, and does
    not exceed the ceiling; at every point of the trace of calls there are
    no more analysis requests than uploads and at most [MAX_REQUESTS]
    uploads, so once the ceiling is reached no further video is contacted.
    A video whose file is missing receives no attempt and uses no request:
    it is never uploaded or analysed, and the request counter counts the
    uploads of files that exist.  In particular, with ceiling 2 and three
    videos queued of which the first two have their files, the run leaves
    the loops for the assembly of the report after exactly the attempts on
    the first two videos; the third is never uploaded or analysed. *)
Theorem request_ceiling (fuel : nat) (w : world) (MAX_REQUESTS : nat) (video_paths : list str) :
  first_loop_answered w MAX_REQUESTS video_paths ->
  (request_count (final_state (create_analysis_document fuel w MAX_REQUESTS video_paths))
   = attempts (final_state (create_analysis_document fuel w MAX_REQUESTS video_paths))
   /\ attempts (final_state (create_analysis_document fuel w MAX_REQUESTS video_paths))
      <= MAX_REQUESTS
   /\ forall pre post,
        calls (final_state (create_analysis_document fuel w MAX_REQUESTS video_paths))
        = pre ++ post ->
        gens pre <= ups pre /\ ups pre <= MAX_REQUESTS)
  /\ ((forall p,
         file_exists w p = false ->
         ~ In (Upload p)
             (calls (final_state
                       (create_analysis_document fuel w MAX_REQUESTS video_paths)))
         /\ ~ In (Generate p)
               (calls (final_state
                         (create_analysis_document fuel w MAX_REQUESTS video_paths))))
      /\ request_count
           (final_state (create_analysis_document fuel w MAX_REQUESTS video_paths))
         = length
             (filter (fun c => is_upload c && file_exists w (call_path c))
                (calls (final_state
                          (create_analysis_document fuel w MAX_REQUESTS video_paths)))))
  /\ (forall p1 p2 p3,
        MAX_REQUESTS = 2 -> video_paths = [p1; p2; p3] ->
        file_exists w p1 = true -> file_exists w p2 = true ->
        exists st,
          create_analysis_document fuel w MAX_REQUESTS video_paths = report st
          /\ calls st
             = [Upload p1; Generate p1; Delete p1; Upload p2; Generate p2; Delete p2]).
Proof.
  intros H.
  assert (C : counted MAX_REQUESTS
                (final_state (create_analysis_document fuel w MAX_REQUESTS video_paths))).
  { unfold create_analysis_document.
    destruct (first_pass_counted w MAX_REQUESTS video_paths initial_state)
      as (st & -> & C).
    - intros k _ L. now apply H.
    - repeat split; [apply Nat.le_0_l | apply balanced_nil].
    - now apply retry_loop_counted. }
  pose proof (run_contacted fuel w MAX_REQUESTS video_paths) as K.
  split; [|split].
  - destruct C as (C & A & B). split; [exact C|]. split; [exact A|].
    intros pre post E. split; [exact (B pre post E)|].
    unfold attempts in A. rewrite E, filter_app, length_app in A.
    unfold ups. lia.
  - split.
    + intros p F. split; intros I; apply K in I; cbn [call_path] in I; congruence.
    + destruct C as (C & _). rewrite C. unfold attempts. f_equal.
      apply filter_ext_in. intros c I. rewrite (K c I). now rewrite andb_true_r.
  - intros p1 p2 p3 -> -> F1 F2.
    assert (R0 : returns (service w 0) = true).
    { apply H. apply (first_pass_attempts_head w 2 p1 [p2; p3] initial_state);
        [apply Nat.lt_0_2 | exact F1]. }
    assert (R1 : returns (service w 1) = true).
    { apply H.
      destruct (first_pass_answered_step w 2 p1 [p2; p3] initial_state)
        as (st1 & -> & C1 & K1); [apply Nat.lt_0_2 | exact F1 | exact R0 |].
      assert (A1 : attempts st1 = 1) by (unfold attempts; now rewrite K1).
      rewrite <- A1.
      apply first_pass_attempts_head; [rewrite C1; simpl; lia | exact F2]. }
    now apply budget_scenario.
Qed.

Lemma request_ceiling_witness :
  attempts (final_state (create_analysis_document 5 first_file_missing 2
                           [py "a.mp4"; py "b.mp4"; py "c.mp4"])) <= 2
  /\ ~ In (Upload (py "a.mp4"))
         (calls (final_state (create_analysis_document 5 first_file_missing 2
                                [py "a.mp4"; py "b.mp4"; py "c.mp4"])))
  /\ request_count
       (final_state (create_analysis_document 5 first_file_missing 2
                       [py "a.mp4"; py "b.mp4"; py "c.mp4"]))
     = length
         (filter (fun c => is_upload c && file_exists first_file_missing (call_path c))
            (calls (final_state (create_analysis_document 5 first_file_missing 2
                                   [py "a.mp4"; py "b.mp4"; py "c.mp4"])))).
Proof.
  pose proof (request_ceiling 5 first_file_missing 2 [py "a.mp4"; py "b.mp4"; py "c.mp4"]
                (fun k _ => eq_refl)) as [[_ [A _]] [[M R] _]].
  split; [exact A|]. split; [|exact R].
  exact (proj1 (M (py "a.mp4") eq_refl)).
Defined.

End RequestCeiling.

(* ================================================================== *)
(** * The loops and the assembly of the report *)

Section ReportWrites.

Lemma report_writable (st : state) : writable st -> report st = Saved st.
Proof.
  intros [V E]. unfold report.
  destruct (existsb _ (video_responses st)) eqn:X.
  - apply existsb_exists in X as [[f [t k]] [I X]]. cbn [fst snd] in X.
    rewrite response_refused_iff, (V f t k I) in X. discriminate X.
  - destruct (existsb _ (error_log st)) eqn:Y; [|reflexivity].
    apply existsb_exists in Y as [[f l] [I Y]]. cbn [fst snd] in Y.
    apply andb_true_iff in Y as [_ Y].
    apply existsb_exists in Y as [e [Ie Y]].
    rewrite (E f l e I Ie) in Y. discriminate Y.
Qed.

Lemma dict_append_In {V : Type} (k : str) (x : V) (d d' : dict (list V))
      (f : str) (l : list V) :
  dict_append k x d = Some d' ->
  In (f, l) d' -> In (f, l) d \/ exists l0, In (f, l0) d /\ l = l0 ++ [x].
Proof.
  revert d'. induction d as [|[k' l'] d IH]; intros d'; simpl; [discriminate|].
  destruct (str_eqb k' k).
  - intros H. injection H as <-. intros [I|I].
    + injection I as <- <-. right. exists l'. split; [now left | reflexivity].
    + left. now right.
  - destruct (dict_append k x d) as [d''|]; [|discriminate].
    intros H. injection H as <-. intros [I|I].
    + left. now left.
    + destruct (IH d'' eq_refl I) as [I'|[l0 [I' ->]]].
      * left. now right.
      * right. exists l0. split; [now right | reflexivity].
Qed.

(** Logging an entry the library accepts keeps the state writable. *)
Lemma writable_logged (st : state) (fn : str) (e : log_entry) :
  writable st -> entry_refused e = false ->
  writable (set_error_log (dict_set fn [e] (error_log st)) st).
Proof.
  intros [V E] R. split; [exact V|]. intros f l e' I Ie. cbn [error_log set_error_log] in I.
  apply dict_set_In in I as [I|I]; [now apply (E f l)|].
  injection I as -> ->. destruct Ie as [<-|[]]. exact R.
Qed.

Lemma writable_appended (st st1 : state) (fn : str) (e : log_entry) :
  writable st -> entry_refused e = false ->
  video_responses st1 = video_responses st -> error_log st1 = error_log st ->
  writable (state_of_step
              match dict_append fn e (error_log st) with
              | Some log => Continue (set_error_log log st1)
              | None => Raise (KeyError fn) st1
              end).
Proof.
  intros [V E] R Ev Ee.
  destruct (dict_append fn e (error_log st)) as [log|] eqn:D; cbn [state_of_step].
  - split.
    + cbn [video_responses set_error_log]. rewrite Ev. exact V.
    + cbn [error_log set_error_log]. intros f l e' I Ie.
      destruct (dict_append_In _ _ _ _ _ _ D I) as [I'|[l0 [I' ->]]].
      * now apply (E f l).
      * apply in_app_or in Ie as [Ie|[<-|[]]]; [now apply (E f l0) | exact R].
  - split; [rewrite Ev; exact V | rewrite Ee; exact E].
Qed.

Lemma first_iteration_writable (w : world) (p fn : str) (k : nat) (st : state) :
  texts_accepted w -> writable st ->
  writable
    (state_of_step
       (first_finally p fn (service w k)
          (first_attempt p fn k (service w k) (set_start_time (Some k) st)))).
Proof.
  intros A W.
  assert (L : forall e,
             entry_refused e = false ->
             writable (set_error_log (dict_set fn [e] (error_log st)) st))
    by (intros e R; now apply writable_logged).
  destruct (service w k) as [| d | d | d | t d] eqn:O;
    unfold first_finally, first_attempt; simpl;
    try destruct (invalid_response t); simpl;
    destruct (processing_time st); simpl; try destruct (end_time st); simpl;
    try (specialize (L ErrorAnalyzing eq_refl); exact L);
    try (specialize (L NoResponseReceived eq_refl); exact L);
    try (assert (R : entry_refused (InitialAttempt t) = false)
           by (cbn [entry_refused]; now rewrite (A k t d O));
         specialize (L (InitialAttempt t) R); exact L);
    destruct W as [V E]; (split; [|exact E]);
    intros f' t' k' I; cbn in I;
    apply dict_set_In in I as [I|I]; try (now apply (V f' t' k'));
    injection I as _ -> _; exact (A k t d O).
Qed.

Lemma retry_file_writable (w : world) (video_paths : list str) (retry_count : nat)
      (f : str) (st : state) :
  texts_accepted w -> writable st ->
  writable (state_of_step (retry_file w video_paths retry_count f st)).
Proof.
  intros A W. unfold retry_file.
  destruct (find _ video_paths) as [p|]; [|exact W].
  destruct (_ && _); [|exact W].
  unfold retry_failed_analysis.
  destruct (service w (attempts st)) as [| d | d | d | t d] eqn:O; simpl;
    try (apply (writable_appended st); (exact W || reflexivity)).
  destruct (response_refused t);
    [apply (writable_appended st); (exact W || reflexivity)|].
  destruct t as [|c t]; [apply (writable_appended st); (exact W || reflexivity)|].
  destruct (valid_retry (c :: t)).
  - destruct (start_time st); simpl; [|exact W].
    destruct W as [V E]. split; [|exact E].
    intros f' t' k' I. cbn in I.
    apply dict_set_In in I as [I|I]; [now apply (V f' t' k')|].
    injection I as _ -> _. exact (A _ _ _ O).
  - apply (writable_appended st); try (exact W || reflexivity).
    cbn [entry_refused]. now rewrite (A _ _ _ O).
Qed.

(** When the library accepts every text the service answers, the state
    of a run is writable at its end, and after any number of rounds. *)
Lemma run_writable (fuel : nat) (w : world) (MAX_REQUESTS : nat) (video_paths : list str) :
  texts_accepted w ->
  writable (final_state (create_analysis_document fuel w MAX_REQUESTS video_paths)).
Proof.
  intros A. apply (run_keeps_served writable).
  - split; intros ? ? ? [].
  - intros st p W _. now apply writable_logged.
  - intros st p W _. now apply first_iteration_writable.
  - intros st rc f W. now apply retry_file_writable.
Qed.

(** X1. When the file of the first queued video exists and its first
    attempt gets a response object, no failure of a later attempt, at any
    position, makes the loops raise: the run goes on to the assembly of
    the report, or is still in the retry loop when the rounds allowed run
    out.  The function then raises only if the document library refuses a
    response written to the report, and not at all when the library
    accepts every text the service answers. *)
Theorem later_failures_do_not_abort (fuel : nat) (w : world) (MAX_REQUESTS : nat)
        (p : str) (video_paths : list str) :
  file_exists w p = true ->
  returns (service w 0) = true ->
  (exists st,
     create_analysis_document fuel w MAX_REQUESTS (p :: video_paths) = report st
     \/ create_analysis_document fuel w MAX_REQUESTS (p :: video_paths) = OutOfFuel st)
  /\ (texts_accepted w ->
      aborted (create_analysis_document fuel w MAX_REQUESTS (p :: video_paths)) = false).
Proof.
  intros F R.
  destruct (loops_do_not_raise fuel w MAX_REQUESTS p video_paths F R) as [st E].
  split; [now exists st|].
  intros A. pose proof (run_writable fuel w MAX_REQUESTS (p :: video_paths) A) as W.
  destruct E as [E|E]; rewrite E in *; [|reflexivity].
  rewrite final_state_report in W. now rewrite (report_writable st W).
Qed.

Lemma later_failures_do_not_abort_witness :
  (exists st,
     create_analysis_document 500 uploads_fail_later 450
       [py "clip1.mp4"; py "clip2.mp4"; py "clip3.mp4"] = report st
     \/ create_analysis_document 500 uploads_fail_later 450
          [py "clip1.mp4"; py "clip2.mp4"; py "clip3.mp4"] = OutOfFuel st)
  /\ aborted (create_analysis_document 500 uploads_fail_later 450
                [py "clip1.mp4"; py "clip2.mp4"; py "clip3.mp4"]) = false.
Proof.
  destruct (later_failures_do_not_abort 500 uploads_fail_later 450 (py "clip1.mp4")
              [py "clip2.mp4"; py "clip3.mp4"] eq_refl eq_refl) as [E A].
  split; [exact E|]. apply A.
  intros k t d O. destruct k as [|k]; discriminate O.
Defined.

End ReportWrites.

(* ================================================================== *)
(** * A video retried until its response is valid *)

Section RetryUntilValid.

Variable w : world.
Variable MAX_REQUESTS : nat.
Variable p : str.

Hypothesis p_nonempty : p <> [].
Hypothesis p_exists : file_exists w p = true.

Lemma find_lone (f : str) :
  f = basename p ->
  find (fun path => str_eqb (basename path) f) [p] = Some p.
Proof.
  intros ->. cbn [find].
  assert (T : str_eqb (basename p) (basename p) = true) by now apply str_eqb_eq.
  now rewrite T.
Qed.

Lemma valid_retry_nonempty (t : str) : valid_retry t = true -> t <> [].
Proof. intros H ->. discriminate H. Qed.

(** A retry of the lone video that is answered with an invalid text. *)
Lemma retry_file_invalid (retry_count j : nat) (st : state) :
  failed_so_far (basename p) j st ->
  answers_invalid w j ->
  exists st',
    retry_file w [p] retry_count (basename p) st = Continue st'
    /\ failed_so_far (basename p) (j + 1) st'.
Proof.
  intros (C & A & V & R & (l & E & L) & S) (t & d & O & I).
  unfold retry_file. rewrite (find_lone _ eq_refl), p_exists.
  destruct p as [|c0 p0] eqn:Ep; [congruence|]. rewrite <- Ep in *. cbn [andb].
  rewrite A, O. unfold retry_failed_analysis. cbn [cleanup].
  assert (N : valid_retry t = false)
    by (rewrite valid_retry_not_invalid, I; reflexivity).
  assert (K : forall entry,
             exists st',
               match dict_append (basename p) entry
                       (error_log
                          (set_request_count
                             (request_count
                                (do_call (Delete p) (do_call (Generate p) (do_call (Upload p) st))) + 1)
                             (do_call (Delete p) (do_call (Generate p) (do_call (Upload p) st)))))
               with
               | Some log =>
                   Continue
                     (set_error_log log
                        (set_request_count
                           (request_count
                              (do_call (Delete p) (do_call (Generate p) (do_call (Upload p) st))) + 1)
                           (do_call (Delete p) (do_call (Generate p) (do_call (Upload p) st)))))
               | None =>
                   Raise (KeyError (basename p))
                     (set_request_count
                        (request_count
                           (do_call (Delete p) (do_call (Generate p) (do_call (Upload p) st))) + 1)
                        (do_call (Delete p) (do_call (Generate p) (do_call (Upload p) st))))
               end = Continue st'
               /\ failed_so_far (basename p) (j + 1) st').
  { intros entry. simpl. rewrite E. cbn [dict_append].
    assert (T : str_eqb (basename p) (basename p) = true) by now apply str_eqb_eq.
    rewrite T. eexists. split; [reflexivity|].
    unfold failed_so_far, attempts in *. simpl.
    rewrite !filter_app, !length_app. simpl.
    repeat split; try assumption; try lia.
    eexists. split; [reflexivity|]. rewrite length_app. simpl. lia. }
  destruct (response_refused t); [apply K|].
  destruct t as [|c t]; [apply K|]. rewrite N. apply K.
Qed.

(** A retry of the lone video that is answered with a valid response. *)
Lemma retry_file_valid_answer (retry_count j : nat) (st : state) (good : str) (d : bool) :
  failed_so_far (basename p) j st ->
  service w j = Text good d ->
  valid_retry good = true ->
  xml_compatible good = true ->
  exists st',
    retry_file w [p] retry_count (basename p) st = Continue st'
    /\ request_count st' = j + 1
    /\ video_retry_counts st' = [(basename p, retry_count + 1)]
    /\ video_responses st' = [(basename p, (good, 0))]
    /\ error_log st' = error_log st.
Proof.
  intros (C & A & V & R & _ & S) O G X.
  unfold retry_file. rewrite (find_lone _ eq_refl), p_exists.
  destruct p as [|c0 p0] eqn:Ep; [congruence|]. rewrite <- Ep in *. cbn [andb].
  rewrite A, O. unfold retry_failed_analysis. cbn [cleanup].
  rewrite response_refused_iff, X. cbn [negb].
  destruct good as [|c t]; [discriminate G|]. rewrite G.
  simpl. rewrite S, V, R, C. eexists. split; [reflexivity|]. simpl. auto.
Qed.

Variable n : nat.
Variable good : str.
Variable d : bool.

Hypothesis first_invalid : forall k, k < n -> answers_invalid w k.
Hypothesis then_valid : service w n = Text good d.
Hypothesis good_valid : valid_retry good = true.
Hypothesis good_accepted : xml_compatible good = true.
Hypothesis consent : forall j, j < n -> consents w j.
Hypothesis under_limit : n < MAX_REQUESTS.

Lemma consent_goes_ahead (j : nat) :
  j < n -> negb (auto_retry w) && negb (operator w j) = false.
Proof.
  intros L. destruct (consent j L) as [H|H]; rewrite H; [reflexivity|].
  now destruct (auto_retry w).
Qed.

(** With the lone response stored and accepted by the library, and no
    other file in the error log, the report is saved. *)
Lemma report_lone (st : state) (k : nat) (log : dict (list log_entry)) :
  video_responses st = [(basename p, (good, k))] ->
  error_log st = log ->
  (log = [] \/ exists l, log = [(basename p, l)]) ->
  report st = Saved st.
Proof.
  intros V E L. unfold report. rewrite V, E.
  cbn [existsb fst snd]. rewrite response_refused_iff, good_accepted.
  assert (T : str_eqb (basename p) (basename p) = true) by now apply str_eqb_eq.
  destruct L as [-> | [l ->]]; cbn [existsb dict_mem fst snd negb orb andb].
  - reflexivity.
  - rewrite T. reflexivity.
Qed.

(** From [j] failed attempts on, the retry loop ends in the save after
    the attempt numbered [n]. *)
Lemma retry_loop_until_valid (r : nat) :
  forall (j fuel : nat) (st : state),
    j + r = n -> 1 <= j -> r < fuel ->
    failed_so_far (basename p) j st ->
    exists st',
      retry_loop fuel w MAX_REQUESTS [p] (j - 1) [basename p] st = Saved st'
      /\ request_count st' = n + 1
      /\ video_retry_counts st' = [(basename p, n)]
      /\ video_responses st' = [(basename p, (good, 0))]
      /\ exists l, error_log st' = [(basename p, l)] /\ length l = n.
Proof.
  induction r as [|r IH]; intros j fuel st E J F H.
  - (* the attempt numbered n *)
    assert (j = n) by lia. subst j.
    destruct fuel as [|fuel]; [lia|]. cbn [retry_loop andb].
    pose proof H as (C & _ & _ & _ & EL & _).
    rewrite C.
    assert (U : (n <? MAX_REQUESTS) = true) by (apply Nat.ltb_lt; exact under_limit).
    rewrite U. rewrite consent_goes_ahead by lia.
    cbn [retry_round]. rewrite C.
    assert (U' : (MAX_REQUESTS <=? n) = false) by (apply Nat.leb_gt; exact under_limit).
    rewrite U'.
    destruct (retry_file_valid_answer (n - 1) n st good d H then_valid good_valid
                good_accepted)
      as (st' & -> & C' & R' & V' & E').
    cbn [retry_round]. rewrite V'. cbn [filter dict_mem existsb fst].
    assert (T : str_eqb (basename p) (basename p) = true) by now apply str_eqb_eq.
    rewrite T. cbn [orb negb].
    exists st'. split.
    { destruct EL as (l & EL & _).
      apply (report_lone st' 0 (error_log st')); [exact V' | reflexivity |].
      right. exists l. now rewrite E'. }
    split; [exact C'|].
    split; [rewrite R'; repeat f_equal; lia|]. split; [exact V'|].
    rewrite E'. exact EL.
  - (* an attempt answered with an invalid text *)
    destruct fuel as [|fuel]; [lia|]. cbn [retry_loop andb].
    pose proof H as (C & _).
    rewrite C.
    assert (U : (j <? MAX_REQUESTS) = true) by (apply Nat.ltb_lt; lia).
    rewrite U. rewrite consent_goes_ahead by lia.
    cbn [retry_round]. rewrite C.
    assert (U' : (MAX_REQUESTS <=? j) = false) by (apply Nat.leb_gt; lia). rewrite U'.
    destruct (retry_file_invalid (j - 1) j st H) as (st' & -> & H').
    { apply first_invalid. lia. }
    cbn [retry_round].
    pose proof H' as (_ & _ & V' & _). rewrite V'. cbn [filter dict_mem existsb negb].
    replace (j - 1 + 1) with (j + 1 - 1) by lia.
    apply IH; [lia | lia | lia | exact H'].
Qed.

(** X14. One queued video whose file exists and whose first [n] attempts
    are answered with texts that fail the validity test, the next attempt
    with a valid response made of characters the document library
    accepts, each retry round being automatic or approved, and [n] under
    the request limit: the run saves its report after [n + 1] requests,
    the response is stored for the video with the retry count [n], and the
    error log is empty when [n] is zero and otherwise holds one list, under
    the name of the video, of the [n] rejected attempts. *)
Theorem retried_until_valid (fuel : nat) :
  n <= fuel ->
  exists st l,
    create_analysis_document fuel w MAX_REQUESTS [p] = Saved st
    /\ request_count st = n + 1
    /\ video_retry_counts st = [(basename p, n)]
    /\ video_responses st = [(basename p, (good, 0))]
    /\ length l = n
    /\ error_log st = match l with
                      | [] => []
                      | _ :: _ => [(basename p, l)]
                      end.
Proof.
  intros F. unfold create_analysis_document. cbn [first_pass].
  change (request_count initial_state) with 0.
  assert (U : (MAX_REQUESTS <=? 0) = false) by (apply Nat.leb_gt; lia). rewrite U.
  rewrite p_exists. cbn [negb]. change (attempts initial_state) with 0.
  destruct (Nat.eq_dec n 0) as [Z|NZ].
  - (* valid at once *)
    pose proof then_valid as TV. rewrite Z in TV. rewrite TV, Z.
    unfold first_finally, first_attempt. simpl.
    pose proof good_valid as I. rewrite valid_retry_not_invalid in I.
    apply negb_true_iff in I. rewrite I. simpl.
    match goal with
    | |- exists st l, retry_loop _ _ _ _ _ _ ?s = _ /\ _ => exists s, []
    end.
    split; [|repeat split; auto].
    destruct fuel; cbn [retry_loop andb];
      apply (report_lone _ 0 []); (reflexivity || now left).
  - destruct (first_invalid 0) as (t & d0 & O & I); [lia|].
    rewrite O. unfold first_finally, first_attempt. simpl. rewrite I. simpl.
    match goal with
    | |- exists st l, retry_loop _ _ _ _ _ _ ?s = _ /\ _ =>
        assert (H : failed_so_far (basename p) 1 s)
    end.
    { unfold failed_so_far, attempts. simpl. repeat split.
      eexists. split; reflexivity. }
    destruct (retry_loop_until_valid (n - 1) 1 fuel _ ltac:(lia) ltac:(lia) ltac:(lia) H)
      as (st' & E & C & R & V & (l & EL & L)).
    exists st', l. split; [exact E|]. split; [exact C|]. split; [exact R|].
    split; [exact V|]. split; [exact L|].
    rewrite EL. destruct l as [|e l]; [simpl in L; lia | reflexivity].
Qed.

End RetryUntilValid.

Section RetryUntilValidWitness.

Lemma retried_until_valid_witness :
  exists st l,
    create_analysis_document 1 second_try_valid 5 [py "/in/clip1.mp4"] = Saved st
    /\ request_count st = 2
    /\ video_retry_counts st = [(py "clip1.mp4", 1)]
    /\ length l = 1
    /\ error_log st = match l with
                      | [] => []
                      | _ :: _ => [(py "clip1.mp4", l)]
                      end.
Proof.
  destruct (retried_until_valid second_try_valid 5 (py "/in/clip1.mp4")
              ltac:(discriminate) eq_refl 1 long_answer false) with (fuel := 1)
    as (st & l & E & C & R & _ & L & G).
  - intros k L. assert (k = 0) by lia. subst k. exists (py "ok"), false. now split.
  - reflexivity.
  - reflexivity.
  - reflexivity.
  - intros j L. now left.
  - lia.
  - lia.
  - exists st, l. split; [exact E|]. split; [exact C|]. split; [exact R|].
    split; [exact L | exact G].
Defined.

End RetryUntilValidWitness.

(* ================================================================== *)
(** * The report of gesture_analysis_doc.py *)

Section GestureReport.

(** ** The bold-only formatter *)

Lemma bold_match_starts (x m rest : str) :
  match_here BOLD x = Some (m, rest) -> exists y, x = py "**" ++ y.
Proof.
  change BOLD
    with (One (Lit "*"%char)
            :: One (Lit "*"%char)
            :: LazyStar Dot :: [One (Lit "*"%char); One (Lit "*"%char)]).
  destruct x as [|c1 [|c2 y]]; cbn [match_here]; try discriminate.
  - destruct (accepts (Lit "*"%char) c1); discriminate.
  - cbn [accepts].
    destruct (Ascii.eqb "*"%char c1) eqn:E1; [|discriminate].
    destruct (Ascii.eqb "*"%char c2) eqn:E2; [|simpl; discriminate].
    apply Ascii.eqb_eq in E1, E2. subst. intros _. now exists y.
Qed.

Lemma search_no_bold_marker (t : str) :
  contains (py "**") t = false -> search BOLD t = None.
Proof.
  intros N. destruct (search BOLD t) as [[[pre m] rest]|] eqn:E; [|reflexivity].
  apply search_sound in E as [x [-> M]].
  apply bold_match_starts in M as [y ->].
  assert (C : contains (py "**") (pre ++ py "**" ++ y) = true)
    by (apply contains_iff; now exists pre, y).
  congruence.
Qed.

Lemma startswith_contains (m t : str) :
  contains m t = false -> startswith m t = false.
Proof.
  intros N. destruct (startswith m t) eqn:S; [|reflexivity].
  apply startswith_iff in S as [r ->].
  assert (C : contains m (m ++ r) = true) by (apply contains_iff; now exists [], r).
  congruence.
Qed.

(** X15. The formatter of gesture_analysis_doc.py knows bold spans only:
    a text without two asterisks in a row, made of characters the
    document library accepts, is added as one plain run, single asterisks
    included, with the text as the library stores it: unchanged, but for
    a carriage return, which comes back as a line feed. *)
Theorem bold_only_keeps_single_asterisks (p : paragraph) (t : str) :
  contains (py "**") t = false ->
  xml_compatible t = true ->
  Gesture.format_text_with_bold p t = Done (p ++ [plain_run (stored t)])
  /\ (~ In "013"%char t -> stored t = t).
Proof.
  intros N C. unfold Gesture.format_text_with_bold.
  rewrite re_split_no_match by now apply search_no_bold_marker.
  cbn [for_parts]. rewrite startswith_contains by exact N. cbn [andb].
  split; [now rewrite add_run_done by exact C | apply stored_unchanged].
Qed.

Lemma bold_only_keeps_single_asterisks_witness :
  Gesture.format_text_with_bold [] (py "a *raised* hand")
  = Done ([] ++ [plain_run (stored (py "a *raised* hand"))])
  /\ stored (py "a *raised* hand") = py "a *raised* hand".
Proof.
  destruct (bold_only_keeps_single_asterisks [] (py "a *raised* hand") eq_refl eq_refl)
    as [E U].
  split; [exact E|]. reflexivity.
Defined.

(** X16. In gesture_analysis_doc.py, a bold span on one line, after a
    text without asterisks and before a text without two asterisks in a
    row, none of them holding a character the document library refuses,
    gives three runs: the text before, the span in bold without its
    markers, and the text after, single asterisks included, each text as
    the library stores it (a carriage return comes back as a line
    feed). *)
Theorem bold_only_span (p : paragraph) (a b c : str) :
  ~ In "*"%char a -> ~ In "*"%char b -> one_lined b ->
  contains (py "**") c = false ->
  xml_compatible a = true -> xml_compatible b = true -> xml_compatible c = true ->
  Gesture.format_text_with_bold p (a ++ py "**" ++ b ++ py "**" ++ c)
  = Done (p ++ [plain_run (stored a); bold_run (stored b); plain_run (stored c)]).
Proof.
  intros Na Nb Lb Nc Ca Cb Cc. unfold Gesture.format_text_with_bold.
  change BOLD
    with (One (Lit "*"%char)
            :: [One (Lit "*"%char); LazyStar Dot; One (Lit "*"%char); One (Lit "*"%char)]).
  rewrite re_split_unfold.
  change (One (Lit "*"%char)
            :: [One (Lit "*"%char); LazyStar Dot; One (Lit "*"%char); One (Lit "*"%char)])
    with BOLD.
  rewrite bold_span_search by assumption.
  rewrite (re_split_no_match BOLD c) by now apply search_no_bold_marker.
  cbn [for_parts].
  assert (Sa : startswith (py "**") a = false).
  { destruct (startswith (py "**") a) eqn:S; [|reflexivity].
    apply startswith_iff in S as [r ->]. exfalso. apply Na. now left. }
  rewrite Sa, (startswith_contains _ c Nc). cbn [andb].
  rewrite startswith_app.
  assert (Em : endswith (py "**") (py "**" ++ b ++ py "**") = true).
  { rewrite app_assoc. apply endswith_app. }
  rewrite Em. cbn [andb]. rewrite bold_slice_span.
  rewrite (add_run_done p a) by exact Ca.
  rewrite (add_run_done _ b) by exact Cb.
  rewrite (add_run_done _ c) by exact Cc.
  unfold plain_run, bold_run. now rewrite <- !app_assoc.
Qed.

Lemma bold_only_span_witness :
  Gesture.format_text_with_bold []
    (py "a " ++ py "**" ++ py "beat" ++ py "**" ++ py " and a *deictic* gesture")
  = Done ([] ++ [plain_run (py "a "); bold_run (py "beat");
                 plain_run (py " and a *deictic* gesture")]).
Proof.
  apply bold_only_span; try reflexivity;
    intros H; repeat (destruct H as [H|H]; [discriminate|]); exact H.
Defined.

(** The bold-only formatter raises exactly on a text the library
    refuses. *)
Lemma bold_only_faithful (p : paragraph) (t : str) :
  faithful p t (Gesture.format_text_with_bold p t).
Proof.
  unfold Gesture.format_text_with_bold.
  rewrite <- (re_split_concat (Lit "*"%char)
                [One (Lit "*"%char); LazyStar Dot; One (Lit "*"%char); One (Lit "*"%char)]
                t) at 1.
  apply for_parts_faithful. intros q x.
  destruct (startswith (py "**") x) eqn:S;
    [destruct (endswith (py "**") x) eqn:E|]; cbn [andb];
    try (now apply add_run_faithful).
  destruct (bold_slice_parts x S E) as (l & r & P & Ul & Ur & Cl & Cr).
  now apply (add_slice_faithful q x l r).
Qed.

Lemma formatted_refused (t : str) :
  if xml_compatible t
  then Gesture.refused (Gesture.formatted t) = None
  else exists x, Gesture.refused (Gesture.formatted t) = Some x.
Proof.
  unfold Gesture.formatted. pose proof (bold_only_faithful [] t) as F.
  destruct (Gesture.format_text_with_bold [] t) as [q|q x]; cbn [faithful] in F.
  - destruct F as [-> _]. reflexivity.
  - destruct F as [-> _]. now exists x.
Qed.

Lemma formatted_style (t : str) : Gesture.style (Gesture.formatted t) = None.
Proof. unfold Gesture.formatted. now destruct (Gesture.format_text_with_bold [] t). Qed.

(** ** The sections of the report *)

Lemma write_all_keeps (Q : Gesture.block -> Prop) (bs : list Gesture.block) :
  Forall Q bs -> Forall Q (fst (Gesture.write_all bs)).
Proof.
  induction 1 as [|b bs Hb _ IH]; cbn [Gesture.write_all]; [constructor|].
  destruct (Gesture.refused b).
  - cbn [fst]. now constructor.
  - destruct (Gesture.write_all bs) as [done raised]. cbn [fst] in *. now constructor.
Qed.

Lemma add_all (bs : list Gesture.block) (st : Gesture.state) :
  Gesture.doc (fold_left (fun st b => Gesture.add b st) bs st) = Gesture.doc st ++ bs
  /\ Gesture.calls (fold_left (fun st b => Gesture.add b st) bs st) = Gesture.calls st.
Proof.
  revert st. induction bs as [|b bs IH]; intros st; cbn [fold_left].
  - now rewrite app_nil_r.
  - destruct (IH (Gesture.add b st)) as [D C]. rewrite D, C. cbn.
    now rewrite <- app_assoc.
Qed.

Lemma analyze_missing (w : Gesture.world) (st : Gesture.state) (p : str) :
  Gesture.file_exists w p = false -> Gesture.analyze w st p = st.
Proof. intros E. unfold Gesture.analyze. now rewrite E. Qed.

(** One iteration for a file that exists: a heading, the body of the
    reply, a spacing paragraph; and the calls of one attempt. *)
Lemma analyze_existing (w : Gesture.world) (st : Gesture.state) (p : str) :
  Gesture.file_exists w p = true ->
  Gesture.doc (Gesture.analyze w st p)
  = Gesture.doc st
      ++ Gesture.add_heading (py "Video: " ++ basename p) 1
      :: section_body w (Gesture.service w (Gesture.attempts st))
      ++ [Gesture.add_paragraph [] None]
  /\ Gesture.calls (Gesture.analyze w st p)
     = Gesture.calls st ++ section_calls p (Gesture.service w (Gesture.attempts st)).
Proof.
  intros E. unfold Gesture.analyze. rewrite E. cbn [negb].
  destruct (Gesture.service w (Gesture.attempts st)) as [e | e d | d | e d | t d];
    unfold Gesture.finish, Gesture.attempt; cbn [section_body section_calls];
    try (cbn [Gesture.add Gesture.do_call Gesture.doc Gesture.calls];
         rewrite <- !app_assoc; split; reflexivity).
  destruct (Gesture.analysis_blocks w t) as [bs raised]. cbn [fst snd].
  match goal with
  | |- context [fold_left ?f bs ?s] => destruct (add_all bs s) as [D C]
  end.
  destruct raised;
    cbn [Gesture.add Gesture.do_call Gesture.doc Gesture.calls] in *;
    rewrite D, C, <- !app_assoc; cbn [app]; rewrite <- ?app_assoc;
    split; reflexivity.
Qed.

Lemma section_calls_uploads (p : str) (r : Gesture.reply) :
  length (filter is_upload (section_calls p r)) = 1 /\ uploaded (section_calls p r) = [p].
Proof. destruct r; split; reflexivity. Qed.

Lemma analyze_attempts (w : Gesture.world) (st : Gesture.state) (p : str) :
  Gesture.file_exists w p = true ->
  Gesture.attempts (Gesture.analyze w st p) = S (Gesture.attempts st).
Proof.
  intros E. unfold Gesture.attempts.
  destruct (analyze_existing w st p E) as [_ C]. rewrite C, filter_app, length_app.
  destruct (section_calls_uploads p (Gesture.service w (length (filter is_upload (Gesture.calls st)))))
    as [L _].
  unfold Gesture.attempts in *. rewrite L. lia.
Qed.

(** The loop only appends to the document. *)
Lemma loop_appends (w : Gesture.world) (paths : list str) (st : Gesture.state) :
  exists more, Gesture.doc (fold_left (Gesture.analyze w) paths st) = Gesture.doc st ++ more.
Proof.
  revert st. induction paths as [|p paths IH]; intros st; cbn [fold_left].
  - exists []. now rewrite app_nil_r.
  - destruct (IH (Gesture.analyze w st p)) as [more M]. rewrite M.
    destruct (Gesture.file_exists w p) eqn:E.
    + destruct (analyze_existing w st p E) as [D _]. rewrite D, <- app_assoc. eauto.
    + rewrite analyze_missing by exact E. eauto.
Qed.

Lemma no_heading1_filter (bs : list Gesture.block) :
  Forall (fun b => heading1 b = false) bs -> filter heading1 bs = [].
Proof.
  induction 1 as [|b bs Hb _ IH]; [reflexivity|]. cbn [filter]. now rewrite Hb.
Qed.

Lemma formatted_no_heading1 (t : str) : heading1 (Gesture.formatted t) = false.
Proof. unfold heading1. now rewrite formatted_style. Qed.

Lemma analysis_blocks_no_heading1 (w : Gesture.world) (t : str) :
  Forall (fun b => heading1 b = false) (fst (Gesture.analysis_blocks w t)).
Proof.
  unfold Gesture.analysis_blocks.
  assert (P : Forall (fun b => heading1 b = false) (fst (Gesture.parsed_blocks w t))).
  { unfold Gesture.parsed_blocks. destruct (split_response t) as [a|]; [|constructor].
    match goal with
    | |- context [Gesture.write_all ?l] =>
        pose proof (write_all_keeps (fun b => heading1 b = false) l) as W;
        destruct (Gesture.write_all l) as [done raised]
    end.
    cbn [fst] in *. apply W.
    repeat constructor; apply formatted_no_heading1. }
  destruct (Gesture.parsed_blocks w t) as [done [message|]]; cbn [fst] in *.
  - match goal with
    | |- context [Gesture.write_all ?l] =>
        pose proof (write_all_keeps (fun b => heading1 b = false) l) as W;
        destruct (Gesture.write_all l) as [more raised]
    end.
    cbn [fst] in *. constructor; [reflexivity|]. apply Forall_app. split; [exact P|].
    apply W. repeat constructor; apply formatted_no_heading1.
  - constructor; [reflexivity | exact P].
Qed.

Lemma section_body_no_heading1 (w : Gesture.world) (r : Gesture.reply) :
  filter heading1 (section_body w r) = [].
Proof.
  apply no_heading1_filter.
  destruct r as [e | e d | d | e d | t d]; cbn [section_body];
    try (repeat constructor; unfold Gesture.add_paragraph;
         now destruct (py "Error analyzing video: " ++ e));
    try (repeat constructor).
  apply Forall_app. split; [apply analysis_blocks_no_heading1|].
  destruct (snd (Gesture.analysis_blocks w t)); repeat constructor.
Qed.

Lemma loop_headings (w : Gesture.world) (paths : list str) (st : Gesture.state) :
  video_headings (Gesture.doc (fold_left (Gesture.analyze w) paths st))
  = video_headings (Gesture.doc st)
      ++ map (fun p => [plain_run (py "Video: " ++ basename p)]) (existing w paths).
Proof.
  revert st. induction paths as [|p paths IH]; intros st; cbn [fold_left].
  - simpl. now rewrite app_nil_r.
  - rewrite IH. unfold existing. cbn [filter].
    destruct (Gesture.file_exists w p) eqn:E.
    + destruct (analyze_existing w st p E) as [D _]. rewrite D.
      unfold video_headings.
      change (?h :: ?b ++ ?s) with ([h] ++ b ++ s).
      rewrite !filter_app, section_body_no_heading1, !map_app, <- app_assoc.
      reflexivity.
    + rewrite analyze_missing by exact E. reflexivity.
Qed.

(** X17. Whatever the service does, the report saved by
    gesture_analysis_doc.py has one heading of level 1 for every queued
    path whose file exists, in the order of the queue, with the text
    Video: followed by the base name of the path; a missing file leaves no
    heading, and no failure of an upload, of an analysis or of the parse
    drops or adds one. *)
Theorem report_headings (w : Gesture.world) (video_paths : list str) :
  video_headings (Gesture.doc (Gesture.create_analysis_document w video_paths))
  = map (fun p => [plain_run (py "Video: " ++ basename p)]) (existing w video_paths).
Proof.
  unfold Gesture.create_analysis_document. rewrite loop_headings. reflexivity.
Qed.

(** The paragraphs written for a response: Analysis: first; last, the
    whole response formatted when the library accepts it, and otherwise
    the error paragraph of the outer [except]. *)
Lemma analysis_blocks_shape (w : Gesture.world) (t : str) :
  exists middle,
    section_body w (Gesture.Answer t false)
    = Gesture.add_paragraph (py "Analysis:") (Some (py "Heading 2"))
      :: middle
      ++ [if xml_compatible t
          then Gesture.formatted t
          else Gesture.add_paragraph
                 (py "Error analyzing video: " ++ Gesture.refusal w) None].
Proof.
  cbn [section_body]. unfold Gesture.analysis_blocks, Gesture.parsed_blocks.
  pose proof (formatted_refused t) as R.
  destruct (split_response t) as [a|].
  - remember (Gesture.formatted (action a)) as fa.
    remember (Gesture.formatted (category a)) as fc.
    remember (Gesture.formatted t) as ft.
    cbn [Gesture.write_all Gesture.refused Gesture.add_paragraph].
    destruct (xml_compatible t); [|destruct R as [x R]]; rewrite ?R;
      destruct (Gesture.refused fa); cbn [fst snd app]; rewrite ?R;
      try destruct (Gesture.refused fc); cbn [fst snd app]; rewrite ?R;
      cbn [fst snd app];
      first [ eexists [_; _; _; _; _]; reflexivity
            | eexists [_; _; _; _; _; _]; reflexivity
            | eexists [_; _; _; _; _; _; _]; reflexivity
            | eexists [_; _; _; _; _; _; _; _]; reflexivity
            | eexists [_; _; _; _; _; _; _; _; _; _]; reflexivity ].
  - remember (Gesture.formatted t) as ft.
    cbn [Gesture.write_all Gesture.refused Gesture.add_paragraph].
    destruct (xml_compatible t); [|destruct R as [x R]]; rewrite R;
      cbn [fst snd app];
      first [ eexists [_; _; _]; reflexivity | eexists [_; _; _; _]; reflexivity ].
Qed.

Lemma loop_section (w : Gesture.world) (paths : list str) (k : nat) (p : str)
      (st : Gesture.state) :
  nth_error (existing w paths) k = Some p ->
  exists before after,
    Gesture.doc (fold_left (Gesture.analyze w) paths st)
    = before
        ++ Gesture.add_heading (py "Video: " ++ basename p) 1
        :: section_body w (Gesture.service w (Gesture.attempts st + k))
        ++ Gesture.add_paragraph [] None :: after.
Proof.
  revert k st. induction paths as [|q paths IH]; intros k st; cbn [fold_left].
  - destruct k; discriminate.
  - unfold existing. cbn [filter]. destruct (Gesture.file_exists w q) eqn:E.
    + destruct k as [|k]; cbn [nth_error].
      * intros H. injection H as ->. rewrite Nat.add_0_r.
        destruct (loop_appends w paths (Gesture.analyze w st p)) as [more M].
        destruct (analyze_existing w st p E) as [D _]. rewrite M, D.
        exists (Gesture.doc st), more. rewrite <- !app_assoc. cbn [app].
        now rewrite <- app_assoc.
      * intros H. destruct (IH k (Gesture.analyze w st q) H) as [before [after B]].
        rewrite analyze_attempts in B by exact E.
        rewrite <- Nat.add_succ_comm. eauto.
    + intros H. rewrite analyze_missing by exact E. now apply IH.
Qed.

(** X18. When the analysis of the k-th existing video of the queue is
    answered with a text, the report holds the section of that video: its
    heading, the paragraph Analysis:, and, last before the spacing
    paragraph, the whole response formatted, whether the split found the
    two fields or raised, when the document library accepts the response;
    when the response holds a character the library refuses, the section
    ends instead with the error paragraph of the outer [except], which
    quotes the message of the library. *)
Theorem raw_response_kept (w : Gesture.world) (video_paths : list str) (k : nat)
        (p t : str) (d : bool) :
  nth_error (existing w video_paths) k = Some p ->
  Gesture.service w k = Gesture.Answer t d ->
  (exists before middle after,
     Gesture.doc (Gesture.create_analysis_document w video_paths)
     = before
         ++ [Gesture.add_heading (py "Video: " ++ basename p) 1;
             Gesture.add_paragraph (py "Analysis:") (Some (py "Heading 2"))]
         ++ middle
         ++ [if xml_compatible t
             then Gesture.formatted t
             else Gesture.add_paragraph
                    (py "Error analyzing video: " ++ Gesture.refusal w) None;
             Gesture.add_paragraph [] None]
         ++ after)
  /\ (xml_compatible t = true -> Gesture.refused (Gesture.formatted t) = None).
Proof.
  intros N S. split.
  - unfold Gesture.create_analysis_document.
    destruct (loop_section w video_paths k p (Gesture.initial_state w) N)
      as [before [after B]].
    change (Gesture.attempts (Gesture.initial_state w) + k) with k in B.
    rewrite S in B.
    change (section_body w (Gesture.Answer t d))
      with (section_body w (Gesture.Answer t false)) in B.
    destruct (analysis_blocks_shape w t) as [middle M]. rewrite M in B.
    exists before, middle, after. rewrite B. cbn [app].
    now rewrite <- app_assoc.
  - intros C. pose proof (formatted_refused t) as R. now rewrite C in R.
Qed.

Lemma raw_response_kept_witness :
  (exists before middle after,
     Gesture.doc (Gesture.create_analysis_document
                    (always_answers (py "1) A raised hand. 2) A beat gesture."))
                    [py "clips/a.mp4"])
     = before
         ++ [Gesture.add_heading (py "Video: " ++ basename (py "clips/a.mp4")) 1;
             Gesture.add_paragraph (py "Analysis:") (Some (py "Heading 2"))]
         ++ middle
         ++ [if xml_compatible (py "1) A raised hand. 2) A beat gesture.")
             then Gesture.formatted (py "1) A raised hand. 2) A beat gesture.")
             else Gesture.add_paragraph
                    (py "Error analyzing video: "
                     ++ Gesture.refusal
                          (always_answers (py "1) A raised hand. 2) A beat gesture.")))
                    None;
             Gesture.add_paragraph [] None]
         ++ after)
  /\ (xml_compatible (py "1) A raised hand. 2) A beat gesture.") = true ->
      Gesture.refused (Gesture.formatted (py "1) A raised hand. 2) A beat gesture."))
      = None).
Proof.
  apply (raw_response_kept
           (always_answers (py "1) A raised hand. 2) A beat gesture."))
           [py "clips/a.mp4"] 0 (py "clips/a.mp4")
           (py "1) A raised hand. 2) A beat gesture.") false);
    reflexivity.
Defined.

Lemma uploaded_app (a b : list call) : uploaded (a ++ b) = uploaded a ++ uploaded b.
Proof. apply flat_map_app. Qed.

Lemma loop_calls (w : Gesture.world) (paths : list str) (st : Gesture.state) :
  attempts_trace (Gesture.calls st) ->
  attempts_trace (Gesture.calls (fold_left (Gesture.analyze w) paths st))
  /\ uploaded (Gesture.calls (fold_left (Gesture.analyze w) paths st))
     = uploaded (Gesture.calls st) ++ existing w paths.
Proof.
  revert st. induction paths as [|p paths IH]; intros st T; cbn [fold_left].
  - split; [exact T|]. simpl. now rewrite app_nil_r.
  - unfold existing. cbn [filter]. destruct (Gesture.file_exists w p) eqn:E.
    + destruct (analyze_existing w st p E) as [_ C].
      assert (T' : attempts_trace (Gesture.calls (Gesture.analyze w st p))).
      { rewrite C. destruct (Gesture.service w (Gesture.attempts st)); cbn [section_calls];
          (now apply trace_upload_raised) || (now apply trace_attempt). }
      destruct (IH _ T') as [T2 U]. split; [exact T2|].
      rewrite U, C, uploaded_app.
      destruct (section_calls_uploads p (Gesture.service w (Gesture.attempts st))) as [_ ->].
      now rewrite <- app_assoc.
    + rewrite analyze_missing by exact E. now apply IH.
Qed.

(** X19. In every run of gesture_analysis_doc.py the files uploaded are
    the queued paths whose file exists, each once and in the order of the
    queue, and the calls made are a sequence of attempts: an upload alone
    when the upload raised, otherwise the upload, the analysis request and
    the deletion of the same file, so that every uploaded file is deleted
    whatever the analysis and the parse did. *)
Theorem existing_files_uploaded_once (w : Gesture.world) (video_paths : list str) :
  uploaded (Gesture.calls (Gesture.create_analysis_document w video_paths))
  = existing w video_paths
  /\ attempts_trace (Gesture.calls (Gesture.create_analysis_document w video_paths))
  /\ dels (Gesture.calls (Gesture.create_analysis_document w video_paths))
     = gens (Gesture.calls (Gesture.create_analysis_document w video_paths)).
Proof.
  unfold Gesture.create_analysis_document.
  destruct (loop_calls w video_paths (Gesture.initial_state w) trace_empty) as [T U].
  split; [exact U|]. split; [exact T|]. now apply attempts_trace_counts.
Qed.

End GestureReport.
